(** * Anonymous chat server: pairing, moderation and media hand-off

    A shallow embedding of the two server programs of the repository:

    - [Part000]: src/unnamed/part_000, the server that keeps a set of
      reporter identities per reported identity ([reportVotes]) and a table
      of temporary bans ([tempBans]);
    - [ServerJs]: src/server.js, the server with the [next] event, a set of
      banned identities ([bannedIdents]) and a report handler written
      against a table of counts ([reportCounts]) that the file does not
      declare.

    Every socket.io handler is a function from the server state to the new
    state and the list of effects (emits, forced closes) it performs, in
    program order.  Node runs one handler to completion before the next
    event is looked at, so a run of the server is a fold of [step] over the
    incoming events. *)

From Stdlib Require Import ZArith String Ascii.
From stdpp Require Import gmap list fin_maps.

Local Open Scope Z_scope.

(** ** JavaScript strings and values *)

(** A JavaScript string is a sequence of UTF-16 code units. *)
Abbreviation jsstr := (list N) (only parsing).

(** An ASCII literal as a JavaScript string. *)
Definition js (s : string) : jsstr :=
  N_of_ascii <$> list_ascii_of_string s.

(** [if (s)] on a string (or on [undefined]): only the empty string is falsy. *)
Definition truthy (s : jsstr) : bool :=
  match s with
  | [] => false
  | _ :: _ => true
  end.

(** [m.get(k)] followed by [if (v)]: the value, when present and truthy. *)
Definition get_truthy (m : gmap jsstr jsstr) (k : jsstr) : option jsstr :=
  match m !! k with
  | Some v => if truthy v then Some v else None
  | None => None
  end.

(** [m.has(k)]. *)
Definition has {V : Type} (m : gmap jsstr V) (k : jsstr) : bool :=
  match m !! k with
  | Some _ => true
  | None => false
  end.

(** [x || d] where [x] is a string or [undefined]. *)
Definition or_else (x : option jsstr) (d : jsstr) : jsstr :=
  match x with
  | Some s => if truthy s then s else d
  | None => d
  end.

(** The code units that [String.prototype.trim] strips: ECMAScript
    WhiteSpace (TAB, VT, FF, SP, NBSP, ZWNBSP and category Zs) and
    LineTerminator (LF, CR, LS, PS). *)
Definition is_ws (c : N) : bool :=
  bool_decide (c ∈ [9; 10; 11; 12; 13; 32; 160; 5760; 8192; 8193; 8194; 8195;
                    8196; 8197; 8198; 8199; 8200; 8201; 8202; 8232; 8233;
                    8239; 8287; 12288; 65279]%N).

Fixpoint trimStart (s : jsstr) : jsstr :=
  match s with
  | [] => []
  | c :: s' => if is_ws c then trimStart s' else s
  end.

Definition trimEnd (s : jsstr) : jsstr := reverse (trimStart (reverse s)).

(** [s.trim()]. *)
Definition trim (s : jsstr) : jsstr := trimEnd (trimStart s).

(** [s.startsWith(p)]. *)
Fixpoint startsWith (p s : jsstr) : bool :=
  match p, s with
  | [], _ => true
  | _ :: _, [] => false
  | a :: p', b :: s' => if decide (a = b) then startsWith p' s' else false
  end.

(** A value received as the argument of a client event.  The handlers only
    ask [typeof v === "string"], so every other value is [VOther]. *)
Inductive jsval :=
  | VStr (s : jsstr)
  | VOther.

(** ** The wire: incoming events and outgoing effects *)

(** What the handshake of a new socket carries: [socket.handshake.address]
    and [socket.handshake.headers["user-agent"]], either of which may be
    [undefined]. *)
Record handshake := Handshake {
  address : option jsstr;
  user_agent : option jsstr
}.

Inductive media := Photo | Video.

(** Events arriving from the transport.  [now] is the reading of
    [Date.now()] while the handler runs. *)
Inductive event :=
  | Connection (id : jsstr) (hs : handshake) (now : Z)
  | Agree (id : jsstr)
  | Find (id : jsstr)
  | Next (id : jsstr)
  | Stop (id : jsstr)
  | Message (id : jsstr) (msg : jsval)
  | Report (id : jsstr) (now : Z)
  | MediaOffer (k : media) (id : jsstr) (dataUrl : jsval)
  | MediaAccept (k : media) (id : jsstr)
  | MediaDecline (k : media) (id : jsstr)
  | Disconnect (id : jsstr).

(** Names of the events the server emits. *)
Inductive evname :=
  | need_agree | agreed_ok | banned | searching | matched | stopped
  | partner_left | message | report_received | reported_and_banned
  | media_request (k : media) | media_sent (k : media)
  | media_deliver (k : media) | video_receive | find.

(** Payload of an emitted event: a string, or the object [{ dataUrl }]. *)
Inductive data :=
  | DStr (s : jsstr)
  | DDataUrl (dataUrl : jsstr).

Inductive effect :=
  | SocketEmit (sock : jsstr) (ev : evname) (arg : option data)
      (* socket.emit(ev, arg) on the socket with id [sock] *)
  | RoomEmit (room : jsstr) (ev : evname) (arg : option data)
      (* io.to(room).emit(ev, arg) *)
  | ForceClose (sock : jsstr).
      (* socket.disconnect(true) *)

(** A stored media offer: [{ fromSocketId, dataUrl }]. *)
Record offer := Offer {
  fromSocketId : jsstr;
  dataUrl : jsstr
}.

Global Instance media_eq_dec : EqDecision media.
Proof. solve_decision. Defined.
Global Instance evname_eq_dec : EqDecision evname.
Proof. solve_decision. Defined.
Global Instance data_eq_dec : EqDecision data.
Proof. solve_decision. Defined.
Global Instance effect_eq_dec : EqDecision effect.
Proof. solve_decision. Defined.
Global Instance offer_eq_dec : EqDecision offer.
Proof. solve_decision. Defined.

(** ** Code shared by both programs *)

(** [getIP] and [makeIdent]: [`${ip}::${ua}`] with the user agent cut to
    160 code units. *)
Definition getIP (hs : handshake) : jsstr :=
  or_else (address hs) (js "unknown").

Definition makeIdent (hs : handshake) : jsstr :=
  let ip := getIP hs in
  let ua := take 160 (or_else (user_agent hs) []) in
  ip ++ js "::" ++ ua.

(** [pair(a, b)]: [partners.set(a, b); partners.set(b, a)]. *)
Definition pair (a b : jsstr) (partners : gmap jsstr jsstr) : gmap jsstr jsstr :=
  <[b := a]> (<[a := b]> partners).

(** [unpair(a)]: [b = partners.get(a); if (b) partners.delete(b);
    partners.delete(a)]. *)
Definition unpair (a : jsstr) (partners : gmap jsstr jsstr) : gmap jsstr jsstr :=
  let partners1 :=
    match get_truthy partners a with
    | Some b => delete b partners
    | None => partners
    end in
  delete a partners1.

(** The media type tag an offer must start with. *)
Definition media_prefix (k : media) : jsstr :=
  match k with
  | Photo => js "data:image/"
  | Video => js "data:video/"
  end.

(** The properties of the partner registry and the matching queue. *)
Record registry_ok (queue : list jsstr) (partners : gmap jsstr jsstr) : Prop := {
  registry_sym : ∀ x y, partners !! x = Some y → partners !! y = Some x;
  registry_irrefl : ∀ x, partners !! x ≠ Some x;
  registry_queue_unpaired : ∀ x, x ∈ queue → partners !! x = None;
  registry_queue_nodup : NoDup queue
}.

(** An entry of the queue that the find loop passes over, in the words of
    the specification: the caller itself, or an id that is already paired. *)
Definition passed_over (id : jsstr) (partners : gmap jsstr jsstr) (x : jsstr) : Prop :=
  x = id ∨ is_Some (partners !! x).

(** What find does for a caller that is neither paired nor queued, in the
    words of the specification, as a relation between the queue and the
    registry before and after, and the effects: either the caller is paired
    with the first entry that is not passed over and both sides get
    "matched", or every entry is passed over and the caller is appended to
    the queue, which the pops have emptied by then, and gets "searching". *)
Definition find_outcome (id : jsstr)
    (queue : list jsstr) (partners : gmap jsstr jsstr)
    (queue' : list jsstr) (partners' : gmap jsstr jsstr) (out : list effect) : Prop :=
  (∃ skip other rest,
      queue = skip ++ other :: rest ∧
      Forall (passed_over id partners) skip ∧
      ¬ passed_over id partners other ∧
      partners' = <[other := id]> (<[id := other]> partners) ∧
      queue' = rest ∧
      out = [SocketEmit id matched None; RoomEmit other matched None])
  ∨ (Forall (passed_over id partners) queue ∧
     partners' = partners ∧
     queue' = [id] ∧
     out = [SocketEmit id searching None]).

(** [id] is paired or queued, and not both. *)
Definition in_exactly_one (id : jsstr)
    (queue : list jsstr) (partners : gmap jsstr jsstr) : Prop :=
  (is_Some (partners !! id) ∧ id ∉ queue) ∨ (partners !! id = None ∧ id ∈ queue).

(** What the message handler sends for a consenting sender, in the words
    of the specification: nothing for a payload that is not a string or is
    empty once trimmed; otherwise the trimmed text, to the partner only. *)
Definition relayed (partners : gmap jsstr jsstr) (id : jsstr) (msg : jsval)
  : list effect :=
  match msg with
  | VOther => []
  | VStr m =>
      if decide (trim m = []) then []
      else
        match partners !! id with
        | Some p => [RoomEmit p message (Some (DStr (trim m)))]
        | None => []
        end
  end.

(** ** src/unnamed/part_000 *)

Module Part000.

Definition REPORT_THRESHOLD : nat := 10.
Definition BAN_MS : Z := 24 * 60 * 60 * 1000.

(** The module-level collections, and [sockets]: the connected sockets
    whose handlers are installed ([io.sockets.sockets]), each with its
    [socket.data.agreed] flag. *)
Record state := State {
  queue : list jsstr;
  partners : gmap jsstr jsstr;
  identBySocket : gmap jsstr jsstr;
  reportVotes : gmap jsstr (gset jsstr);
  tempBans : gmap jsstr Z;
  pendingPhotos : gmap jsstr offer;
  pendingVideos : gmap jsstr offer;
  sockets : gmap jsstr bool
}.

Definition init : state :=
  {| queue := []; partners := ∅; identBySocket := ∅; reportVotes := ∅;
     tempBans := ∅; pendingPhotos := ∅; pendingVideos := ∅; sockets := ∅ |}.

Definition set_queue (q : list jsstr) (s : state) : state :=
  {| queue := q; partners := partners s; identBySocket := identBySocket s;
     reportVotes := reportVotes s; tempBans := tempBans s;
     pendingPhotos := pendingPhotos s; pendingVideos := pendingVideos s;
     sockets := sockets s |}.

Definition set_partners (m : gmap jsstr jsstr) (s : state) : state :=
  {| queue := queue s; partners := m; identBySocket := identBySocket s;
     reportVotes := reportVotes s; tempBans := tempBans s;
     pendingPhotos := pendingPhotos s; pendingVideos := pendingVideos s;
     sockets := sockets s |}.

Definition set_identBySocket (m : gmap jsstr jsstr) (s : state) : state :=
  {| queue := queue s; partners := partners s; identBySocket := m;
     reportVotes := reportVotes s; tempBans := tempBans s;
     pendingPhotos := pendingPhotos s; pendingVideos := pendingVideos s;
     sockets := sockets s |}.

Definition set_reportVotes (m : gmap jsstr (gset jsstr)) (s : state) : state :=
  {| queue := queue s; partners := partners s; identBySocket := identBySocket s;
     reportVotes := m; tempBans := tempBans s;
     pendingPhotos := pendingPhotos s; pendingVideos := pendingVideos s;
     sockets := sockets s |}.

Definition set_tempBans (m : gmap jsstr Z) (s : state) : state :=
  {| queue := queue s; partners := partners s; identBySocket := identBySocket s;
     reportVotes := reportVotes s; tempBans := m;
     pendingPhotos := pendingPhotos s; pendingVideos := pendingVideos s;
     sockets := sockets s |}.

Definition set_sockets (m : gmap jsstr bool) (s : state) : state :=
  {| queue := queue s; partners := partners s; identBySocket := identBySocket s;
     reportVotes := reportVotes s; tempBans := tempBans s;
     pendingPhotos := pendingPhotos s; pendingVideos := pendingVideos s;
     sockets := m |}.

(** [pendingPhotos] or [pendingVideos]: the photo and the video handlers
    are the same text up to the map, the type tag and the event names. *)
Definition pending (k : media) (s : state) : gmap jsstr offer :=
  match k with
  | Photo => pendingPhotos s
  | Video => pendingVideos s
  end.

Definition set_pending (k : media) (m : gmap jsstr offer) (s : state) : state :=
  match k with
  | Photo =>
      {| queue := queue s; partners := partners s; identBySocket := identBySocket s;
         reportVotes := reportVotes s; tempBans := tempBans s;
         pendingPhotos := m; pendingVideos := pendingVideos s;
         sockets := sockets s |}
  | Video =>
      {| queue := queue s; partners := partners s; identBySocket := identBySocket s;
         reportVotes := reportVotes s; tempBans := tempBans s;
         pendingPhotos := pendingPhotos s; pendingVideos := m;
         sockets := sockets s |}
  end.

(** [isAgreed(socket)]: [socket.data.agreed === true]. *)
Definition isAgreed (s : state) (id : jsstr) : bool :=
  match sockets s !! id with
  | Some true => true
  | _ => false
  end.

(** [isTemporarilyBanned(ident)] at time [now]: the answer and the ban
    table after the lazy clean-up. *)
Definition isTemporarilyBanned (now : Z) (ident : jsstr) (bans : gmap jsstr Z)
  : bool * gmap jsstr Z :=
  let until := default 0 (bans !! ident) in
  if now <? until then (true, bans)
  else if until =? 0 then (false, bans)
  else (false, delete ident bans).

(** [emitTo(id, event, payload)]. *)
Definition emitTo (id : jsstr) (ev : evname) (arg : option data) : list effect :=
  if truthy id then [RoomEmit id ev arg] else [].

(** The first lines of [requireAgree()]'s failure branch. *)
Definition refuse (s : state) (id : jsstr) : state * list effect :=
  (s, [SocketEmit id need_agree None]).

(** The connection callback up to the installation of the handlers.  On
    the banned branch [socket.disconnect(true)] takes the socket out of
    [io.sockets.sockets]; no listener is installed yet, so no disconnect
    handler runs for it. *)
Definition connection (id : jsstr) (hs : handshake) (now : Z) (s : state)
  : state * list effect :=
  let ident := makeIdent hs in
  let s1 := set_identBySocket (<[id := ident]> (identBySocket s)) s in
  let '(isbanned, bans) := isTemporarilyBanned now ident (tempBans s1) in
  let s2 := set_tempBans bans s1 in
  if isbanned then
    (set_sockets (delete id (sockets s2)) s2,
     [SocketEmit id banned None; ForceClose id])
  else
    (set_sockets (<[id := false]> (sockets s2)) s2,
     [SocketEmit id need_agree None]).

Definition agree (id : jsstr) (s : state) : state * list effect :=
  (set_sockets (<[id := true]> (sockets s)) s, [SocketEmit id agreed_ok None]).

(** The [while (queue.length)] loop of the find handler: the partner it
    stops at, if any, and what is left of the queue. *)
Fixpoint find_loop (self : jsstr) (partners : gmap jsstr jsstr) (q : list jsstr)
  : option jsstr * list jsstr :=
  match q with
  | [] => (None, [])
  | other :: rest =>
      if negb (truthy other) then find_loop self partners rest
      else if decide (other = self) then find_loop self partners rest
      else if has partners other then find_loop self partners rest
      else (Some other, rest)
  end.

Definition find_handler (id : jsstr) (s : state) : state * list effect :=
  if negb (isAgreed s id) then refuse s id
  else if has (partners s) id then (s, [])
  else if bool_decide (id ∈ queue s) then (s, [])
  else
    match find_loop id (partners s) (queue s) with
    | (Some other, rest) =>
        (set_partners (pair id other (partners s)) (set_queue rest s),
         SocketEmit id matched None :: emitTo other matched None)
    | (None, rest) =>
        (set_queue (rest ++ [id]) s, [SocketEmit id searching None])
    end.

(** The block shared by the stop and the disconnect handlers:
    [p = partners.get(id); if (p) { unpair(id); emitTo(p, "partner_left") }
     queue = queue.filter(x => x !== id)]. *)
Definition leave (id : jsstr) (s : state) : state * list effect :=
  let '(s1, out) :=
    match get_truthy (partners s) id with
    | Some p => (set_partners (unpair id (partners s)) s, emitTo p partner_left None)
    | None => (s, [])
    end in
  (set_queue (filter (λ x, x ≠ id) (queue s1)) s1, out).

Definition stop (id : jsstr) (s : state) : state * list effect :=
  if negb (isAgreed s id) then refuse s id
  else
    let '(s1, out) := leave id s in
    (s1, out ++ [SocketEmit id stopped None]).

Definition message_handler (id : jsstr) (msg : jsval) (s : state)
  : state * list effect :=
  if negb (isAgreed s id) then refuse s id
  else
    match msg with
    | VOther => (s, [])
    | VStr m =>
        let text := trim m in
        if negb (truthy text) then (s, [])
        else
          match get_truthy (partners s) id with
          | Some p => (s, emitTo p message (Some (DStr text)))
          | None => (s, [])
          end
    end.

(** The disconnect handler, and the socket leaving [io.sockets.sockets]. *)
Definition disconnect (id : jsstr) (s : state) : state * list effect :=
  let '(s1, out) := leave id s in
  let s2 := set_pending Photo (delete id (pending Photo s1)) s1 in
  let s3 := set_pending Video (delete id (pending Video s2)) s2 in
  let s4 := set_identBySocket (delete id (identBySocket s3)) s3 in
  (set_sockets (delete id (sockets s4)) s4, out).

(** The report handler: the vote is added to the target's set (created on
    first use), the chat is stopped, and at [REPORT_THRESHOLD] voters the
    set is dropped, the ban stored and the target's socket, if connected,
    closed, which runs its disconnect handler. *)
Definition report (id : jsstr) (now : Z) (s : state) : state * list effect :=
  if negb (isAgreed s id) then refuse s id
  else
    match get_truthy (partners s) id with
    | None => (s, [])
    | Some p =>
        match get_truthy (identBySocket s) p, get_truthy (identBySocket s) id with
        | Some targetIdent, Some reporterIdent =>
            let voters := default ∅ (reportVotes s !! targetIdent) ∪ {[reporterIdent]} in
            let s1 := set_reportVotes (<[targetIdent := voters]> (reportVotes s)) s in
            let s2 := set_partners (unpair id (partners s1)) s1 in
            let out :=
              SocketEmit id report_received None
                :: emitTo p partner_left None ++ [SocketEmit id partner_left None] in
            if bool_decide (REPORT_THRESHOLD ≤ size voters)%nat then
              let s3 := set_reportVotes (delete targetIdent (reportVotes s2)) s2 in
              let s4 := set_tempBans (<[targetIdent := now + BAN_MS]> (tempBans s3)) s3 in
              let out' := out ++ emitTo p reported_and_banned None in
              if has (sockets s4) p then
                let '(s5, out'') := disconnect p s4 in
                (s5, out' ++ ForceClose p :: out'')
              else (s4, out')
            else (s2, out)
        | _, _ => (s, [])
        end
    end.

Definition media_offer (k : media) (id : jsstr) (v : jsval) (s : state)
  : state * list effect :=
  if negb (isAgreed s id) then refuse s id
  else
    match get_truthy (partners s) id with
    | None => (s, [])
    | Some receiverId =>
        match v with
        | VOther => (s, [])
        | VStr d =>
            if negb (startsWith (media_prefix k) d) then (s, [])
            else
              (set_pending k (<[receiverId := Offer id d]> (pending k s)) s,
               emitTo receiverId (media_request k) None
                 ++ [SocketEmit id (media_sent k) None])
        end
    end.

(** The texts sent back to the offering side. *)
Definition accepted_text (k : media) : jsstr :=
  match k with
  | Photo => 9989%N :: js " Photo accepted"
  | Video => 9989%N :: js " Video accepted"
  end.

Definition declined_text (k : media) : jsstr :=
  match k with
  | Photo => 10060%N :: js " Photo declined"
  | Video => 10060%N :: js " Video declined"
  end.

Definition media_accept (k : media) (id : jsstr) (s : state) : state * list effect :=
  if negb (isAgreed s id) then refuse s id
  else
    match pending k s !! id with
    | None => (s, [])
    | Some req =>
        (set_pending k (delete id (pending k s)) s,
         SocketEmit id (media_deliver k) (Some (DDataUrl (dataUrl req)))
           :: emitTo (fromSocketId req) message (Some (DStr (accepted_text k))))
    end.

Definition media_decline (k : media) (id : jsstr) (s : state) : state * list effect :=
  if negb (isAgreed s id) then refuse s id
  else
    match pending k s !! id with
    | None => (s, [])
    | Some req =>
        (set_pending k (delete id (pending k s)) s,
         emitTo (fromSocketId req) message (Some (DStr (declined_text k))))
    end.

(** One incoming event.  A socket that is not in [sockets] has no handler
    installed: what it sends is not listened to. *)
Definition step (s : state) (e : event) : state * list effect :=
  match e with
  | Connection id hs now => connection id hs now s
  | Disconnect id => if has (sockets s) id then disconnect id s else (s, [])
  | Agree id => if has (sockets s) id then agree id s else (s, [])
  | Find id => if has (sockets s) id then find_handler id s else (s, [])
  | Next id => (s, [])
  | Stop id => if has (sockets s) id then stop id s else (s, [])
  | Message id msg => if has (sockets s) id then message_handler id msg s else (s, [])
  | Report id now => if has (sockets s) id then report id now s else (s, [])
  | MediaOffer k id v => if has (sockets s) id then media_offer k id v s else (s, [])
  | MediaAccept k id => if has (sockets s) id then media_accept k id s else (s, [])
  | MediaDecline k id => if has (sockets s) id then media_decline k id s else (s, [])
  end.

(** What the transport can deliver in state [s]: a new socket has a fresh,
    non-empty id, and clocks read a positive number of milliseconds. *)
Definition event_ok (s : state) (e : event) : bool :=
  match e with
  | Connection id _ now => truthy id && negb (has (sockets s) id) && bool_decide (0 < now)
  | Report _ now => bool_decide (0 < now)
  | _ => true
  end.

Inductive reachable : state → Prop :=
  | reachable_init : reachable init
  | reachable_step s e :
      reachable s → event_ok s e = true → reachable (step s e).1.

(** Running a list of events, collecting the effects. *)
Fixpoint run (s : state) (es : list event) : state * list effect :=
  match es with
  | [] => (s, [])
  | e :: es' =>
      let '(s1, out1) := step s e in
      let '(s2, out2) := run s1 es' in
      (s2, out1 ++ out2)
  end.

Fixpoint events_ok (s : state) (es : list event) : bool :=
  match es with
  | [] => true
  | e :: es' => event_ok s e && events_ok (step s e).1 es'
  end.

(** What holds of every state the server can be in (see
    [Part000Facts.reachable_state_ok]). *)
Record state_ok (s : state) : Prop := {
  ok_registry : registry_ok (queue s) (partners s);
  ok_socket_ids : ∀ x, is_Some (sockets s !! x) → truthy x = true;
  ok_queue_agreed : ∀ x, x ∈ queue s → isAgreed s x = true;
  ok_partners_agreed : ∀ x y, partners s !! x = Some y → isAgreed s x = true;
  ok_idents : ∀ x, is_Some (sockets s !! x) →
    ∃ i, identBySocket s !! x = Some i ∧ truthy i = true;
  ok_votes : ∀ t V, reportVotes s !! t = Some V → (size V < REPORT_THRESHOLD)%nat;
  ok_bans : ∀ i u, tempBans s !! i = Some u → 0 < u
}.

End Part000.

(** ** src/server.js *)

Module ServerJs.

(** What the connection callback closes over for one socket: the
    [socket.data.agreed] flag and the two maps declared by
    [const pendingPhotos = new Map()] and [const pendingVideos = new Map()]
    inside the callback.  These declarations shadow the module-level maps
    of the same names, which no handler can reach, so every socket has
    pending maps of its own. *)
Record conn := Conn {
  agreed : bool;
  pendingPhotos : gmap jsstr offer;
  pendingVideos : gmap jsstr offer
}.

(** [reportCounts] and [tempBans]: the report handler uses both names as
    Maps, from an identity to a count and to the time a ban ends. *)
Record tables := Tables {
  reportCounts : gmap jsstr nat;
  tempBans : gmap jsstr Z
}.

(** The module-level collections the handlers use; [sockets]: the
    connected sockets whose handlers are installed; and [ledger], for the
    two names of [tables], which the file declares nowhere.  [None] is the
    file as it stands, where reading either name raises a ReferenceError.
    [Some t] is the file with the two declarations the report handler is
    written against, [const reportCounts = new Map()] and
    [const tempBans = new Map()], supplied at module level. *)
Record state := State {
  queue : list jsstr;
  partners : gmap jsstr jsstr;
  identBySocket : gmap jsstr jsstr;
  bannedIdents : gset jsstr;
  sockets : gmap jsstr conn;
  ledger : option tables
}.

(** The server at start, as the file stands. *)
Definition init : state :=
  {| queue := []; partners := ∅; identBySocket := ∅; bannedIdents := ∅;
     sockets := ∅; ledger := None |}.

(** The server at start, with the two declarations supplied. *)
Definition init_declared : state :=
  {| queue := []; partners := ∅; identBySocket := ∅; bannedIdents := ∅;
     sockets := ∅; ledger := Some {| reportCounts := ∅; tempBans := ∅ |} |}.

Definition set_queue (q : list jsstr) (s : state) : state :=
  {| queue := q; partners := partners s; identBySocket := identBySocket s;
     bannedIdents := bannedIdents s; sockets := sockets s; ledger := ledger s |}.

Definition set_partners (m : gmap jsstr jsstr) (s : state) : state :=
  {| queue := queue s; partners := m; identBySocket := identBySocket s;
     bannedIdents := bannedIdents s; sockets := sockets s; ledger := ledger s |}.

Definition set_identBySocket (m : gmap jsstr jsstr) (s : state) : state :=
  {| queue := queue s; partners := partners s; identBySocket := m;
     bannedIdents := bannedIdents s; sockets := sockets s; ledger := ledger s |}.

Definition set_sockets (m : gmap jsstr conn) (s : state) : state :=
  {| queue := queue s; partners := partners s; identBySocket := identBySocket s;
     bannedIdents := bannedIdents s; sockets := m; ledger := ledger s |}.

Definition set_ledger (t : tables) (s : state) : state :=
  {| queue := queue s; partners := partners s; identBySocket := identBySocket s;
     bannedIdents := bannedIdents s; sockets := sockets s; ledger := Some t |}.

Definition pending (k : media) (c : conn) : gmap jsstr offer :=
  match k with
  | Photo => pendingPhotos c
  | Video => pendingVideos c
  end.

Definition set_pending (k : media) (m : gmap jsstr offer) (c : conn) : conn :=
  match k with
  | Photo => {| agreed := agreed c; pendingPhotos := m; pendingVideos := pendingVideos c |}
  | Video => {| agreed := agreed c; pendingPhotos := pendingPhotos c; pendingVideos := m |}
  end.

(** Storing the closure of socket [id] back. *)
Definition set_conn (id : jsstr) (c : conn) (s : state) : state :=
  set_sockets (<[id := c]> (sockets s)) s.

Inductive jserror :=
  | ReferenceError (name : string).

(** How a handler ends: normally, or with an exception nothing catches. *)
Inductive outcome :=
  | Done (s : state) (out : list effect)
  | Uncaught (err : jserror).

(** [isAgreed(socket)]: [socket.data.agreed === true]. *)
Definition isAgreed (s : state) (id : jsstr) : bool :=
  match sockets s !! id with
  | Some c => agreed c
  | None => false
  end.

Definition refuse (s : state) (id : jsstr) : state * list effect :=
  (s, [SocketEmit id need_agree None]).

(** The connection callback up to the installation of the handlers; the
    banned branch is as in src/unnamed/part_000, with [bannedIdents.has]. *)
Definition connection (id : jsstr) (hs : handshake) (s : state) : state * list effect :=
  let ident := makeIdent hs in
  let s1 := set_identBySocket (<[id := ident]> (identBySocket s)) s in
  if bool_decide (ident ∈ bannedIdents s1) then
    (set_sockets (delete id (sockets s1)) s1,
     [SocketEmit id banned None; ForceClose id])
  else
    (set_conn id {| agreed := false; pendingPhotos := ∅; pendingVideos := ∅ |} s1,
     [SocketEmit id need_agree None]).

Definition agree (id : jsstr) (s : state) : state * list effect :=
  match sockets s !! id with
  | None => (s, [])
  | Some c =>
      (set_conn id {| agreed := true; pendingPhotos := pendingPhotos c;
                      pendingVideos := pendingVideos c |} s,
       [SocketEmit id agreed_ok None])
  end.

(** The [while (queue.length)] loop of the find handler: the partner it
    stops at, if any, and what is left of the queue. *)
Fixpoint find_loop (self : jsstr) (partners : gmap jsstr jsstr) (q : list jsstr)
  : option jsstr * list jsstr :=
  match q with
  | [] => (None, [])
  | other :: rest =>
      if bool_decide (other ≠ self) && negb (has partners other)
      then (Some other, rest)
      else find_loop self partners rest
  end.

Definition find_handler (id : jsstr) (s : state) : state * list effect :=
  if negb (isAgreed s id) then refuse s id
  else if has (partners s) id || bool_decide (id ∈ queue s) then (s, [])
  else
    match find_loop id (partners s) (queue s) with
    | (Some other, rest) =>
        (set_partners (pair id other (partners s)) (set_queue rest s),
         [SocketEmit id matched None; RoomEmit other matched None])
    | (None, rest) =>
        (set_queue (rest ++ [id]) s, [SocketEmit id searching None])
    end.

(** The block shared by the next, stop and disconnect handlers:
    [p = partners.get(id); if (p) { unpair(id); io.to(p).emit("partner_left") }
     queue = queue.filter(x => x !== id)]. *)
Definition leave (id : jsstr) (s : state) : state * list effect :=
  let '(s1, out) :=
    match get_truthy (partners s) id with
    | Some p => (set_partners (unpair id (partners s)) s, [RoomEmit p partner_left None])
    | None => (s, [])
    end in
  (set_queue (filter (λ x, x ≠ id) (queue s1)) s1, out).

Definition next (id : jsstr) (s : state) : state * list effect :=
  if negb (isAgreed s id) then refuse s id
  else
    let '(s1, out) := leave id s in
    (s1, out ++ [SocketEmit id searching None; SocketEmit id find None]).

Definition stop (id : jsstr) (s : state) : state * list effect :=
  if negb (isAgreed s id) then refuse s id
  else
    let '(s1, out) := leave id s in
    (s1, out ++ [SocketEmit id stopped None]).

Definition message_handler (id : jsstr) (msg : jsval) (s : state)
  : state * list effect :=
  if negb (isAgreed s id) then refuse s id
  else
    match msg with
    | VOther => (s, [])
    | VStr m =>
        let text := trim m in
        if negb (truthy text) then (s, [])
        else
          match get_truthy (partners s) id with
          | Some p => (s, [RoomEmit p message (Some (DStr text))])
          | None => (s, [])
          end
    end.

(** The disconnect handler, and the socket leaving [io.sockets.sockets];
    the socket's own pending maps go with it. *)
Definition disconnect (id : jsstr) (s : state) : state * list effect :=
  let '(s1, out) := leave id s in
  let s2 := set_identBySocket (delete id (identBySocket s1)) s1 in
  (set_sockets (delete id (sockets s2)) s2, out).

(** The report handler.  Its first statement after the two early returns
    reads [reportCounts]: in the file as it stands this raises a
    ReferenceError and nothing of what follows runs.  With the two maps
    declared, the handler adds one to the target's count, and only when the
    count reaches 10 stores the ban, drops the count, unpairs, notifies and
    closes the target's socket, which runs its disconnect handler. *)
Definition report (id : jsstr) (now : Z) (s : state) : outcome :=
  if negb (isAgreed s id) then Done s [SocketEmit id need_agree None]
  else
    match get_truthy (partners s) id with
    | None => Done s []
    | Some p =>
        match get_truthy (identBySocket s) p with
        | None => Done s []
        | Some partnerIdent =>
            match ledger s with
            | None => Uncaught (ReferenceError "reportCounts")
            | Some t =>
                let count := (default 0 (reportCounts t !! partnerIdent) + 1)%nat in
                let counts := <[partnerIdent := count]> (reportCounts t) in
                if bool_decide (10 ≤ count)%nat then
                  let until := now + 24 * 60 * 60 * 1000 in
                  let t' := {| reportCounts := delete partnerIdent counts;
                               tempBans := <[partnerIdent := until]> (tempBans t) |} in
                  let s1 := set_partners (unpair id (partners s)) (set_ledger t' s) in
                  let out := [RoomEmit p reported_and_banned None;
                              SocketEmit id report_received None] in
                  if has (sockets s1) p then
                    let '(s2, out') := disconnect p s1 in
                    Done s2 (out ++ ForceClose p :: out')
                  else Done s1 out
                else
                  Done (set_ledger {| reportCounts := counts; tempBans := tempBans t |} s) []
            end
        end
    end.

(** [photo_offer], and each of the two [video_offer] handlers. *)
Definition media_offer (k : media) (id : jsstr) (v : jsval) (s : state)
  : state * list effect :=
  match sockets s !! id with
  | None => (s, [])
  | Some c =>
      if negb (agreed c) then refuse s id
      else
        match get_truthy (partners s) id with
        | None => (s, [])
        | Some p =>
            match v with
            | VOther => (s, [])
            | VStr d =>
                if negb (startsWith (media_prefix k) d) then (s, [])
                else
                  (set_conn id (set_pending k (<[p := Offer id d]> (pending k c)) c) s,
                   [RoomEmit p (media_request k) None; SocketEmit id (media_sent k) None])
            end
        end
  end.

(** [photo_accept], and the first [video_accept] handler. *)
Definition media_accept (k : media) (id : jsstr) (s : state) : state * list effect :=
  match sockets s !! id with
  | None => (s, [])
  | Some c =>
      if negb (agreed c) then refuse s id
      else
        match pending k c !! id with
        | None => (s, [])
        | Some req =>
            (set_conn id (set_pending k (delete id (pending k c)) c) s,
             [SocketEmit id (media_deliver k) (Some (DStr (dataUrl req)))])
        end
  end.

(** The second [video_accept] handler. *)
Definition video_accept_2 (id : jsstr) (s : state) : state * list effect :=
  match sockets s !! id with
  | None => (s, [])
  | Some c =>
      if negb (agreed c) then refuse s id
      else
        match pendingVideos c !! id with
        | None => (s, [])
        | Some req =>
            (set_conn id (set_pending Video (delete id (pendingVideos c)) c) s,
             [RoomEmit id video_receive (Some (DStr (dataUrl req)))])
        end
  end.

(** [photo_decline], and the first [video_decline] handler. *)
Definition media_decline (k : media) (id : jsstr) (s : state) : state * list effect :=
  match sockets s !! id with
  | None => (s, [])
  | Some c =>
      if negb (agreed c) then refuse s id
      else
        match pending k c !! id with
        | None => (s, [])
        | Some req =>
            (set_conn id (set_pending k (delete id (pending k c)) c) s,
             [SocketEmit id stopped None])
        end
  end.

(** The second [video_decline] handler. *)
Definition video_decline_2 (id : jsstr) (s : state) : state * list effect :=
  match sockets s !! id with
  | None => (s, [])
  | Some c =>
      if negb (agreed c) then refuse s id
      else (set_conn id (set_pending Video (delete id (pendingVideos c)) c) s, [])
  end.

(** Two listeners on one event run in the order they were installed. *)
Definition both (h1 h2 : state → state * list effect) (s : state)
  : state * list effect :=
  let '(s1, out1) := h1 s in
  let '(s2, out2) := h2 s1 in
  (s2, out1 ++ out2).

Definition finish (r : state * list effect) : outcome := Done r.1 r.2.

(** The listeners of a socket run only while it is in [sockets]. *)
Definition listening (s : state) (id : jsstr) (r : outcome) : outcome :=
  if has (sockets s) id then r else Done s [].

(** One incoming event. *)
Definition step (s : state) (e : event) : outcome :=
  match e with
  | Connection id hs _ => finish (connection id hs s)
  | Disconnect id => listening s id (finish (disconnect id s))
  | Agree id => listening s id (finish (agree id s))
  | Find id => listening s id (finish (find_handler id s))
  | Next id => listening s id (finish (next id s))
  | Stop id => listening s id (finish (stop id s))
  | Message id msg => listening s id (finish (message_handler id msg s))
  | Report id now => listening s id (report id now s)
  | MediaOffer Photo id v => listening s id (finish (media_offer Photo id v s))
  | MediaOffer Video id v =>
      listening s id (finish (both (media_offer Video id v) (media_offer Video id v) s))
  | MediaAccept Photo id => listening s id (finish (media_accept Photo id s))
  | MediaAccept Video id =>
      listening s id (finish (both (media_accept Video id) (video_accept_2 id) s))
  | MediaDecline Photo id => listening s id (finish (media_decline Photo id s))
  | MediaDecline Video id =>
      listening s id (finish (both (media_decline Video id) (video_decline_2 id) s))
  end.

(** What the transport can deliver in state [s]: a new socket has a fresh,
    non-empty id. *)
Definition event_ok (s : state) (e : event) : bool :=
  match e with
  | Connection id _ _ => truthy id && negb (has (sockets s) id)
  | _ => true
  end.

(** The states of a server that is still running, for the file as it
    stands and for the file with the two declarations supplied. *)
Inductive reachable : state → Prop :=
  | reachable_init : reachable init
  | reachable_init_declared : reachable init_declared
  | reachable_step s e s' out :
      reachable s → event_ok s e = true → step s e = Done s' out → reachable s'.

(** Running a list of events; an uncaught exception ends the process. *)
Fixpoint run (s : state) (es : list event) : outcome :=
  match es with
  | [] => Done s []
  | e :: es' =>
      match step s e with
      | Done s1 out1 =>
          match run s1 es' with
          | Done s2 out2 => Done s2 (out1 ++ out2)
          | Uncaught err => Uncaught err
          end
      | Uncaught err => Uncaught err
      end
  end.

Fixpoint events_ok (s : state) (es : list event) : bool :=
  match es with
  | [] => true
  | e :: es' =>
      event_ok s e &&
      match step s e with
      | Done s1 _ => events_ok s1 es'
      | Uncaught _ => true
      end
  end.

(** The state a run ends in, when it ends normally. *)
Definition final (o : outcome) : state :=
  match o with
  | Done s _ => s
  | Uncaught _ => init
  end.

(** What holds of every state the running server can be in (see
    [ServerJsFacts.sj_reachable_state_ok]). *)
Record state_ok (s : state) : Prop := {
  ok_registry : registry_ok (queue s) (partners s);
  ok_socket_ids : ∀ x, is_Some (sockets s !! x) → truthy x = true;
  ok_queue_agreed : ∀ x, x ∈ queue s → isAgreed s x = true;
  ok_partners_agreed : ∀ x y, partners s !! x = Some y → isAgreed s x = true;
  ok_idents : ∀ x, is_Some (sockets s !! x) →
    ∃ i, identBySocket s !! x = Some i ∧ truthy i = true
}.

End ServerJs.

(** ** Concrete runs *)

Module Scenario.

Definition hs (addr : string) : handshake :=
  {| address := Some (js addr); user_agent := Some (js "Mozilla/5.0") |}.

Definition A : jsstr := js "sockA".
Definition B : jsstr := js "sockB".

(** Two visitors connect and consent, and the first asks for a partner. *)
Definition arrive : list event :=
  [Connection A (hs "10.0.0.1") 1000; Connection B (hs "10.0.0.2") 1001;
   Agree A; Agree B; Find A].

(** The second asks too, and they are matched. *)
Definition meet : list event := arrive ++ [Find B].

(** The states of the two servers while [A] waits in the queue. *)
Definition waiting : Part000.state := (Part000.run Part000.init arrive).1.
Definition waiting_js : ServerJs.state := ServerJs.final (ServerJs.run ServerJs.init arrive).

(** The states of the two servers once [A] and [B] are matched. *)
Definition met : Part000.state := (Part000.run Part000.init meet).1.
Definition met_js : ServerJs.state := ServerJs.final (ServerJs.run ServerJs.init meet).
Definition met_js_declared : ServerJs.state :=
  ServerJs.final (ServerJs.run ServerJs.init_declared meet).

Definition photo1 : jsstr := js "data:image/png;base64,AAAA".
Definition photo2 : jsstr := js "data:image/png;base64,BBBB".

(** A target and reporters with distinct addresses.  In round [i] reporter
    [i] connects, consents, is matched with the target and reports it. *)
Definition T : jsstr := js "target".
Definition hsT : handshake := hs "10.0.0.9".

Definition reporter (i : nat) : jsstr := js "reporter" ++ [N.of_nat (48 + i)].

Definition hsR (i : nat) : handshake :=
  {| address := Some (js "10.0.1." ++ [N.of_nat (48 + i)]);
     user_agent := Some (js "Mozilla/5.0") |}.

Definition round (i : nat) : list event :=
  [Connection (reporter i) (hsR i) (2000 + Z.of_nat i); Agree (reporter i);
   Find T; Find (reporter i); Report (reporter i) (2000 + Z.of_nat i)].

Definition reports (n : nat) : list event :=
  [Connection T hsT 1000; Agree T] ++ concat (round <$> seq 0 n).

(** The server once the tenth reporter has reported the target. *)
Definition target_banned : Part000.state := (Part000.run Part000.init (reports 10)).1.

(** [A] offers [B] a photo while they are matched. *)
Definition offered : Part000.state :=
  (Part000.run Part000.init (meet ++ [MediaOffer Photo A (VStr photo1)])).1.

(** A state of src/server.js with the target's identity in [bannedIdents]
    (no handler of the file ever adds to that set). *)
Definition blocklisted : ServerJs.state :=
  {| ServerJs.queue := []; ServerJs.partners := ∅; ServerJs.identBySocket := ∅;
     ServerJs.bannedIdents := {[makeIdent hsT]}; ServerJs.sockets := ∅;
     ServerJs.ledger := None |}.

(** The same reporter coming back for another round. *)
Definition again (i : nat) : list event :=
  [Find T; Find (reporter i); Report (reporter i) 3000].

End Scenario.

(** ** Two statements of the specification, as it words them *)

(** The ban check runs before any other connect-time state is established:
    a connection that meets an unexpired ban gets the "banned" notice and is
    closed, and neither a consent flag nor an identity mapping is set up. *)
Definition ban_check_comes_first
    (s : Part000.state) (id : jsstr) (hs : handshake) (now : Z) : Prop :=
  (Part000.isTemporarilyBanned now (makeIdent hs) (Part000.tempBans s)).1 = true →
  (Part000.step s (Connection id hs now)).2 = [SocketEmit id banned None; ForceClose id] ∧
  Part000.sockets (Part000.step s (Connection id hs now)).1 = Part000.sockets s ∧
  Part000.identBySocket (Part000.step s (Connection id hs now)).1 = Part000.identBySocket s.

(** After stop the id is in neither the queue nor the registry, and no
    media offer is pending for it. *)
Definition stop_clears_offers (s : Part000.state) (id : jsstr) : Prop :=
  Part000.isAgreed s id = true →
  (id ∉ Part000.queue (Part000.step s (Stop id)).1) ∧
  Part000.partners (Part000.step s (Stop id)).1 !! id = None ∧
  Part000.pendingPhotos (Part000.step s (Stop id)).1 !! id = None ∧
  Part000.pendingVideos (Part000.step s (Stop id)).1 !! id = None.

(** ** Notions for further properties of the two programs *)

(** The socket an event comes from, for the events of src/unnamed/part_000
    whose handler starts with [if (!requireAgree()) return]. *)
Definition gated (e : event) : option jsstr :=
  match e with
  | Find id | Stop id | Message id _ | Report id _
  | MediaOffer _ id _ | MediaAccept _ id | MediaDecline _ id => Some id
  | Connection _ _ _ | Agree _ | Next _ | Disconnect _ => None
  end.

(** The same for src/server.js, which also listens to next, with the number
    of listeners it installs for the event: the three video events have two
    each. *)
Definition gated_listeners (e : event) : option (jsstr * nat) :=
  match e with
  | Find id | Next id | Stop id | Message id _ | Report id _ => Some (id, 1%nat)
  | MediaOffer Photo id _ | MediaAccept Photo id | MediaDecline Photo id => Some (id, 1%nat)
  | MediaOffer Video id _ | MediaAccept Video id | MediaDecline Video id => Some (id, 2%nat)
  | Connection _ _ _ | Agree _ | Disconnect _ => None
  end.

(** In src/unnamed/part_000: an offer is pending only for a receiver that is
    connected and has consented, and never comes from the receiver itself. *)
Definition pending_ok (s : Part000.state) : Prop :=
  ∀ k r o, Part000.pending k s !! r = Some o →
    Part000.isAgreed s r = true ∧ fromSocketId o ≠ r.

(** In src/server.js: no socket holds, in its own pending maps, an offer
    under its own id. *)
Definition own_offers_absent (s : ServerJs.state) : Prop :=
  ∀ k id c, ServerJs.sockets s !! id = Some c → ServerJs.pending k c !! id = None.

(** The clock reading an event comes with: [Date.now()] is read by the
    connection callback (in the ban check) and by the report handler. *)
Definition clock (e : event) : option Z :=
  match e with
  | Connection _ _ now | Report _ now => Some now
  | _ => None
  end.

(** Every clock reading in [es] is in the interval from [lo] up to, and
    not including, [hi]. *)
Definition clocks_within (lo hi : Z) (es : list event) : bool :=
  forallb (λ e, match clock e with
                | Some n => (lo <=? n) && (n <? hi)
                | None => true
                end) es.

Definition is_report (e : event) : bool :=
  match e with
  | Report _ _ => true
  | _ => false
  end.

(** An effect that hands the payload of a media offer to a client:
    "photo_deliver", "video_deliver" or "video_receive". *)
Definition delivers_media (eff : effect) : bool :=
  match eff with
  | SocketEmit _ (media_deliver _) _ | RoomEmit _ (media_deliver _) _ => true
  | SocketEmit _ video_receive _ | RoomEmit _ video_receive _ => true
  | _ => false
  end.

(** The closure of a socket that has just connected. *)
Definition fresh_conn : ServerJs.conn :=
  {| ServerJs.agreed := false; ServerJs.pendingPhotos := ∅; ServerJs.pendingVideos := ∅ |}.

(** More concrete runs. *)
Module Scenario2.

(** [A] has connected and not consented yet. *)
Definition connected : Part000.state :=
  (Part000.run Part000.init [Connection Scenario.A (Scenario.hs "10.0.0.1") 1000]).1.
Definition connected_js : ServerJs.state :=
  ServerJs.final (ServerJs.run ServerJs.init [Connection Scenario.A (Scenario.hs "10.0.0.1") 1000]).

(** Nine reporters have reported the target, and the tenth is matched with
    it. *)
Definition ninth_and_matched : list event :=
  Scenario.reports 9 ++
  [Connection (Scenario.reporter 9) (Scenario.hsR 9) 2009; Agree (Scenario.reporter 9);
   Find Scenario.T; Find (Scenario.reporter 9)].
Definition before_ban : Part000.state := (Part000.run Part000.init ninth_and_matched).1.

(** src/server.js with the two maps declared, after [A] has reported [B]
    ten times. *)
Definition ten_by_one : list event :=
  Scenario.meet ++ replicate 10 (Report Scenario.A 2000).
Definition after_ten_js : ServerJs.state :=
  ServerJs.final (ServerJs.run ServerJs.init_declared ten_by_one).

(** [A] offers [B] a video on src/server.js. *)
Definition video1 : jsstr := js "data:video/mp4;base64,AAAA".

End Scenario2.

(** * Facts *)

(** ** JavaScript strings and maps *)

Lemma truthy_true (s : jsstr) : truthy s = true ↔ s ≠ [].
Proof. destruct s; simpl; split; congruence. Qed.

Lemma truthy_false (s : jsstr) : truthy s = false ↔ s = [].
Proof. destruct s; simpl; split; congruence. Qed.

Lemma get_truthy_Some (m : gmap jsstr jsstr) k v :
  get_truthy m k = Some v ↔ m !! k = Some v ∧ truthy v = true.
Proof.
  unfold get_truthy. destruct (m !! k) as [w|] eqn:E.
  - destruct (truthy w) eqn:T; split.
    + by intros [= <-].
    + by intros [[= <-] _].
    + done.
    + intros [[= <-] T']. congruence.
  - split; [done | by intros [? _]].
Qed.

Lemma get_truthy_None (m : gmap jsstr jsstr) k :
  m !! k = None → get_truthy m k = None.
Proof. unfold get_truthy. by intros ->. Qed.

Lemma has_true {V} (m : gmap jsstr V) k : has m k = true ↔ is_Some (m !! k).
Proof.
  unfold has. destruct (m !! k); split; done.
Qed.

Lemma has_false {V} (m : gmap jsstr V) k : has m k = false ↔ m !! k = None.
Proof. unfold has. destruct (m !! k); split; done. Qed.

Lemma makeIdent_truthy hs : truthy (makeIdent hs) = true.
Proof.
  unfold makeIdent. apply truthy_true.
  destruct (getIP hs); simpl; done.
Qed.

Example trim_strips_both_ends :
  trim ([65279; 32; 9] ++ js "hi there" ++ [160; 12288; 10])%N = js "hi there" ∧
  trim (js "   ") = [] ∧
  trim (js "a") = js "a".
Proof. repeat split. Qed.

Lemma trimStart_no_leading_ws (s : jsstr) c s' :
  trimStart s = c :: s' → is_ws c = false.
Proof.
  induction s as [|d s IH]; simpl; [done|].
  destruct (is_ws d) eqn:E; [done|]. by intros [= <- <-].
Qed.

Lemma trim_all_ws (s : jsstr) : Forall (λ c, is_ws c = true) s → trim s = [].
Proof.
  intros H. unfold trim, trimEnd.
  assert (trimStart s = []) as ->; [|done].
  induction H as [|c s Hc _ IH]; simpl; [done|]. by rewrite Hc.
Qed.

Example makeIdent_examples :
  makeIdent (Handshake None None) = js "unknown::" ∧
  makeIdent (Handshake (Some (js "10.0.0.1")) (Some (js "curl/8.0")))
    = js "10.0.0.1::curl/8.0" ∧
  length (makeIdent (Handshake (Some []) (Some (replicate 500 65%N)))) = 169%nat.
Proof. repeat split. Qed.

(** ** The partner registry *)

Lemma unpair_paired (m : gmap jsstr jsstr) a p :
  get_truthy m a = Some p → unpair a m = delete a (delete p m).
Proof. unfold unpair. by intros ->. Qed.

Lemma unpair_unpaired (m : gmap jsstr jsstr) a :
  get_truthy m a = None → unpair a m = delete a m.
Proof. unfold unpair. by intros ->. Qed.

Lemma unpair_lookup_Some (m : gmap jsstr jsstr) (a x y : jsstr) :
  unpair a m !! x = Some y → m !! x = Some y ∧ x ≠ a.
Proof.
  unfold unpair. destruct (get_truthy m a).
  - rewrite !lookup_delete_Some. by intros (? & _ & ?).
  - rewrite lookup_delete_Some. by intros (? & ?).
Qed.

Lemma registry_ok_empty : registry_ok [] ∅.
Proof.
  split.
  - intros x y. by rewrite lookup_empty.
  - intros x. by rewrite lookup_empty.
  - intros x. by rewrite lookup_empty.
  - constructor.
Qed.

Lemma registry_ok_unpair (q : list jsstr) (m : gmap jsstr jsstr) a p :
  registry_ok q m → get_truthy m a = Some p → registry_ok q (unpair a m).
Proof.
  intros [Hs Hi Hq Hn] Hp. rewrite (unpair_paired _ _ _ Hp).
  apply get_truthy_Some in Hp as [Hap _].
  pose proof (Hs _ _ Hap) as Hpa.
  split; [| | |done].
  - intros x y. rewrite !lookup_delete_Some. intros (Hxa & Hxp & Hxy).
    pose proof (Hs _ _ Hxy) as Hyx.
    split_and!; [| |done].
    + intros <-. congruence.
    + intros <-. congruence.
  - intros x. rewrite !lookup_delete_Some. intros (_ & _ & Hx). by eapply Hi.
  - intros x Hx. rewrite !lookup_delete_None. right. right. by apply Hq.
Qed.

Lemma registry_ok_pair (q q' : list jsstr) (m : gmap jsstr jsstr) a b :
  registry_ok q m → m !! a = None → m !! b = None → a ≠ b →
  (∀ x, x ∈ q' → x ∈ q ∧ x ≠ a ∧ x ≠ b) → NoDup q' →
  registry_ok q' (pair a b m).
Proof.
  intros [Hs Hi Hq Hn] Ha Hb Hab Hsub Hn'. unfold pair.
  split; [| | |done].
  - intros x y Hxy.
    destruct (decide (x = b)) as [->|Hxb].
    { rewrite lookup_insert_eq in Hxy. injection Hxy as <-.
      rewrite lookup_insert_ne by done. by rewrite lookup_insert_eq. }
    rewrite lookup_insert_ne in Hxy by done.
    destruct (decide (x = a)) as [->|Hxa].
    { rewrite lookup_insert_eq in Hxy. injection Hxy as <-.
      by rewrite lookup_insert_eq. }
    rewrite lookup_insert_ne in Hxy by done.
    pose proof (Hs _ _ Hxy) as Hyx.
    rewrite !lookup_insert_ne; [done| |]; intros <-; congruence.
  - intros x Hx.
    destruct (decide (x = b)) as [->|Hxb].
    { rewrite lookup_insert_eq in Hx. congruence. }
    rewrite lookup_insert_ne in Hx by done.
    destruct (decide (x = a)) as [->|Hxa].
    { rewrite lookup_insert_eq in Hx. congruence. }
    rewrite lookup_insert_ne in Hx by done. by eapply Hi.
  - intros x Hx. destruct (Hsub _ Hx) as (Hxq & Hxa & Hxb).
    rewrite !lookup_insert_ne by done. by apply Hq.
Qed.

Lemma registry_ok_filter (q : list jsstr) (m : gmap jsstr jsstr) (P : jsstr → Prop)
    `{!∀ x, Decision (P x)} :
  registry_ok q m → registry_ok (filter P q) m.
Proof.
  intros [Hs Hi Hq Hn]. split; [done|done| |by apply NoDup_filter].
  intros x [_ Hx]%list_elem_of_filter. by apply Hq.
Qed.

Lemma registry_ok_push (q : list jsstr) (m : gmap jsstr jsstr) a :
  registry_ok q m → m !! a = None → a ∉ q → registry_ok (q ++ [a]) m.
Proof.
  intros [Hs Hi Hq Hn] Ha Hnq. split; [done|done| |].
  - intros x [Hx|Hx]%elem_of_app; [by apply Hq|].
    apply list_elem_of_singleton in Hx as ->. done.
  - apply NoDup_app. split_and!; [done| |apply NoDup_singleton].
    intros x Hx ->%list_elem_of_singleton. done.
Qed.

(** In a consistent registry nobody in the queue is paired, so a queue in
    which find passes over every entry is empty: the id that is appended
    becomes its only entry. *)
Lemma passed_over_all_empty (q : list jsstr) (m : gmap jsstr jsstr) (id : jsstr) :
  registry_ok q m → id ∉ q → Forall (passed_over id m) q → q = [].
Proof.
  intros Hok Hid Hall. destruct q as [|x q]; [done|]. exfalso.
  apply Forall_cons in Hall as [[->|[y Hy]] _].
  - apply Hid. by apply elem_of_cons; left.
  - rewrite (registry_queue_unpaired _ _ Hok x) in Hy; [done|].
    by apply elem_of_cons; left.
Qed.

(** ** src/unnamed/part_000: the registry *)

Module Part000Facts.
Import Part000.

Lemma find_loop_Some (self : jsstr) (m : gmap jsstr jsstr) (q : list jsstr) other rest :
  find_loop self m q = (Some other, rest) →
  ∃ skip, q = skip ++ other :: rest ∧
    Forall (λ x, truthy x = false ∨ passed_over self m x) skip ∧
    truthy other = true ∧ other ≠ self ∧ m !! other = None.
Proof.
  induction q as [|x q IH]; simpl; [done|].
  destruct (truthy x) eqn:Tx; simpl.
  - destruct (decide (x = self)) as [->|Hx].
    + intros (skip & -> & Hskip & ?)%IH. exists (self :: skip).
      split; [done|]. split; [|done]. constructor; [|done].
      right. by left.
    + destruct (has m x) eqn:Hm.
      * intros (skip & -> & Hskip & ?)%IH. exists (x :: skip).
        split; [done|]. split; [|done]. constructor; [|done].
        right. right. by apply has_true.
      * intros [= <- <-]. exists []. split; [done|].
        split; [constructor|]. by apply has_false in Hm.
  - intros (skip & -> & Hskip & ?)%IH. exists (x :: skip).
    split; [done|]. split; [|done]. constructor; [|done]. by left.
Qed.

Lemma find_loop_None (self : jsstr) (m : gmap jsstr jsstr) (q : list jsstr) rest :
  find_loop self m q = (None, rest) →
  rest = [] ∧ Forall (λ x, truthy x = false ∨ passed_over self m x) q.
Proof.
  induction q as [|x q IH]; simpl.
  - intros [= <-]. by split.
  - destruct (truthy x) eqn:Tx; simpl.
    + destruct (decide (x = self)) as [->|Hx].
      * intros [-> Hq]%IH. split; [done|]. constructor; [|done]. right. by left.
      * destruct (has m x) eqn:Hm; [|done].
        intros [-> Hq]%IH. split; [done|]. constructor; [|done].
        right. right. by apply has_true.
    + intros [-> Hq]%IH. split; [done|]. constructor; [|done]. by left.
Qed.

Lemma leave_queue id s : queue (leave id s).1 = filter (λ x, x ≠ id) (queue s).
Proof. unfold leave. by destruct (get_truthy (partners s) id). Qed.

Lemma leave_partners id s :
  partners (leave id s).1 =
    match get_truthy (partners s) id with
    | Some _ => unpair id (partners s)
    | None => partners s
    end.
Proof. unfold leave. by destruct (get_truthy (partners s) id). Qed.

Lemma leave_registry_ok id s :
  registry_ok (queue s) (partners s) →
  registry_ok (queue (leave id s).1) (partners (leave id s).1).
Proof.
  intros H. rewrite leave_queue, leave_partners.
  apply registry_ok_filter.
  destruct (get_truthy (partners s) id) eqn:E; [|done].
  by eapply registry_ok_unpair.
Qed.

Lemma disconnect_queue id s : queue (disconnect id s).1 = queue (leave id s).1.
Proof. unfold disconnect. by destruct (leave id s). Qed.

Lemma disconnect_partners id s : partners (disconnect id s).1 = partners (leave id s).1.
Proof. unfold disconnect. by destruct (leave id s). Qed.

Lemma disconnect_registry_ok id s :
  registry_ok (queue s) (partners s) →
  registry_ok (queue (disconnect id s).1) (partners (disconnect id s).1).
Proof.
  intros H. rewrite disconnect_queue, disconnect_partners.
  by apply leave_registry_ok.
Qed.

Lemma find_registry_ok id s :
  registry_ok (queue s) (partners s) →
  registry_ok (queue (find_handler id s).1) (partners (find_handler id s).1).
Proof.
  intros H. unfold find_handler.
  destruct (negb (isAgreed s id)); [done|].
  destruct (has (partners s) id) eqn:Hp; [done|].
  destruct (bool_decide (id ∈ queue s)) eqn:Hq; [done|].
  apply has_false in Hp. apply bool_decide_eq_false in Hq.
  destruct (find_loop id (partners s) (queue s)) as [[other|] rest] eqn:E; simpl.
  - apply find_loop_Some in E as (skip & Hskip & _ & _ & Hne & Hother).
    pose proof H as [Hs Hi Hqu Hn].
    rewrite Hskip in Hn. apply NoDup_app in Hn as (_ & _ & Hn).
    apply NoDup_cons in Hn as [Hnotin Hn].
    eapply (registry_ok_pair (queue s)); [exact H|done|done|done| |done].
    intros x Hx. split_and!.
    + rewrite Hskip. apply elem_of_app. right. by apply elem_of_cons; right.
    + intros ->. apply Hq. rewrite Hskip. apply elem_of_app. right.
      by apply elem_of_cons; right.
    + by intros ->.
  - apply find_loop_None in E as [-> _]. simpl.
    apply (registry_ok_push []); [|done|by apply not_elem_of_nil].
    destruct H. split; [done|done| |constructor].
    by intros x ?%elem_of_nil.
Qed.

Lemma report_registry_ok id now s :
  registry_ok (queue s) (partners s) →
  registry_ok (queue (report id now s).1) (partners (report id now s).1).
Proof.
  intros H. unfold report.
  destruct (negb (isAgreed s id)); [done|].
  destruct (get_truthy (partners s) id) as [p|] eqn:Hp; [|done].
  destruct (get_truthy (identBySocket s) p) as [t|]; [|done].
  destruct (get_truthy (identBySocket s) id) as [r|]; [|done].
  pose proof (registry_ok_unpair _ _ _ _ H Hp) as H'.
  case_bool_decide; [|done].
  case_match; [|done].
  match goal with |- context [disconnect p ?s4] => pose proof (disconnect_registry_ok p s4 H') as Hd;
    destruct (disconnect p s4) as [s5 o5] end.
  done.
Qed.

(** Every handler keeps the registry and the queue consistent. *)
Lemma step_registry_ok s e :
  registry_ok (queue s) (partners s) →
  registry_ok (queue (step s e).1) (partners (step s e).1).
Proof.
  intros H. destruct e; simpl; try done;
    try (destruct (has (sockets s) id); [|done]).
  - unfold connection. repeat case_match; done.
  - done.
  - by apply find_registry_ok.
  - unfold stop. destruct (negb (isAgreed s id)); [done|].
    pose proof (leave_registry_ok id s H). by destruct (leave id s).
  - unfold message_handler. repeat case_match; done.
  - by apply report_registry_ok.
  - unfold media_offer. destruct k; repeat case_match; done.
  - unfold media_accept. destruct k; repeat case_match; done.
  - unfold media_decline. destruct k; repeat case_match; done.
  - by apply disconnect_registry_ok.
Qed.

Lemma reachable_registry_ok s :
  reachable s → registry_ok (queue s) (partners s).
Proof.
  induction 1 as [|s e _ IH _]; [apply registry_ok_empty|].
  by apply step_registry_ok.
Qed.

(** ** src/unnamed/part_000: what holds of every reachable state *)

Lemma isAgreed_live s x : isAgreed s x = true → is_Some (sockets s !! x).
Proof. unfold isAgreed. destruct (sockets s !! x); [by eauto|done]. Qed.

Lemma isAgreed_lookup s x : isAgreed s x = true ↔ sockets s !! x = Some true.
Proof.
  unfold isAgreed. destruct (sockets s !! x) as [[]|]; split; done.
Qed.

Lemma isAgreed_has s x : isAgreed s x = true → has (sockets s) x = true.
Proof. intros H. by apply has_true, isAgreed_live. Qed.

Lemma state_ok_ext s s' :
  queue s' = queue s → partners s' = partners s → sockets s' = sockets s →
  identBySocket s' = identBySocket s → reportVotes s' = reportVotes s →
  tempBans s' = tempBans s →
  state_ok s → state_ok s'.
Proof.
  destruct s, s'. simpl. intros -> -> -> -> -> -> [H1 H2 H3 H4 H5 H6 H7].
  split; done.
Qed.

Lemma state_ok_init : state_ok init.
Proof.
  split; simpl.
  - apply registry_ok_empty.
  - intros x. rewrite lookup_empty. by intros [? ?].
  - by intros x ?%elem_of_nil.
  - intros x y. by rewrite lookup_empty.
  - intros x. rewrite lookup_empty. by intros [? ?].
  - intros t V. by rewrite lookup_empty.
  - intros i u. by rewrite lookup_empty.
Qed.

Lemma state_ok_partner_truthy s x y :
  state_ok s → partners s !! x = Some y → truthy x = true ∧ truthy y = true.
Proof.
  intros Hok Hxy. split.
  - eapply ok_socket_ids, isAgreed_live, ok_partners_agreed; done.
  - apply (registry_sym _ _ (ok_registry _ Hok)) in Hxy.
    eapply ok_socket_ids, isAgreed_live, ok_partners_agreed; done.
Qed.

Lemma state_ok_get_partner s x :
  state_ok s → get_truthy (partners s) x = partners s !! x.
Proof.
  intros Hok. unfold get_truthy.
  destruct (partners s !! x) as [y|] eqn:E; [|done].
  destruct (state_ok_partner_truthy _ _ _ Hok E) as [_ ->]. done.
Qed.

Lemma state_ok_get_ident s x :
  state_ok s → is_Some (sockets s !! x) →
  ∃ i, get_truthy (identBySocket s) x = Some i ∧ identBySocket s !! x = Some i.
Proof.
  intros Hok Hx. destruct (ok_idents _ Hok _ Hx) as (i & Hi & Ti).
  exists i. split; [|done]. by apply get_truthy_Some.
Qed.

Lemma unpair_lookup_self (m : gmap jsstr jsstr) a : unpair a m !! a = None.
Proof. unfold unpair. apply lookup_delete_eq. Qed.

Lemma leave_rest id s :
  sockets (leave id s).1 = sockets s ∧
  identBySocket (leave id s).1 = identBySocket s ∧
  reportVotes (leave id s).1 = reportVotes s ∧
  tempBans (leave id s).1 = tempBans s ∧
  pendingPhotos (leave id s).1 = pendingPhotos s ∧
  pendingVideos (leave id s).1 = pendingVideos s.
Proof. unfold leave. by destruct (get_truthy (partners s) id). Qed.

Lemma leave_partners_sub id s x y :
  partners (leave id s).1 !! x = Some y → partners s !! x = Some y.
Proof.
  rewrite leave_partners. destruct (get_truthy (partners s) id); [|done].
  by intros [? _]%unpair_lookup_Some.
Qed.

Lemma leave_not_queued id s : id ∉ queue (leave id s).1.
Proof. rewrite leave_queue. intros [? _]%list_elem_of_filter. done. Qed.

Lemma leave_not_paired id s :
  state_ok s → partners (leave id s).1 !! id = None.
Proof.
  intros Hok. rewrite leave_partners, (state_ok_get_partner _ _ Hok).
  destruct (partners s !! id) eqn:E; [|done]. apply unpair_lookup_self.
Qed.

Lemma isAgreed_eq s s' x : sockets s' = sockets s → isAgreed s' x = isAgreed s x.
Proof. unfold isAgreed. by intros ->. Qed.

Lemma leave_state_ok id s : state_ok s → state_ok (leave id s).1.
Proof.
  intros Hok. pose proof (leave_rest id s) as (Hso & Hid & Hv & Hb & _ & _).
  destruct Hok as [H1 H2 H3 H4 H5 H6 H7]. split.
  - by apply leave_registry_ok.
  - intros x. rewrite Hso. apply H2.
  - intros x. rewrite leave_queue, (isAgreed_eq _ _ _ Hso).
    intros [_ Hx]%list_elem_of_filter. by apply H3.
  - intros x y Hxy%leave_partners_sub. rewrite (isAgreed_eq _ _ _ Hso). by eapply H4.
  - intros x. rewrite Hso, Hid. apply H5.
  - intros t V. rewrite Hv. apply H6.
  - intros i u. rewrite Hb. apply H7.
Qed.

Lemma disconnect_unfold id s :
  disconnect id s =
    (let s1 := (leave id s).1 in
     {| queue := queue s1; partners := partners s1;
        identBySocket := delete id (identBySocket s1);
        reportVotes := reportVotes s1; tempBans := tempBans s1;
        pendingPhotos := delete id (pendingPhotos s1);
        pendingVideos := delete id (pendingVideos s1);
        sockets := delete id (sockets s1) |}, (leave id s).2).
Proof. unfold disconnect. by destruct (leave id s). Qed.

Lemma disconnect_state_ok id s : state_ok s → state_ok (disconnect id s).1.
Proof.
  intros Hok. pose proof (leave_not_paired id s Hok) as Hnp.
  pose proof (leave_not_queued id s) as Hnq.
  apply (leave_state_ok id) in Hok. rewrite disconnect_unfold. simpl.
  set (s1 := (leave id s).1) in *.
  destruct Hok as [H1 H2 H3 H4 H5 H6 H7]. split; simpl; try done.
  - intros x [v [_ Hx]%lookup_delete_Some]. apply H2. by eauto.
  - intros x Hx. assert (x ≠ id) as Hne by (by intros ->).
    apply isAgreed_lookup. simpl. rewrite lookup_delete_ne by done.
    by apply isAgreed_lookup, H3.
  - intros x y Hxy. assert (x ≠ id) as Hne by (intros ->; congruence).
    apply isAgreed_lookup. simpl. rewrite lookup_delete_ne by done.
    eapply isAgreed_lookup, H4. done.
  - intros x [v [Hne Hx]%lookup_delete_Some].
    rewrite lookup_delete_ne by done. apply H5. by eauto.
Qed.

Lemma state_ok_set_reportVotes (m : gmap jsstr (gset jsstr)) s :
  state_ok s →
  (∀ t V, m !! t = Some V → (size V < REPORT_THRESHOLD)%nat) →
  state_ok (set_reportVotes m s).
Proof. intros [H1 H2 H3 H4 H5 H6 H7] Hm. split; done. Qed.

Lemma state_ok_set_tempBans (m : gmap jsstr Z) s :
  state_ok s → (∀ i u, m !! i = Some u → 0 < u) → state_ok (set_tempBans m s).
Proof. intros [H1 H2 H3 H4 H5 H6 H7] Hm. split; done. Qed.

Lemma state_ok_unpair id p s :
  state_ok s → get_truthy (partners s) id = Some p →
  state_ok (set_partners (unpair id (partners s)) s).
Proof.
  intros [H1 H2 H3 H4 H5 H6 H7] Hp. split; simpl; try done.
  - by eapply registry_ok_unpair.
  - intros x y [Hxy _]%unpair_lookup_Some. by eapply H4.
Qed.

Lemma isTemporarilyBanned_sub (now : Z) (ident : jsstr) (bans : gmap jsstr Z) i u :
  (isTemporarilyBanned now ident bans).2 !! i = Some u → bans !! i = Some u.
Proof.
  unfold isTemporarilyBanned. repeat case_match; simpl; try done.
  by intros [_ ?]%lookup_delete_Some.
Qed.

Lemma connection_state_ok id hs now s :
  state_ok s → truthy id = true → sockets s !! id = None →
  state_ok (connection id hs now s).1.
Proof.
  intros [H1 H2 H3 H4 H5 H6 H7] Tid Hfresh. unfold connection. simpl.
  pose proof (isTemporarilyBanned_sub now (makeIdent hs) (tempBans s)) as Hsub.
  destruct (isTemporarilyBanned now (makeIdent hs) (tempBans s)) as [b bans].
  simpl in Hsub.
  assert (∀ x, is_Some (sockets s !! x) → x ≠ id) as Hne.
  { intros x [v Hx] ->. congruence. }
  destruct b; split; simpl; try done.
  - intros x [v [_ Hx]%lookup_delete_Some]. apply H2. by eauto.
  - intros x Hx. pose proof (H3 _ Hx) as Hag.
    apply isAgreed_lookup. simpl. rewrite lookup_delete_ne.
    + by apply isAgreed_lookup.
    + intros ->. apply isAgreed_live in Hag. by eapply Hne.
  - intros x y Hxy. pose proof (H4 _ _ Hxy) as Hag.
    apply isAgreed_lookup. simpl. rewrite lookup_delete_ne.
    + by apply isAgreed_lookup.
    + intros ->. apply isAgreed_live in Hag. by eapply Hne.
  - intros x [v [Hx' Hx]%lookup_delete_Some].
    rewrite lookup_insert_ne by done. apply H5. by eauto.
  - intros i u Hi. eapply H7, Hsub, Hi.
  - intros x [v Hx]. destruct (decide (x = id)) as [->|Hx']; [done|].
    rewrite lookup_insert_ne in Hx by done. apply H2. by eauto.
  - intros x Hx. pose proof (H3 _ Hx) as Hag.
    apply isAgreed_lookup. simpl. rewrite lookup_insert_ne.
    + by apply isAgreed_lookup.
    + intros ->. apply isAgreed_live in Hag. by eapply Hne.
  - intros x y Hxy. pose proof (H4 _ _ Hxy) as Hag.
    apply isAgreed_lookup. simpl. rewrite lookup_insert_ne.
    + by apply isAgreed_lookup.
    + intros ->. apply isAgreed_live in Hag. by eapply Hne.
  - intros x [v Hx]. destruct (decide (x = id)) as [->|Hx'].
    + rewrite lookup_insert_eq. eexists. split; [done|]. apply makeIdent_truthy.
    + rewrite lookup_insert_ne in Hx by done.
      rewrite lookup_insert_ne by done. apply H5. by eauto.
  - intros i u Hi. eapply H7, Hsub, Hi.
Qed.

Lemma agree_state_ok id s :
  state_ok s → is_Some (sockets s !! id) → state_ok (agree id s).1.
Proof.
  intros [H1 H2 H3 H4 H5 H6 H7] Hlive. unfold agree.
  assert (∀ x, isAgreed s x = true →
               isAgreed (set_sockets (<[id:=true]> (sockets s)) s) x = true) as Hmono.
  { intros x Hx. apply isAgreed_lookup. simpl.
    destruct (decide (x = id)) as [->|Hne]; [by rewrite lookup_insert_eq|].
    rewrite lookup_insert_ne by done. by apply isAgreed_lookup. }
  split; simpl; try done.
  - intros x [v Hx]. destruct (decide (x = id)) as [->|Hne]; [by apply H2|].
    rewrite lookup_insert_ne in Hx by done. apply H2. by eauto.
  - intros x Hx. by apply Hmono, H3.
  - intros x y Hxy. eapply Hmono, H4. done.
  - intros x [v Hx]. destruct (decide (x = id)) as [->|Hne]; [by apply H5|].
    rewrite lookup_insert_ne in Hx by done. apply H5. by eauto.
Qed.

Lemma find_state_ok id s : state_ok s → state_ok (find_handler id s).1.
Proof.
  intros Hok. pose proof (find_registry_ok id s (ok_registry _ Hok)) as Hreg.
  revert Hreg. unfold find_handler.
  destruct (isAgreed s id) eqn:Hag; simpl; [|done].
  destruct (has (partners s) id) eqn:Hp; [done|].
  destruct (bool_decide (id ∈ queue s)) eqn:Hq; [done|].
  destruct Hok as [H1 H2 H3 H4 H5 H6 H7].
  destruct (find_loop id (partners s) (queue s)) as [[other|] rest] eqn:E;
    simpl; intros Hreg.
  - apply find_loop_Some in E as (skip & Hskip & _ & _ & Hne & Hother).
    assert (∀ x, x ∈ other :: rest → x ∈ queue s) as Hsub.
    { intros x Hx. rewrite Hskip. apply elem_of_app. by right. }
    split; simpl; try done.
    + intros x Hx. apply H3, Hsub. by apply elem_of_cons; right.
    + intros x y. unfold pair.
      destruct (decide (x = other)) as [->|Hxo].
      { intros _. apply H3, Hsub. by apply elem_of_cons; left. }
      rewrite lookup_insert_ne by done.
      destruct (decide (x = id)) as [->|Hxi]; [done|].
      rewrite lookup_insert_ne by done. apply H4.
  - apply find_loop_None in E as [-> _].
    split; simpl; try done.
    intros x ->%list_elem_of_singleton. done.
Qed.

Lemma stop_state_ok id s : state_ok s → state_ok (stop id s).1.
Proof.
  intros Hok. unfold stop. destruct (negb (isAgreed s id)); [done|].
  pose proof (leave_state_ok id s Hok). by destruct (leave id s).
Qed.

Lemma message_state_ok id msg s : state_ok s → state_ok (message_handler id msg s).1.
Proof. intros Hok. unfold message_handler. repeat case_match; done. Qed.

Lemma state_ok_set_pending (k : media) (m : gmap jsstr offer) s :
  state_ok s → state_ok (set_pending k m s).
Proof. intros Hok. destruct k; by eapply state_ok_ext; [..|exact Hok]. Qed.

Lemma media_offer_state_ok k id v s : state_ok s → state_ok (media_offer k id v s).1.
Proof.
  intros Hok. unfold media_offer.
  repeat case_match; try done; by apply state_ok_set_pending.
Qed.

Lemma media_accept_state_ok k id s : state_ok s → state_ok (media_accept k id s).1.
Proof.
  intros Hok. unfold media_accept.
  repeat case_match; try done; by apply state_ok_set_pending.
Qed.

Lemma media_decline_state_ok k id s : state_ok s → state_ok (media_decline k id s).1.
Proof.
  intros Hok. unfold media_decline.
  repeat case_match; try done; by apply state_ok_set_pending.
Qed.

Lemma report_state_ok id now s :
  state_ok s → 0 < now → state_ok (report id now s).1.
Proof.
  intros Hok Hnow. unfold report.
  destruct (negb (isAgreed s id)); [done|].
  destruct (get_truthy (partners s) id) as [p|] eqn:Hp; [|done].
  destruct (get_truthy (identBySocket s) p) as [t|]; [|done].
  destruct (get_truthy (identBySocket s) id) as [r|]; [|done].
  set (voters := default ∅ (reportVotes s !! t) ∪ {[r]}).
  pose proof (state_ok_unpair id p s Hok Hp) as Hok1.
  case_bool_decide as Hsz.
  - match goal with
    | |- context [disconnect p ?s4] => assert (state_ok s4) as Hok4
    end.
    { eapply (state_ok_ext
        (set_tempBans (<[t := now + BAN_MS]> (tempBans s))
           (set_reportVotes (delete t (reportVotes s))
              (set_partners (unpair id (partners s)) s)))); try done.
      - simpl. by rewrite delete_insert_eq.
      - apply state_ok_set_tempBans.
        + apply state_ok_set_reportVotes; [done|].
          intros t' V [_ HV]%lookup_delete_Some. by eapply ok_votes.
        + intros i u. destruct (decide (i = t)) as [->|Hne].
          * rewrite lookup_insert_eq. intros [= <-]. unfold BAN_MS. lia.
          * rewrite lookup_insert_ne by done. by eapply ok_bans. }
    case_match; [|done].
    match goal with
    | |- context [disconnect p ?s4] =>
        pose proof (disconnect_state_ok p s4 Hok4) as Hd;
        destruct (disconnect p s4) as [s5 o5]
    end.
    done.
  - eapply (state_ok_ext
      (set_reportVotes (<[t := voters]> (reportVotes s))
         (set_partners (unpair id (partners s)) s))); try done.
    apply state_ok_set_reportVotes; [done|].
    intros t' V. destruct (decide (t' = t)) as [->|Hne].
    + rewrite lookup_insert_eq. intros [= <-]. lia.
    + rewrite lookup_insert_ne by done. by eapply ok_votes.
Qed.

(** Every event the transport can deliver keeps [state_ok]. *)
Lemma step_state_ok s e :
  state_ok s → event_ok s e = true → state_ok (step s e).1.
Proof.
  intros Hok He.
  destruct e as [id hs now|id|id|id|id|id msg|id now|k id v|k id|k id|id];
    simpl in *; try done;
    try (destruct (has (sockets s) id) eqn:Hlive; [|done]).
  - apply andb_prop in He as [[Tid Hfresh]%andb_prop _].
    apply negb_true_iff, has_false in Hfresh. by apply connection_state_ok.
  - apply agree_state_ok; [done|]. by apply has_true.
  - by apply find_state_ok.
  - by apply stop_state_ok.
  - by apply message_state_ok.
  - apply report_state_ok; [done|]. by apply bool_decide_eq_true in He.
  - by apply media_offer_state_ok.
  - by apply media_accept_state_ok.
  - by apply media_decline_state_ok.
  - by apply disconnect_state_ok.
Qed.

Lemma reachable_state_ok s : reachable s → state_ok s.
Proof.
  induction 1 as [|s e _ IH He]; [apply state_ok_init|].
  by apply step_state_ok.
Qed.

(** A list of deliverable events leads to a reachable state. *)
Lemma reachable_run s es :
  reachable s → events_ok s es = true → reachable (run s es).1.
Proof.
  revert s. induction es as [|e es IH]; intros s Hs Hes; simpl in *; [done|].
  apply andb_prop in Hes as [He Hes].
  pose proof (reachable_step s e Hs He) as Hs1.
  specialize (IH _ Hs1 Hes).
  destruct (step s e) as [s1 o1]. simpl in *.
  by destruct (run s1 es) as [s2 o2].
Qed.

(** ** src/unnamed/part_000: find and message *)

Lemma emitTo_truthy (id : jsstr) ev arg :
  truthy id = true → emitTo id ev arg = [RoomEmit id ev arg].
Proof. unfold emitTo. by intros ->. Qed.

Lemma find_handler_noop id s :
  isAgreed s id = true →
  is_Some (partners s !! id) ∨ id ∈ queue s →
  find_handler id s = (s, []).
Proof.
  intros Hag Hin. unfold find_handler. rewrite Hag. simpl.
  destruct (has (partners s) id) eqn:Hp; [done|].
  apply has_false in Hp. destruct Hin as [[? Hin]|Hin]; [congruence|].
  by rewrite bool_decide_eq_true_2.
Qed.

Lemma find_handler_spec id s :
  isAgreed s id = true →
  Forall (λ x, truthy x = true) (queue s) →
  partners s !! id = None → id ∉ queue s →
  ∃ q' m',
    (find_handler id s).1 = set_partners m' (set_queue q' s) ∧
    find_outcome id (queue s) (partners s) q' m' (find_handler id s).2 ∧
    in_exactly_one id q' m'.
Proof.
  intros Hag Hq Hp Hnq. unfold find_handler. rewrite Hag. simpl.
  rewrite (proj2 (has_false _ _) Hp), bool_decide_eq_false_2 by done.
  assert (∀ l : list jsstr, (∀ x, x ∈ l → x ∈ queue s) →
    Forall (λ x, truthy x = false ∨ passed_over id (partners s) x) l →
    Forall (passed_over id (partners s)) l) as Hclean.
  { intros l Hl Hf. apply Forall_forall. intros x Hx.
    rewrite Forall_forall in Hf. destruct (Hf _ Hx) as [Hfalse|]; [|done].
    rewrite Forall_forall in Hq. rewrite Hq in Hfalse; [done|].
    by apply Hl. }
  destruct (find_loop id (partners s) (queue s)) as [[other|] rest] eqn:E; simpl.
  - apply find_loop_Some in E as (skip & Hskip & Hf & Tother & Hne & Hother).
    exists rest, (pair id other (partners s)). split; [done|]. split.
    + left. exists skip, other, rest. split_and!; try done.
      * apply Hclean; [|done]. intros x Hx. rewrite Hskip.
        apply elem_of_app. by left.
      * intros [?|[? ?]]; congruence.
      * by rewrite emitTo_truthy.
    + left. split.
      * unfold pair. rewrite lookup_insert_ne by done.
        rewrite lookup_insert_eq. by eauto.
      * intros Hin. apply Hnq. rewrite Hskip. apply elem_of_app. right.
        by apply elem_of_cons; right.
  - apply find_loop_None in E as [-> Hf].
    exists [id], (partners s). split; [done|]. split.
    + right. split_and!; try done. by apply Hclean.
    + right. split; [done|]. by apply list_elem_of_singleton.
Qed.

Lemma message_handler_spec id msg s :
  state_ok s → isAgreed s id = true →
  message_handler id msg s = (s, relayed (partners s) id msg).
Proof.
  intros Hok Hag. unfold message_handler, relayed. rewrite Hag. simpl.
  destruct msg as [m|]; [|done].
  destruct (decide (trim m = [])) as [->|Hne]; [done|].
  apply truthy_true in Hne. rewrite Hne. simpl.
  rewrite (state_ok_get_partner _ _ Hok).
  destruct (partners s !! id) as [p|] eqn:Hp; [|done].
  destruct (state_ok_partner_truthy _ _ _ Hok Hp) as [_ Tp].
  by rewrite emitTo_truthy.
Qed.

(** ** src/unnamed/part_000: stop and disconnect *)

Lemma filter_ne_idem (id : jsstr) (q : list jsstr) :
  filter (λ x, x ≠ id) (filter (λ x, x ≠ id) q) = filter (λ x, x ≠ id) q.
Proof.
  induction q as [|x q IH]; [done|].
  rewrite (filter_cons _ x q). destruct (decide (x ≠ id)) as [Hx|Hx]; [|done].
  rewrite (filter_cons _ x). destruct (decide (x ≠ id)); [|done]. by rewrite IH.
Qed.

Lemma leave_effects id s :
  state_ok s →
  (leave id s).2 =
    match partners s !! id with
    | Some p => [RoomEmit p partner_left None]
    | None => []
    end.
Proof.
  intros Hok. unfold leave. rewrite (state_ok_get_partner _ _ Hok).
  destruct (partners s !! id) as [p|] eqn:Hp; [|done].
  destruct (state_ok_partner_truthy _ _ _ Hok Hp) as [_ Tp].
  by rewrite emitTo_truthy.
Qed.

Lemma leave_partner_gone id p s :
  state_ok s → partners s !! id = Some p → partners (leave id s).1 !! p = None.
Proof.
  intros Hok Hp. rewrite leave_partners.
  assert (get_truthy (partners s) id = Some p) as Hg
    by (by rewrite (state_ok_get_partner _ _ Hok)).
  rewrite Hg, (unpair_paired _ _ _ Hg).
  destruct (decide (p = id)) as [->|Hne]; [apply lookup_delete_eq|].
  rewrite lookup_delete_ne by done. apply lookup_delete_eq.
Qed.

Lemma leave_idempotent id s :
  state_ok s → leave id (leave id s).1 = ((leave id s).1, []).
Proof.
  intros Hok. pose proof (leave_not_paired id s Hok) as Hnp.
  pose proof (leave_queue id s) as Hq.
  destruct (leave id s) as [s1 o1]. simpl in *.
  unfold leave. rewrite (get_truthy_None _ _ Hnp).
  rewrite Hq, filter_ne_idem, <- Hq. by destruct s1.
Qed.

Lemma stop_unfold id s :
  isAgreed s id = true →
  stop id s = ((leave id s).1, (leave id s).2 ++ [SocketEmit id stopped None]).
Proof. intros Hag. unfold stop. rewrite Hag. simpl. by destruct (leave id s). Qed.

Lemma stop_spec id s :
  state_ok s → isAgreed s id = true →
  (id ∉ queue (stop id s).1) ∧
  partners (stop id s).1 !! id = None ∧
  (∀ p, partners s !! id = Some p → partners (stop id s).1 !! p = None) ∧
  ((stop id s).2 =
    match partners s !! id with
    | Some p => [RoomEmit p partner_left None; SocketEmit id stopped None]
    | None => [SocketEmit id stopped None]
    end) ∧
  pendingPhotos (stop id s).1 = pendingPhotos s ∧
  pendingVideos (stop id s).1 = pendingVideos s ∧
  stop id (stop id s).1 = ((stop id s).1, [SocketEmit id stopped None]).
Proof.
  intros Hok Hag. rewrite (stop_unfold id s Hag). simpl.
  pose proof (leave_rest id s) as (Hso & _ & _ & _ & H5 & H6).
  split_and!; try done.
  - apply leave_not_queued.
  - by apply leave_not_paired.
  - intros p. by apply leave_partner_gone.
  - rewrite (leave_effects id s Hok). by destruct (partners s !! id).
  - rewrite stop_unfold by (by rewrite (isAgreed_eq _ _ _ Hso)).
    by rewrite (leave_idempotent id s Hok).
Qed.

Lemma disconnect_spec id s :
  state_ok s →
  (id ∉ queue (disconnect id s).1) ∧
  partners (disconnect id s).1 !! id = None ∧
  (∀ p, partners s !! id = Some p → partners (disconnect id s).1 !! p = None) ∧
  ((disconnect id s).2 =
    match partners s !! id with
    | Some p => [RoomEmit p partner_left None]
    | None => []
    end) ∧
  pendingPhotos (disconnect id s).1 !! id = None ∧
  pendingVideos (disconnect id s).1 !! id = None ∧
  identBySocket (disconnect id s).1 !! id = None ∧
  sockets (disconnect id s).1 !! id = None ∧
  disconnect id (disconnect id s).1 = ((disconnect id s).1, []).
Proof.
  intros Hok. rewrite (disconnect_unfold id s).
  pose proof (leave_not_queued id s) as H1.
  pose proof (leave_not_paired id s Hok) as H2.
  pose proof (λ p, leave_partner_gone id p s Hok) as H3.
  pose proof (leave_effects id s Hok) as H4.
  assert (filter (λ x, x ≠ id) (queue (leave id s).1) = queue (leave id s).1) as H5.
  { by rewrite leave_queue, filter_ne_idem. }
  set (s1 := (leave id s).1) in *. simpl.
  split_and!; try done; try apply lookup_delete_eq.
  rewrite disconnect_unfold. unfold leave. simpl.
  rewrite (get_truthy_None _ _ H2). simpl.
  by rewrite !delete_delete_eq, H5.
Qed.

(** ** src/unnamed/part_000: pending media offers *)

Lemma pending_set_pending (k : media) (m : gmap jsstr offer) s :
  pending k (set_pending k m s) = m.
Proof. by destruct k. Qed.

Lemma pending_set_pending_ne (k k' : media) (m : gmap jsstr offer) s :
  k ≠ k' → pending k (set_pending k' m s) = pending k s.
Proof. by destruct k, k'. Qed.

Lemma set_pending_rest (k : media) (m : gmap jsstr offer) s :
  queue (set_pending k m s) = queue s ∧
  partners (set_pending k m s) = partners s ∧
  sockets (set_pending k m s) = sockets s ∧
  identBySocket (set_pending k m s) = identBySocket s ∧
  reportVotes (set_pending k m s) = reportVotes s ∧
  tempBans (set_pending k m s) = tempBans s.
Proof. by destruct k. Qed.

Lemma leave_pending k id s : pending k (leave id s).1 = pending k s.
Proof.
  pose proof (leave_rest id s) as (_ & _ & _ & _ & H1 & H2). by destruct k.
Qed.

Lemma disconnect_pending k id s :
  pending k (disconnect id s).1 = delete id (pending k s).
Proof.
  rewrite disconnect_unfold.
  pose proof (leave_rest id s) as (_ & _ & _ & _ & H1 & H2).
  destruct k; simpl in *; congruence.
Qed.

Lemma disconnect_sockets id s : sockets (disconnect id s).1 = delete id (sockets s).
Proof.
  rewrite disconnect_unfold. simpl.
  by pose proof (leave_rest id s) as (-> & _).
Qed.

Lemma media_offer_spec k a r d s :
  state_ok s → isAgreed s a = true → partners s !! a = Some r →
  startsWith (media_prefix k) d = true →
  media_offer k a (VStr d) s =
    (set_pending k (<[r := Offer a d]> (pending k s)) s,
     [RoomEmit r (media_request k) None; SocketEmit a (media_sent k) None]).
Proof.
  intros Hok Hag Hp Hd. unfold media_offer. rewrite Hag. simpl.
  rewrite (state_ok_get_partner _ _ Hok), Hp, Hd. simpl.
  destruct (state_ok_partner_truthy _ _ _ Hok Hp) as [_ Tr].
  by rewrite emitTo_truthy.
Qed.

Lemma media_accept_spec k r o s :
  isAgreed s r = true → pending k s !! r = Some o →
  media_accept k r s =
    (set_pending k (delete r (pending k s)) s,
     SocketEmit r (media_deliver k) (Some (DDataUrl (dataUrl o)))
       :: emitTo (fromSocketId o) message (Some (DStr (accepted_text k)))).
Proof. intros Hag Ho. unfold media_accept. by rewrite Hag, Ho. Qed.

Lemma media_decline_spec k r o s :
  isAgreed s r = true → pending k s !! r = Some o →
  media_decline k r s =
    (set_pending k (delete r (pending k s)) s,
     emitTo (fromSocketId o) message (Some (DStr (declined_text k)))).
Proof. intros Hag Ho. unfold media_decline. by rewrite Hag, Ho. Qed.

(** What a handler can do to the offer pending for [r]: nothing, replace
    it, or delete it. *)
Lemma media_offer_pending k k' id v r s :
  pending k (media_offer k' id v s).1 !! r = pending k s !! r ∨
  is_Some (pending k (media_offer k' id v s).1 !! r).
Proof.
  unfold media_offer. repeat case_match; simpl; try (by left).
  destruct (decide (k = k')) as [->|Hk].
  - rewrite pending_set_pending.
    match goal with |- context [<[?j := _]> _] =>
      destruct (decide (r = j)) as [->|Hr] end.
    + right. rewrite lookup_insert_eq. by eauto.
    + left. by rewrite lookup_insert_ne.
  - left. by rewrite pending_set_pending_ne.
Qed.

Lemma media_accept_pending k k' id r s :
  (k, r) ≠ (k', id) →
  pending k (media_accept k' id s).1 !! r = pending k s !! r.
Proof.
  intros Hne. unfold media_accept. repeat case_match; simpl; try done.
  destruct (decide (k = k')) as [->|Hk].
  - rewrite pending_set_pending, lookup_delete_ne; [done|]. congruence.
  - by rewrite pending_set_pending_ne.
Qed.

Lemma media_decline_pending k k' id r s :
  (k, r) ≠ (k', id) →
  pending k (media_decline k' id s).1 !! r = pending k s !! r.
Proof.
  intros Hne. unfold media_decline. repeat case_match; simpl; try done.
  destruct (decide (k = k')) as [->|Hk].
  - rewrite pending_set_pending, lookup_delete_ne; [done|]. congruence.
  - by rewrite pending_set_pending_ne.
Qed.

Lemma report_pending k id now r s :
  pending k (report id now s).1 !! r = pending k s !! r ∨
  (is_Some (sockets s !! r) ∧ sockets (report id now s).1 !! r = None).
Proof.
  unfold report.
  destruct (negb (isAgreed s id)); [by left|].
  destruct (get_truthy (partners s) id) as [p|]; [|by left].
  destruct (get_truthy (identBySocket s) p) as [t|]; [|by left].
  destruct (get_truthy (identBySocket s) id) as [i|]; [|by left].
  case_bool_decide; [|left; by destruct k].
  destruct (has _ p) eqn:Hlive; [|left; by destruct k].
  match goal with
  | |- context [disconnect p ?s4] =>
      pose proof (disconnect_pending k p s4) as Hpe;
      pose proof (disconnect_sockets p s4) as Hso;
      destruct (disconnect p s4) as [s5 o5]
  end.
  simpl in *. rewrite Hpe, Hso.
  destruct (decide (r = p)) as [->|Hne].
  - right. split; [by apply has_true in Hlive|apply lookup_delete_eq].
  - left. rewrite lookup_delete_ne by done. by destruct k.
Qed.

Lemma pending_removed_by s e k r o :
  pending k s !! r = Some o →
  pending k (step s e).1 !! r = None →
  e = MediaAccept k r ∨ e = MediaDecline k r ∨
  (is_Some (sockets s !! r) ∧ sockets (step s e).1 !! r = None).
Proof.
  intros Ho.
  destruct e as [id hs now|id|id|id|id|id msg|id now|k' id v|k' id|k' id|id];
    simpl; try (destruct (has (sockets s) id) eqn:Hlive; [|simpl; congruence]).
  - unfold connection. repeat case_match; destruct k; simpl in *; congruence.
  - unfold agree. destruct k; simpl in *; congruence.
  - unfold find_handler. repeat case_match; destruct k; simpl in *; congruence.
  - congruence.
  - unfold stop. destruct (negb (isAgreed s id)); [simpl; congruence|].
    pose proof (leave_pending k id s). destruct (leave id s). simpl in *. congruence.
  - unfold message_handler. repeat case_match; simpl; congruence.
  - destruct (report_pending k id now r s) as [->|?]; [congruence|]. by right; right.
  - destruct (media_offer_pending k k' id v r s) as [->|[? ->]]; congruence.
  - destruct (decide ((k, r) = (k', id))) as [[= <- <-]|Hne]; [by left|].
    rewrite media_accept_pending by done. congruence.
  - destruct (decide ((k, r) = (k', id))) as [[= <- <-]|Hne]; [by right; left|].
    rewrite media_decline_pending by done. congruence.
  - rewrite disconnect_pending, disconnect_sockets.
    destruct (decide (r = id)) as [->|Hne].
    + intros _. right; right. split; [by apply has_true|apply lookup_delete_eq].
    + rewrite lookup_delete_ne by done. congruence.
Qed.

(** ** src/unnamed/part_000: reports and bans *)

Lemma unpair_both_gone (m : gmap jsstr jsstr) id p :
  get_truthy m id = Some p → unpair id m !! id = None ∧ unpair id m !! p = None.
Proof.
  intros Hg. rewrite (unpair_paired _ _ _ Hg). split; [apply lookup_delete_eq|].
  destruct (decide (p = id)) as [->|Hne]; [apply lookup_delete_eq|].
  rewrite lookup_delete_ne by done. apply lookup_delete_eq.
Qed.

(** The report handler for a consenting, paired reporter: the pairing is
    torn down in every case; the reporter's identity joins the target's set
    of voters; below the threshold the set is stored and no ban is set, and
    at the threshold the set is cleared, the ban expires a day later and the
    target's socket is closed. *)
Lemma report_spec id now p s :
  state_ok s → isAgreed s id = true → partners s !! id = Some p →
  ∃ t r,
    identBySocket s !! p = Some t ∧ identBySocket s !! id = Some r ∧
    partners (report id now s).1 !! id = None ∧
    partners (report id now s).1 !! p = None ∧
    let voters := default ∅ (reportVotes s !! t) ∪ {[r]} in
    if decide (size voters < REPORT_THRESHOLD)%nat then
      reportVotes (report id now s).1 = <[t := voters]> (reportVotes s) ∧
      tempBans (report id now s).1 = tempBans s ∧
      (report id now s).2 =
        [SocketEmit id report_received None; RoomEmit p partner_left None;
         SocketEmit id partner_left None]
    else
      reportVotes (report id now s).1 = delete t (reportVotes s) ∧
      tempBans (report id now s).1 = <[t := now + BAN_MS]> (tempBans s) ∧
      sockets (report id now s).1 !! p = None ∧
      (report id now s).2 =
        [SocketEmit id report_received None; RoomEmit p partner_left None;
         SocketEmit id partner_left None; RoomEmit p reported_and_banned None;
         ForceClose p].
Proof.
  intros Hok Hag Hp.
  destruct (state_ok_partner_truthy _ _ _ Hok Hp) as [_ Tp].
  assert (get_truthy (partners s) id = Some p) as Hg
    by (by rewrite (state_ok_get_partner _ _ Hok)).
  assert (isAgreed s p = true) as Hagp.
  { eapply ok_partners_agreed; [done|].
    by apply (registry_sym _ _ (ok_registry _ Hok)). }
  destruct (state_ok_get_ident s p Hok (isAgreed_live _ _ Hagp)) as (t & Hgt & Ht).
  destruct (state_ok_get_ident s id Hok (isAgreed_live _ _ Hag)) as (r & Hgr & Hr).
  destruct (unpair_both_gone _ _ _ Hg) as [Hu1 Hu2].
  exists t, r. split; [done|]. split; [done|].
  unfold report. rewrite Hag, Hg, Hgt, Hgr. simpl.
  rewrite !emitTo_truthy by done.
  set (voters := default ∅ (reportVotes s !! t) ∪ {[r]}).
  destruct (decide (size voters < REPORT_THRESHOLD)%nat) as [Hlt|Hge].
  - rewrite bool_decide_eq_false_2 by lia. simpl. done.
  - rewrite bool_decide_eq_true_2 by lia.
    rewrite (isAgreed_has _ _ Hagp).
    rewrite disconnect_unfold. unfold leave. simpl.
    rewrite (get_truthy_None _ _ Hu2). simpl.
    split_and!; try done.
    + by rewrite delete_insert_eq.
    + apply lookup_delete_eq.
Qed.

(** A reporter that is already counted adds nothing. *)
Lemma voters_repeat (V : gset jsstr) (r : jsstr) : r ∈ V → V ∪ {[r]} = V.
Proof.
  intros Hr. rewrite (union_comm_L V). by apply subseteq_union_1_L, singleton_subseteq_l.
Qed.

(** A reporter that is not counted yet adds one. *)
Lemma voters_fresh (V : gset jsstr) (r : jsstr) :
  r ∉ V → size (V ∪ {[r]}) = S (size V).
Proof.
  intros Hr. rewrite size_union by (by apply disjoint_singleton_r).
  rewrite size_singleton. lia.
Qed.

(** ** src/unnamed/part_000: the connection callback *)

Lemma connection_banned id hs now until s :
  sockets s !! id = None →
  tempBans s !! makeIdent hs = Some until → now < until →
  connection id hs now s =
    (set_identBySocket (<[id := makeIdent hs]> (identBySocket s)) s,
     [SocketEmit id banned None; ForceClose id]).
Proof.
  intros Hfresh Hban Hlt. unfold connection, isTemporarilyBanned. simpl.
  rewrite Hban. simpl. rewrite (proj2 (Z.ltb_lt _ _) Hlt). simpl.
  rewrite (delete_id _ _ Hfresh). by destruct s.
Qed.

Lemma connection_expired id hs now until s :
  tempBans s !! makeIdent hs = Some until → until ≤ now → until ≠ 0 →
  connection id hs now s =
    (set_sockets (<[id := false]> (sockets s))
       (set_tempBans (delete (makeIdent hs) (tempBans s))
          (set_identBySocket (<[id := makeIdent hs]> (identBySocket s)) s)),
     [SocketEmit id need_agree None]).
Proof.
  intros Hban Hle Hnz. unfold connection, isTemporarilyBanned. simpl.
  rewrite Hban. simpl. rewrite (proj2 (Z.ltb_ge _ _) Hle).
  by rewrite (proj2 (Z.eqb_neq _ _) Hnz).
Qed.

Lemma connection_not_banned id hs now s :
  tempBans s !! makeIdent hs = None → 0 ≤ now →
  connection id hs now s =
    (set_sockets (<[id := false]> (sockets s))
       (set_identBySocket (<[id := makeIdent hs]> (identBySocket s)) s),
     [SocketEmit id need_agree None]).
Proof.
  intros Hban Hle. unfold connection, isTemporarilyBanned. simpl.
  rewrite Hban. simpl. rewrite (proj2 (Z.ltb_ge _ _) Hle). simpl.
  by destruct s.
Qed.

End Part000Facts.

(** ** src/server.js: the registry *)

Module ServerJsFacts.
Import ServerJs.

Lemma sj_find_loop_Some (self : jsstr) (m : gmap jsstr jsstr) (q : list jsstr) other rest :
  find_loop self m q = (Some other, rest) →
  ∃ skip, q = skip ++ other :: rest ∧
    Forall (passed_over self m) skip ∧ other ≠ self ∧ m !! other = None.
Proof.
  induction q as [|x q IH]; simpl; [done|].
  case_bool_decide as Hx; simpl.
  - destruct (has m x) eqn:Hm; simpl.
    + intros (skip & -> & Hskip & ?)%IH. exists (x :: skip).
      split; [done|]. split; [|done]. constructor; [|done].
      right. by apply has_true.
    + intros [= <- <-]. exists []. split; [done|].
      split; [constructor|]. by apply has_false in Hm.
  - intros (skip & -> & Hskip & ?)%IH. exists (x :: skip).
    split; [done|]. split; [|done]. constructor; [|done].
    left. by destruct (decide (x = self)).
Qed.

Lemma sj_find_loop_None (self : jsstr) (m : gmap jsstr jsstr) (q : list jsstr) rest :
  find_loop self m q = (None, rest) →
  rest = [] ∧ Forall (passed_over self m) q.
Proof.
  induction q as [|x q IH]; simpl.
  - intros [= <-]. by split.
  - case_bool_decide as Hx; simpl.
    + destruct (has m x) eqn:Hm; simpl; [|done].
      intros [-> Hq]%IH. split; [done|]. constructor; [|done].
      right. by apply has_true.
    + intros [-> Hq]%IH. split; [done|]. constructor; [|done].
      left. by destruct (decide (x = self)).
Qed.

Lemma sj_leave_queue id s : queue (leave id s).1 = filter (λ x, x ≠ id) (queue s).
Proof. unfold leave. by destruct (get_truthy (partners s) id). Qed.

Lemma sj_leave_partners id s :
  partners (leave id s).1 =
    match get_truthy (partners s) id with
    | Some _ => unpair id (partners s)
    | None => partners s
    end.
Proof. unfold leave. by destruct (get_truthy (partners s) id). Qed.

Lemma sj_leave_sockets id s : sockets (leave id s).1 = sockets s.
Proof. unfold leave. by destruct (get_truthy (partners s) id). Qed.

Lemma sj_leave_registry_ok id s :
  registry_ok (queue s) (partners s) →
  registry_ok (queue (leave id s).1) (partners (leave id s).1).
Proof.
  intros H. rewrite sj_leave_queue, sj_leave_partners.
  apply registry_ok_filter.
  destruct (get_truthy (partners s) id) eqn:E; [|done].
  by eapply registry_ok_unpair.
Qed.

Lemma sj_find_registry_ok id s :
  registry_ok (queue s) (partners s) →
  registry_ok (queue (find_handler id s).1) (partners (find_handler id s).1).
Proof.
  intros H. unfold find_handler.
  destruct (negb (isAgreed s id)); [done|].
  destruct (has (partners s) id) eqn:Hp; [done|].
  destruct (bool_decide (id ∈ queue s)) eqn:Hq; [done|]. simpl.
  apply has_false in Hp. apply bool_decide_eq_false in Hq.
  destruct (find_loop id (partners s) (queue s)) as [[other|] rest] eqn:E; simpl.
  - apply sj_find_loop_Some in E as (skip & Hskip & _ & Hne & Hother).
    pose proof H as [Hs Hi Hqu Hn].
    rewrite Hskip in Hn. apply NoDup_app in Hn as (_ & _ & Hn).
    apply NoDup_cons in Hn as [Hnotin Hn].
    eapply (registry_ok_pair (queue s)); [exact H|done|done|done| |done].
    intros x Hx. split_and!.
    + rewrite Hskip. apply elem_of_app. right. by apply elem_of_cons; right.
    + intros ->. apply Hq. rewrite Hskip. apply elem_of_app. right.
      by apply elem_of_cons; right.
    + by intros ->.
  - apply sj_find_loop_None in E as [-> _]. simpl.
    apply (registry_ok_push []); [|done|by apply not_elem_of_nil].
    destruct H. split; [done|done| |constructor].
    by intros x ?%elem_of_nil.
Qed.

(** The handlers that only touch a socket's own closure. *)
Lemma sj_media_offer_registry k id v s :
  queue (media_offer k id v s).1 = queue s ∧
  partners (media_offer k id v s).1 = partners s.
Proof. unfold media_offer. repeat case_match; done. Qed.

Lemma sj_media_accept_registry k id s :
  queue (media_accept k id s).1 = queue s ∧
  partners (media_accept k id s).1 = partners s.
Proof. unfold media_accept. repeat case_match; done. Qed.

Lemma sj_media_decline_registry k id s :
  queue (media_decline k id s).1 = queue s ∧
  partners (media_decline k id s).1 = partners s.
Proof. unfold media_decline. repeat case_match; done. Qed.

Lemma sj_video_accept_2_registry id s :
  queue (video_accept_2 id s).1 = queue s ∧
  partners (video_accept_2 id s).1 = partners s.
Proof. unfold video_accept_2. repeat case_match; done. Qed.

Lemma sj_video_decline_2_registry id s :
  queue (video_decline_2 id s).1 = queue s ∧
  partners (video_decline_2 id s).1 = partners s.
Proof. unfold video_decline_2. repeat case_match; done. Qed.

Lemma sj_both_registry (h1 h2 : state → state * list effect) s :
  (∀ s, queue (h1 s).1 = queue s ∧ partners (h1 s).1 = partners s) →
  (∀ s, queue (h2 s).1 = queue s ∧ partners (h2 s).1 = partners s) →
  queue (both h1 h2 s).1 = queue s ∧ partners (both h1 h2 s).1 = partners s.
Proof.
  intros H1 H2. unfold both.
  specialize (H1 s). destruct (h1 s) as [s1 o1].
  specialize (H2 s1). destruct (h2 s1) as [s2 o2].
  simpl in *. destruct H1 as [<- <-]. done.
Qed.

Lemma sj_disconnect_registry_ok id s :
  registry_ok (queue s) (partners s) →
  registry_ok (queue (disconnect id s).1) (partners (disconnect id s).1).
Proof.
  intros H. unfold disconnect.
  pose proof (sj_leave_registry_ok id s H). by destruct (leave id s).
Qed.

Lemma sj_report_registry_ok id now s s' out :
  registry_ok (queue s) (partners s) →
  report id now s = Done s' out →
  registry_ok (queue s') (partners s').
Proof.
  intros H. unfold report.
  destruct (negb (isAgreed s id)); [by intros [= <- <-]|].
  destruct (get_truthy (partners s) id) as [p|] eqn:Hp; [|by intros [= <- <-]].
  destruct (get_truthy (identBySocket s) p) as [t|]; [|by intros [= <- <-]].
  destruct (ledger s) as [l|]; [|done].
  pose proof (registry_ok_unpair _ _ _ _ H Hp) as H'.
  case_bool_decide; [|by intros [= <- <-]].
  case_match; [|by intros [= <- <-]].
  match goal with
  | |- context [disconnect p ?s1] =>
      pose proof (sj_disconnect_registry_ok p s1 H') as Hd;
      destruct (disconnect p s1) as [s2 o2]
  end.
  by intros [= <- <-].
Qed.

(** Every handler that returns keeps the registry and the queue consistent. *)
Lemma sj_step_registry_ok s e s' out :
  registry_ok (queue s) (partners s) →
  step s e = Done s' out →
  registry_ok (queue s') (partners s').
Proof.
  intros H. destruct e as [id hs now|id|id|id|id|id msg|id now|k id v|k id|k id|id];
    simpl; unfold listening, finish;
    try (destruct (has (sockets s) id); [|by intros [= <- <-]]).
  - intros [= <- <-]. unfold connection. by case_bool_decide.
  - intros [= <- <-]. unfold agree. by case_match.
  - intros [= <- <-]. by apply sj_find_registry_ok.
  - intros [= <- <-]. unfold next. destruct (negb (isAgreed s id)); [done|].
    pose proof (sj_leave_registry_ok id s H). by destruct (leave id s).
  - intros [= <- <-]. unfold stop. destruct (negb (isAgreed s id)); [done|].
    pose proof (sj_leave_registry_ok id s H). by destruct (leave id s).
  - intros [= <- <-]. unfold message_handler. repeat case_match; done.
  - by apply sj_report_registry_ok.
  - destruct k; simpl; try (destruct (has (sockets s) id); [|by intros [= <- <-]]);
      intros [= <- <-].
    + by destruct (sj_media_offer_registry Photo id v s) as [-> ->].
    + by destruct (sj_both_registry (media_offer Video id v) (media_offer Video id v) s
        (sj_media_offer_registry _ _ _) (sj_media_offer_registry _ _ _)) as [-> ->].
  - destruct k; simpl; try (destruct (has (sockets s) id); [|by intros [= <- <-]]);
      intros [= <- <-].
    + by destruct (sj_media_accept_registry Photo id s) as [-> ->].
    + by destruct (sj_both_registry (media_accept Video id) (video_accept_2 id) s
        (sj_media_accept_registry _ _) (sj_video_accept_2_registry _)) as [-> ->].
  - destruct k; simpl; try (destruct (has (sockets s) id); [|by intros [= <- <-]]);
      intros [= <- <-].
    + by destruct (sj_media_decline_registry Photo id s) as [-> ->].
    + by destruct (sj_both_registry (media_decline Video id) (video_decline_2 id) s
        (sj_media_decline_registry _ _) (sj_video_decline_2_registry _)) as [-> ->].
  - intros [= <- <-]. by apply sj_disconnect_registry_ok.
Qed.

Lemma sj_reachable_registry_ok s :
  reachable s → registry_ok (queue s) (partners s).
Proof.
  induction 1 as [| |s e s' out _ IH _ Hstep]; [apply registry_ok_empty..|].
  by eapply sj_step_registry_ok.
Qed.

(** ** src/server.js: what holds of every reachable state *)

Lemma sj_isAgreed_live s x : isAgreed s x = true → is_Some (sockets s !! x).
Proof. unfold isAgreed. destruct (sockets s !! x); [by eauto|done]. Qed.

Lemma sj_isAgreed_has s x : isAgreed s x = true → has (sockets s) x = true.
Proof. intros H. by apply has_true, sj_isAgreed_live. Qed.

Lemma sj_state_ok_set_ledger t s : state_ok s → state_ok (set_ledger t s).
Proof. intros [H1 H2 H3 H4 H5]. split; done. Qed.

Lemma sj_state_ok_unpair id p s :
  state_ok s → get_truthy (partners s) id = Some p →
  state_ok (set_partners (unpair id (partners s)) s).
Proof.
  intros [H1 H2 H3 H4 H5] Hp. split; simpl; try done.
  - by eapply registry_ok_unpair.
  - intros x y [Hxy _]%unpair_lookup_Some. by eapply H4.
Qed.

Lemma sj_state_ok_init_declared : state_ok init_declared.
Proof.
  split; simpl.
  - apply registry_ok_empty.
  - intros x. rewrite lookup_empty. by intros [? ?].
  - by intros x ?%elem_of_nil.
  - intros x y. by rewrite lookup_empty.
  - intros x. rewrite lookup_empty. by intros [? ?].
Qed.

Lemma sj_state_ok_init : state_ok init.
Proof.
  split; simpl.
  - apply registry_ok_empty.
  - intros x. rewrite lookup_empty. by intros [? ?].
  - by intros x ?%elem_of_nil.
  - intros x y. by rewrite lookup_empty.
  - intros x. rewrite lookup_empty. by intros [? ?].
Qed.

Lemma sj_state_ok_partner_truthy s x y :
  state_ok s → partners s !! x = Some y → truthy x = true ∧ truthy y = true.
Proof.
  intros Hok Hxy. split.
  - eapply ok_socket_ids, sj_isAgreed_live, ok_partners_agreed; done.
  - apply (registry_sym _ _ (ok_registry _ Hok)) in Hxy.
    eapply ok_socket_ids, sj_isAgreed_live, ok_partners_agreed; done.
Qed.

Lemma sj_state_ok_get_partner s x :
  state_ok s → get_truthy (partners s) x = partners s !! x.
Proof.
  intros Hok. unfold get_truthy.
  destruct (partners s !! x) as [y|] eqn:E; [|done].
  destruct (sj_state_ok_partner_truthy _ _ _ Hok E) as [_ ->]. done.
Qed.

Lemma sj_leave_partners_sub id s x y :
  partners (leave id s).1 !! x = Some y → partners s !! x = Some y.
Proof.
  rewrite sj_leave_partners. destruct (get_truthy (partners s) id); [|done].
  by intros [? _]%unpair_lookup_Some.
Qed.

Lemma sj_leave_not_queued id s : id ∉ queue (leave id s).1.
Proof. rewrite sj_leave_queue. intros [? _]%list_elem_of_filter. done. Qed.

Lemma sj_leave_not_paired id s :
  state_ok s → partners (leave id s).1 !! id = None.
Proof.
  intros Hok. rewrite sj_leave_partners, (sj_state_ok_get_partner _ _ Hok).
  destruct (partners s !! id) eqn:E; [|done].
  unfold unpair. apply lookup_delete_eq.
Qed.

Lemma sj_leave_isAgreed id s x : isAgreed (leave id s).1 x = isAgreed s x.
Proof. unfold isAgreed. by rewrite sj_leave_sockets. Qed.

Lemma sj_leave_identBySocket id s : identBySocket (leave id s).1 = identBySocket s.
Proof. unfold leave. by destruct (get_truthy (partners s) id). Qed.

Lemma sj_leave_state_ok id s : state_ok s → state_ok (leave id s).1.
Proof.
  intros [H1 H2 H3 H4 H5]. split.
  - by apply sj_leave_registry_ok.
  - intros x. rewrite sj_leave_sockets. apply H2.
  - intros x. rewrite sj_leave_queue, sj_leave_isAgreed.
    intros [_ Hx]%list_elem_of_filter. by apply H3.
  - intros x y Hxy%sj_leave_partners_sub. rewrite sj_leave_isAgreed. by eapply H4.
  - intros x. rewrite sj_leave_sockets, sj_leave_identBySocket. apply H5.
Qed.

(** Storing a socket's closure back with its flag kept or raised. *)
Lemma sj_state_ok_set_conn id c c' s :
  state_ok s → sockets s !! id = Some c →
  (agreed c = true → agreed c' = true) →
  state_ok (set_conn id c' s).
Proof.
  intros [H1 H2 H3 H4 H5] Hc Hag.
  assert (∀ x, isAgreed s x = true → isAgreed (set_conn id c' s) x = true) as Hmono.
  { intros x. unfold isAgreed, set_conn. simpl.
    destruct (decide (x = id)) as [->|Hne].
    - rewrite Hc, lookup_insert_eq. done.
    - by rewrite lookup_insert_ne. }
  split; simpl; try done.
  - intros x [v Hx]. destruct (decide (x = id)) as [->|Hne].
    + apply H2. by eauto.
    + rewrite lookup_insert_ne in Hx by done. apply H2. by eauto.
  - intros x Hx. by apply Hmono, H3.
  - intros x y Hxy. eapply Hmono, H4. done.
  - intros x [v Hx]. destruct (decide (x = id)) as [->|Hne].
    + apply H5. by eauto.
    + rewrite lookup_insert_ne in Hx by done. apply H5. by eauto.
Qed.

Lemma sj_connection_state_ok id hs s :
  state_ok s → truthy id = true → sockets s !! id = None →
  state_ok (connection id hs s).1.
Proof.
  intros [H1 H2 H3 H4 H5] Tid Hfresh. unfold connection.
  assert (∀ x, isAgreed s x = true → x ≠ id) as Hne.
  { intros x [v Hx]%sj_isAgreed_live ->. congruence. }
  case_bool_decide; split; simpl; try done.
  - intros x [v [_ Hx]%lookup_delete_Some]. apply H2. by eauto.
  - intros x Hx. pose proof (H3 _ Hx) as Hag. unfold isAgreed in *. simpl.
    rewrite lookup_delete_ne; [done|]. intros ->. by eapply Hne.
  - intros x y Hxy. pose proof (H4 _ _ Hxy) as Hag. unfold isAgreed in *. simpl.
    rewrite lookup_delete_ne; [done|]. intros ->. by eapply Hne.
  - intros x [v [Hx' Hx]%lookup_delete_Some].
    rewrite lookup_insert_ne by done. apply H5. by eauto.
  - intros x [v Hx]. destruct (decide (x = id)) as [->|Hx']; [done|].
    rewrite lookup_insert_ne in Hx by done. apply H2. by eauto.
  - intros x Hx. pose proof (H3 _ Hx) as Hag. unfold isAgreed in *. simpl.
    rewrite lookup_insert_ne; [done|]. intros ->. by eapply Hne.
  - intros x y Hxy. pose proof (H4 _ _ Hxy) as Hag. unfold isAgreed in *. simpl.
    rewrite lookup_insert_ne; [done|]. intros ->. by eapply Hne.
  - intros x [v Hx]. destruct (decide (x = id)) as [->|Hx'].
    + rewrite lookup_insert_eq. eexists. split; [done|]. apply makeIdent_truthy.
    + rewrite lookup_insert_ne in Hx by done.
      rewrite lookup_insert_ne by done. apply H5. by eauto.
Qed.

Lemma sj_agree_state_ok id s : state_ok s → state_ok (agree id s).1.
Proof.
  intros Hok. unfold agree. destruct (sockets s !! id) as [c|] eqn:Hc; [|done].
  by eapply sj_state_ok_set_conn.
Qed.

Lemma sj_find_state_ok id s : state_ok s → state_ok (find_handler id s).1.
Proof.
  intros Hok. pose proof (sj_find_registry_ok id s (ok_registry _ Hok)) as Hreg.
  revert Hreg. unfold find_handler.
  destruct (isAgreed s id) eqn:Hag; simpl; [|done].
  destruct (has (partners s) id) eqn:Hp; [done|].
  destruct (bool_decide (id ∈ queue s)) eqn:Hq; [done|]. simpl.
  destruct Hok as [H1 H2 H3 H4 H5].
  destruct (find_loop id (partners s) (queue s)) as [[other|] rest] eqn:E;
    simpl; intros Hreg.
  - apply sj_find_loop_Some in E as (skip & Hskip & _ & Hne & Hother).
    assert (∀ x, x ∈ other :: rest → x ∈ queue s) as Hsub.
    { intros x Hx. rewrite Hskip. apply elem_of_app. by right. }
    split; simpl; try done.
    + intros x Hx. apply H3, Hsub. by apply elem_of_cons; right.
    + intros x y. unfold pair.
      destruct (decide (x = other)) as [->|Hxo].
      { intros _. apply H3, Hsub. by apply elem_of_cons; left. }
      rewrite lookup_insert_ne by done.
      destruct (decide (x = id)) as [->|Hxi]; [done|].
      rewrite lookup_insert_ne by done. apply H4.
  - apply sj_find_loop_None in E as [-> _].
    split; simpl; try done.
    intros x ->%list_elem_of_singleton. done.
Qed.

Lemma sj_disconnect_state_ok id s : state_ok s → state_ok (disconnect id s).1.
Proof.
  intros Hok. pose proof (sj_leave_not_paired id s Hok) as Hnp.
  pose proof (sj_leave_not_queued id s) as Hnq.
  apply (sj_leave_state_ok id) in Hok. unfold disconnect.
  destruct (leave id s) as [s1 o1]. simpl in *.
  destruct Hok as [H1 H2 H3 H4 H5]. split; simpl; try done.
  - intros x [v [_ Hx]%lookup_delete_Some]. apply H2. by eauto.
  - intros x Hx. assert (x ≠ id) as Hne by (by intros ->).
    pose proof (H3 _ Hx) as Hag. unfold isAgreed in *. simpl.
    by rewrite lookup_delete_ne.
  - intros x y Hxy. assert (x ≠ id) as Hne by (intros ->; congruence).
    pose proof (H4 _ _ Hxy) as Hag. unfold isAgreed in *. simpl.
    by rewrite lookup_delete_ne.
  - intros x [v [Hne Hx]%lookup_delete_Some].
    rewrite lookup_delete_ne by done. apply H5. by eauto.
Qed.

Lemma sj_media_offer_state_ok k id v s : state_ok s → state_ok (media_offer k id v s).1.
Proof.
  intros Hok. unfold media_offer.
  destruct (sockets s !! id) as [c|] eqn:Hc; [|done].
  repeat case_match; try done.
  eapply sj_state_ok_set_conn; [done..|]. by destruct k.
Qed.

Lemma sj_media_accept_state_ok k id s : state_ok s → state_ok (media_accept k id s).1.
Proof.
  intros Hok. unfold media_accept.
  destruct (sockets s !! id) as [c|] eqn:Hc; [|done].
  repeat case_match; try done.
  eapply sj_state_ok_set_conn; [done..|]. by destruct k.
Qed.

Lemma sj_media_decline_state_ok k id s : state_ok s → state_ok (media_decline k id s).1.
Proof.
  intros Hok. unfold media_decline.
  destruct (sockets s !! id) as [c|] eqn:Hc; [|done].
  repeat case_match; try done.
  eapply sj_state_ok_set_conn; [done..|]. by destruct k.
Qed.

Lemma sj_video_accept_2_state_ok id s : state_ok s → state_ok (video_accept_2 id s).1.
Proof.
  intros Hok. unfold video_accept_2.
  destruct (sockets s !! id) as [c|] eqn:Hc; [|done].
  repeat case_match; try done.
  by eapply sj_state_ok_set_conn.
Qed.

Lemma sj_video_decline_2_state_ok id s : state_ok s → state_ok (video_decline_2 id s).1.
Proof.
  intros Hok. unfold video_decline_2.
  destruct (sockets s !! id) as [c|] eqn:Hc; [|done].
  repeat case_match; try done.
  by eapply sj_state_ok_set_conn.
Qed.

Lemma sj_both_state_ok (h1 h2 : state → state * list effect) s :
  (∀ s, state_ok s → state_ok (h1 s).1) →
  (∀ s, state_ok s → state_ok (h2 s).1) →
  state_ok s → state_ok (both h1 h2 s).1.
Proof.
  intros H1 H2 Hok. unfold both.
  specialize (H1 s Hok). destruct (h1 s) as [s1 o1].
  specialize (H2 s1 H1). by destruct (h2 s1) as [s2 o2].
Qed.

Lemma sj_report_state_ok id now s s' out :
  state_ok s → report id now s = Done s' out → state_ok s'.
Proof.
  intros Hok. unfold report.
  destruct (negb (isAgreed s id)); [by intros [= <- <-]|].
  destruct (get_truthy (partners s) id) as [p|] eqn:Hp; [|by intros [= <- <-]].
  destruct (get_truthy (identBySocket s) p) as [t|]; [|by intros [= <- <-]].
  destruct (ledger s) as [l|]; [|done].
  case_bool_decide; [|intros [= <- <-]; by apply sj_state_ok_set_ledger].
  match goal with
  | |- context [disconnect p ?s1] => assert (state_ok s1) as Hok1
  end.
  { apply (sj_state_ok_unpair id p (set_ledger _ s)); [|done].
    by apply sj_state_ok_set_ledger. }
  case_match; [|by intros [= <- <-]].
  match goal with
  | |- context [disconnect p ?s1] =>
      pose proof (sj_disconnect_state_ok p s1 Hok1) as Hd;
      destruct (disconnect p s1) as [s2 o2]
  end.
  by intros [= <- <-].
Qed.

(** Every event the transport can deliver, handled without an exception,
    keeps [state_ok]. *)
Lemma sj_step_state_ok s e s' out :
  state_ok s → event_ok s e = true → step s e = Done s' out → state_ok s'.
Proof.
  intros Hok He.
  destruct e as [id hs now|id|id|id|id|id msg|id now|k id v|k id|k id|id];
    simpl in *; unfold listening, finish;
    try (destruct (has (sockets s) id) eqn:Hlive; [|by intros [= <- <-]]).
  - apply andb_prop in He as [Tid Hfresh].
    apply negb_true_iff, has_false in Hfresh.
    intros [= <- <-]. by apply sj_connection_state_ok.
  - intros [= <- <-]. by apply sj_agree_state_ok.
  - intros [= <- <-]. by apply sj_find_state_ok.
  - intros [= <- <-]. unfold next. destruct (negb (isAgreed s id)); [done|].
    pose proof (sj_leave_state_ok id s Hok). by destruct (leave id s).
  - intros [= <- <-]. unfold stop. destruct (negb (isAgreed s id)); [done|].
    pose proof (sj_leave_state_ok id s Hok). by destruct (leave id s).
  - intros [= <- <-]. unfold message_handler. repeat case_match; done.
  - by apply sj_report_state_ok.
  - destruct k; simpl; try (destruct (has (sockets s) id); [|by intros [= <- <-]]);
      intros [= <- <-].
    + by apply sj_media_offer_state_ok.
    + apply sj_both_state_ok; [..|done]; intros; by apply sj_media_offer_state_ok.
  - destruct k; simpl; try (destruct (has (sockets s) id); [|by intros [= <- <-]]);
      intros [= <- <-].
    + by apply sj_media_accept_state_ok.
    + apply sj_both_state_ok; [..|done]; intros.
      * by apply sj_media_accept_state_ok.
      * by apply sj_video_accept_2_state_ok.
  - destruct k; simpl; try (destruct (has (sockets s) id); [|by intros [= <- <-]]);
      intros [= <- <-].
    + by apply sj_media_decline_state_ok.
    + apply sj_both_state_ok; [..|done]; intros.
      * by apply sj_media_decline_state_ok.
      * by apply sj_video_decline_2_state_ok.
  - intros [= <- <-]. by apply sj_disconnect_state_ok.
Qed.

Lemma sj_reachable_state_ok s : reachable s → state_ok s.
Proof.
  induction 1 as [| |s e s' out _ IH He Hstep];
    [apply sj_state_ok_init|apply sj_state_ok_init_declared|].
  by eapply sj_step_state_ok.
Qed.

(** A list of deliverable events that raises no exception leads to a
    reachable state. *)
Lemma sj_reachable_run s es s' out :
  reachable s → events_ok s es = true → run s es = Done s' out → reachable s'.
Proof.
  revert s out. induction es as [|e es IH]; intros s out Hs Hes; simpl in *.
  - by intros [= <- <-].
  - apply andb_prop in Hes as [He Hes].
    destruct (step s e) as [s1 o1|err] eqn:Hstep; [|done].
    pose proof (reachable_step s e s1 o1 Hs He Hstep) as Hs1.
    destruct (run s1 es) as [s2 o2|err] eqn:Hrun; [|done].
    intros [= <- <-]. by eapply IH.
Qed.

(** ** src/server.js: find, message, next and report *)

Lemma sj_find_handler_noop id s :
  isAgreed s id = true →
  is_Some (partners s !! id) ∨ id ∈ queue s →
  find_handler id s = (s, []).
Proof.
  intros Hag Hin. unfold find_handler. rewrite Hag. simpl.
  destruct (has (partners s) id) eqn:Hp; [done|]. simpl.
  apply has_false in Hp. destruct Hin as [[? Hin]|Hin]; [congruence|].
  by rewrite bool_decide_eq_true_2.
Qed.

Lemma sj_find_handler_spec id s :
  isAgreed s id = true →
  partners s !! id = None → id ∉ queue s →
  ∃ q' m',
    (find_handler id s).1 = set_partners m' (set_queue q' s) ∧
    find_outcome id (queue s) (partners s) q' m' (find_handler id s).2 ∧
    in_exactly_one id q' m'.
Proof.
  intros Hag Hp Hnq. unfold find_handler. rewrite Hag. simpl.
  rewrite (proj2 (has_false _ _) Hp), bool_decide_eq_false_2 by done. simpl.
  destruct (find_loop id (partners s) (queue s)) as [[other|] rest] eqn:E; simpl.
  - apply sj_find_loop_Some in E as (skip & Hskip & Hf & Hne & Hother).
    exists rest, (pair id other (partners s)). split; [done|]. split.
    + left. exists skip, other, rest. split_and!; try done.
      intros [?|[? ?]]; congruence.
    + left. split.
      * unfold pair. rewrite lookup_insert_ne by done.
        rewrite lookup_insert_eq. by eauto.
      * intros Hin. apply Hnq. rewrite Hskip. apply elem_of_app. right.
        by apply elem_of_cons; right.
  - apply sj_find_loop_None in E as [-> Hf].
    exists [id], (partners s). split; [done|]. split.
    + right. by split_and!.
    + right. split; [done|]. by apply list_elem_of_singleton.
Qed.

Lemma sj_message_handler_spec id msg s :
  state_ok s → isAgreed s id = true →
  message_handler id msg s = (s, relayed (partners s) id msg).
Proof.
  intros Hok Hag. unfold message_handler, relayed. rewrite Hag. simpl.
  destruct msg as [m|]; [|done].
  destruct (decide (trim m = [])) as [->|Hne]; [done|].
  apply truthy_true in Hne. rewrite Hne. simpl.
  rewrite (sj_state_ok_get_partner _ _ Hok).
  by destruct (partners s !! id).
Qed.

(** After next, the caller is in neither the registry nor the queue. *)
Lemma sj_next_leaves_unmatched id s :
  state_ok s → isAgreed s id = true →
  partners (next id s).1 !! id = None ∧ (id ∉ queue (next id s).1) ∧
  ∃ out, (next id s).2 = out ++ [SocketEmit id searching None; SocketEmit id find None].
Proof.
  intros Hok Hag. unfold next. rewrite Hag. simpl.
  pose proof (sj_leave_not_paired id s Hok) as H1.
  pose proof (sj_leave_not_queued id s) as H2.
  destruct (leave id s) as [s1 o1]. simpl in *. by eauto.
Qed.

(** In the file as it stands, a report by a consenting, paired socket never
    gets past the read of [reportCounts]. *)
Lemma sj_report_throws id now s :
  state_ok s → ledger s = None →
  isAgreed s id = true → is_Some (partners s !! id) →
  report id now s = Uncaught (ReferenceError "reportCounts").
Proof.
  intros Hok Hl Hag [p Hp]. pose proof (ok_idents _ Hok) as Hid.
  unfold report. rewrite Hag. simpl.
  rewrite (sj_state_ok_get_partner _ _ Hok), Hp.
  assert (isAgreed s p = true) as Hagp.
  { eapply ok_partners_agreed; [done|].
    by apply (registry_sym _ _ (ok_registry _ Hok)). }
  destruct (Hid p (sj_isAgreed_live _ _ Hagp)) as (i & Hi & Ti).
  by rewrite (proj2 (get_truthy_Some _ _ _) (conj Hi Ti)), Hl.
Qed.

(** With the two maps declared, a report by a consenting, paired socket
    adds one to the count kept for the partner's identity, whoever reports;
    below ten it changes nothing else and emits nothing. *)
Lemma sj_report_counts id now p t s :
  state_ok s → ledger s = Some t →
  isAgreed s id = true → partners s !! id = Some p →
  ∃ ident,
    identBySocket s !! p = Some ident ∧
    let count := (default 0 (reportCounts t !! ident) + 1)%nat in
    ((count < 10)%nat →
       report id now s
         = Done (set_ledger {| reportCounts := <[ident := count]> (reportCounts t);
                               tempBans := tempBans t |} s) []).
Proof.
  intros Hok Hl Hag Hp. pose proof (ok_idents _ Hok) as Hid.
  assert (isAgreed s p = true) as Hagp.
  { eapply ok_partners_agreed; [done|].
    by apply (registry_sym _ _ (ok_registry _ Hok)). }
  destruct (Hid p (sj_isAgreed_live _ _ Hagp)) as (i & Hi & Ti).
  exists i. split; [done|]. intros count Hlt.
  unfold report. rewrite Hag. simpl.
  rewrite (sj_state_ok_get_partner _ _ Hok), Hp.
  rewrite (proj2 (get_truthy_Some _ _ _) (conj Hi Ti)), Hl.
  by rewrite bool_decide_eq_false_2 by (fold count; lia).
Qed.

Lemma sj_connection_banned id hs s :
  sockets s !! id = None → makeIdent hs ∈ bannedIdents s →
  connection id hs s =
    (set_identBySocket (<[id := makeIdent hs]> (identBySocket s)) s,
     [SocketEmit id banned None; ForceClose id]).
Proof.
  intros Hfresh Hban. unfold connection. simpl.
  rewrite bool_decide_eq_true_2 by done.
  rewrite (delete_id _ _ Hfresh). by destruct s.
Qed.

Lemma sj_both_keeps {A} (f : state → A) (h1 h2 : state → state * list effect) s :
  (∀ s, f (h1 s).1 = f s) → (∀ s, f (h2 s).1 = f s) → f (both h1 h2 s).1 = f s.
Proof.
  intros H1 H2. unfold both.
  specialize (H1 s). destruct (h1 s) as [s1 o1].
  specialize (H2 s1). destruct (h2 s1) as [s2 o2].
  simpl in *. congruence.
Qed.

Lemma sj_media_offer_banned k id v s :
  bannedIdents (media_offer k id v s).1 = bannedIdents s.
Proof. unfold media_offer. repeat case_match; done. Qed.

Lemma sj_media_accept_banned k id s :
  bannedIdents (media_accept k id s).1 = bannedIdents s.
Proof. unfold media_accept. repeat case_match; done. Qed.

Lemma sj_media_decline_banned k id s :
  bannedIdents (media_decline k id s).1 = bannedIdents s.
Proof. unfold media_decline. repeat case_match; done. Qed.

Lemma sj_video_accept_2_banned id s :
  bannedIdents (video_accept_2 id s).1 = bannedIdents s.
Proof. unfold video_accept_2. repeat case_match; done. Qed.

Lemma sj_video_decline_2_banned id s :
  bannedIdents (video_decline_2 id s).1 = bannedIdents s.
Proof. unfold video_decline_2. repeat case_match; done. Qed.

Lemma sj_leave_banned id s : bannedIdents (leave id s).1 = bannedIdents s.
Proof. unfold leave. by destruct (get_truthy (partners s) id). Qed.

Lemma sj_disconnect_banned id s : bannedIdents (disconnect id s).1 = bannedIdents s.
Proof.
  unfold disconnect. pose proof (sj_leave_banned id s). by destruct (leave id s).
Qed.

Lemma sj_report_banned id now s s' out :
  report id now s = Done s' out → bannedIdents s' = bannedIdents s.
Proof.
  unfold report.
  destruct (negb (isAgreed s id)); [by intros [= <- <-]|].
  destruct (get_truthy (partners s) id) as [p|]; [|by intros [= <- <-]].
  destruct (get_truthy (identBySocket s) p) as [t|]; [|by intros [= <- <-]].
  destruct (ledger s) as [l|]; [|done].
  case_bool_decide; [|by intros [= <- <-]].
  case_match; [|by intros [= <- <-]].
  match goal with
  | |- context [disconnect p ?s1] =>
      pose proof (sj_disconnect_banned p s1) as Hd;
      destruct (disconnect p s1) as [s2 o2]
  end.
  by intros [= <- <-].
Qed.

(** No handler of src/server.js ever adds to [bannedIdents]. *)
Lemma sj_step_bannedIdents s e s' out :
  step s e = Done s' out → bannedIdents s' = bannedIdents s.
Proof.
  destruct e as [id hs now|id|id|id|id|id msg|id now|k id v|k id|k id|id];
    simpl; unfold listening, finish;
    try (destruct (has (sockets s) id); [|by intros [= <- <-]]).
  - intros [= <- <-]. unfold connection. by case_bool_decide.
  - intros [= <- <-]. unfold agree. by case_match.
  - intros [= <- <-]. unfold find_handler. repeat case_match; done.
  - intros [= <- <-]. unfold next. destruct (negb (isAgreed s id)); [done|].
    pose proof (sj_leave_banned id s). by destruct (leave id s).
  - intros [= <- <-]. unfold stop. destruct (negb (isAgreed s id)); [done|].
    pose proof (sj_leave_banned id s). by destruct (leave id s).
  - intros [= <- <-]. unfold message_handler. repeat case_match; done.
  - by apply sj_report_banned.
  - destruct k; simpl; try (destruct (has (sockets s) id); [|by intros [= <- <-]]);
      intros [= <- <-].
    + apply sj_media_offer_banned.
    + apply (sj_both_keeps bannedIdents); intros; apply sj_media_offer_banned.
  - destruct k; simpl; try (destruct (has (sockets s) id); [|by intros [= <- <-]]);
      intros [= <- <-].
    + apply sj_media_accept_banned.
    + apply (sj_both_keeps bannedIdents); intros;
        [apply sj_media_accept_banned | apply sj_video_accept_2_banned].
  - destruct k; simpl; try (destruct (has (sockets s) id); [|by intros [= <- <-]]);
      intros [= <- <-].
    + apply sj_media_decline_banned.
    + apply (sj_both_keeps bannedIdents); intros;
        [apply sj_media_decline_banned | apply sj_video_decline_2_banned].
  - intros [= <- <-]. by apply sj_disconnect_banned.
Qed.

Lemma sj_reachable_never_bans s : reachable s → bannedIdents s = ∅.
Proof.
  induction 1 as [| |s e s' out _ IH _ Hstep]; [done..|].
  by rewrite (sj_step_bannedIdents _ _ _ _ Hstep).
Qed.

End ServerJsFacts.

(** * src/unnamed/part_000 keeps the report contract

    The handler of src/unnamed/part_000 does what the specification asks of
    a report; the two results below are the reference against which the
    handler of src/server.js is compared further down. *)

(** A report by a consenting, paired socket tears the pairing down whatever
    the tally, and counts reporters by identity: a reporter that is already
    in the target's set leaves set and bans as they were; the set is stored
    while it has fewer than ten members; with the tenth member the set is
    cleared, the target banned for 24 hours from now and its socket closed. *)
Lemma part000_report_contract s id now p :
  Part000.reachable s → Part000.isAgreed s id = true →
  Part000.partners s !! id = Some p →
  ∃ t r,
    Part000.identBySocket s !! p = Some t ∧
    Part000.identBySocket s !! id = Some r ∧
    Part000.partners (Part000.step s (Report id now)).1 !! id = None ∧
    Part000.partners (Part000.step s (Report id now)).1 !! p = None ∧
    [SocketEmit id report_received None; RoomEmit p partner_left None;
     SocketEmit id partner_left None] `prefix_of` (Part000.step s (Report id now)).2 ∧
    let old := default ∅ (Part000.reportVotes s !! t) in
    (r ∈ old →
       Part000.reportVotes (Part000.step s (Report id now)).1 !! t = Some old ∧
       Part000.tempBans (Part000.step s (Report id now)).1 = Part000.tempBans s) ∧
    (r ∉ old → (size old < 9)%nat →
       Part000.reportVotes (Part000.step s (Report id now)).1 !! t = Some (old ∪ {[r]}) ∧
       Part000.tempBans (Part000.step s (Report id now)).1 = Part000.tempBans s) ∧
    (r ∉ old → size old = 9%nat →
       Part000.reportVotes (Part000.step s (Report id now)).1 !! t = None ∧
       Part000.tempBans (Part000.step s (Report id now)).1
         = <[t := now + 24 * 60 * 60 * 1000]> (Part000.tempBans s) ∧
       Part000.sockets (Part000.step s (Report id now)).1 !! p = None).
Proof.
  intros Hs Hag Hp. pose proof (Part000Facts.reachable_state_ok _ Hs) as Hok.
  simpl. rewrite (Part000Facts.isAgreed_has _ _ Hag).
  destruct (Part000Facts.report_spec id now p s Hok Hag Hp)
    as (t & r & Ht & Hr & H1 & H2 & H3).
  exists t, r. split_and!; try done.
  - simpl in H3. destruct (decide _); destruct H3 as (_ & _ & H3).
    + rewrite H3. done.
    + destruct H3 as [_ ->]. by eexists [_; _].
  - intros Hin. simpl in H3.
    assert (size (default ∅ (Part000.reportVotes s !! t)) < Part000.REPORT_THRESHOLD)%nat
      as Hlt.
    { destruct (Part000.reportVotes s !! t) as [V|] eqn:E.
      - by eapply Part000.ok_votes.
      - exfalso. revert Hin. apply not_elem_of_empty. }
    rewrite (Part000Facts.voters_repeat _ _ Hin) in H3.
    destruct (decide _) as [_|?]; [|done].
    destruct H3 as (-> & -> & _). by rewrite lookup_insert_eq.
  - intros Hnotin Hlt. simpl in H3.
    rewrite (Part000Facts.voters_fresh _ _ Hnotin) in H3.
    destruct (decide _) as [_|Hge]; [|unfold Part000.REPORT_THRESHOLD in Hge; lia].
    destruct H3 as (-> & -> & _). by rewrite lookup_insert_eq.
  - intros Hnotin Hnine. simpl in H3.
    rewrite (Part000Facts.voters_fresh _ _ Hnotin) in H3.
    destruct (decide _) as [Hlt|_]; [unfold Part000.REPORT_THRESHOLD in Hlt; lia|].
    destruct H3 as (-> & -> & -> & _). by rewrite lookup_delete_eq.
Qed.

(** Nine distinct reporters do not get the target banned; the same reporter
    coming back is not counted again; the tenth distinct reporter gets the
    target banned until a day after its report, the tally cleared and the
    target's socket closed. *)
Example part000_ten_reporters :
  let ident := makeIdent Scenario.hsT in
  let nine := (Part000.run Part000.init (Scenario.reports 9)).1 in
  let repeated :=
    (Part000.run Part000.init (Scenario.reports 9 ++ Scenario.again 3)).1 in
  (Part000.tempBans nine = ∅ ∧
   size <$> Part000.reportVotes nine !! ident = Some 9%nat) ∧
  (Part000.tempBans repeated = ∅ ∧
   size <$> Part000.reportVotes repeated !! ident = Some 9%nat) ∧
  (Part000.tempBans Scenario.target_banned = {[ident := 2009 + 86400000]} ∧
   Part000.reportVotes Scenario.target_banned = ∅ ∧
   Part000.sockets Scenario.target_banned !! Scenario.T = None).
Proof. vm_compute. repeat split. Qed.

(** * The claims *)

(** C1. In both servers, after every operation (connect, agree, find, stop,
    next, message, report, media offer, accept and decline, disconnect)
    applied to any reachable state, the partner registry is symmetric
    (partner(partner(x)) = x), no id is its own partner, no id is both in
    the registry and in the queue, and the queue holds each id at most once.
    For src/server.js this is about the operations that return: in the
    file as it stands a report by a paired socket raises, which ends the
    process and leaves no state behind. *)
Theorem registry_consistent :
  (∀ s e, Part000.reachable s →
     registry_ok (Part000.queue (Part000.step s e).1)
                 (Part000.partners (Part000.step s e).1)) ∧
  (∀ s e s' out, ServerJs.reachable s → ServerJs.step s e = ServerJs.Done s' out →
     registry_ok (ServerJs.queue s') (ServerJs.partners s')).
Proof.
  split.
  - intros s e Hs. by apply Part000Facts.step_registry_ok, Part000Facts.reachable_registry_ok.
  - intros s e s' out Hs Hstep.
    eapply ServerJsFacts.sj_step_registry_ok; [|done].
    by apply ServerJsFacts.sj_reachable_registry_ok.
Qed.

Lemma registry_consistent_witness :
  registry_ok (Part000.queue (Part000.step Scenario.met (Stop Scenario.A)).1)
              (Part000.partners (Part000.step Scenario.met (Stop Scenario.A)).1) ∧
  registry_ok (ServerJs.queue (ServerJs.final (ServerJs.step Scenario.met_js (Next Scenario.A))))
              (ServerJs.partners (ServerJs.final (ServerJs.step Scenario.met_js (Next Scenario.A)))).
Proof.
  split.
  - apply (proj1 registry_consistent Scenario.met (Stop Scenario.A)).
    apply Part000Facts.reachable_run; [constructor | vm_compute; reflexivity].
  - destruct (ServerJs.step Scenario.met_js (Next Scenario.A)) as [s' out|err] eqn:E.
    + apply (proj2 registry_consistent Scenario.met_js (Next Scenario.A) s' out); [|exact E].
      eapply (ServerJsFacts.sj_reachable_run ServerJs.init Scenario.meet);
        [constructor | vm_compute; reflexivity | vm_compute; reflexivity].
    + vm_compute in E. discriminate E.
Defined.

(** C2. In both servers, for a consenting id that is neither paired nor
    queued, find pops entries from the front of the queue, passing over
    those that are the id itself or already paired, pairs the id with the
    first entry left and emits "matched" to both sides; when the queue runs
    out it puts the id in the queue and emits "searching"; afterwards the id
    is paired or queued and not both.  For an id that is already paired or
    queued, find changes nothing.  (In src/unnamed/part_000 the loop also
    passes over an empty id; connection ids are non-empty.) *)
Theorem find_pairs_first_waiting :
  (∀ s id,
     Part000.isAgreed s id = true →
     Forall (λ x, truthy x = true) (Part000.queue s) →
     (is_Some (Part000.partners s !! id) ∨ id ∈ Part000.queue s →
        Part000.step s (Find id) = (s, [])) ∧
     (Part000.partners s !! id = None → id ∉ Part000.queue s →
        ∃ q' m',
          (Part000.step s (Find id)).1
            = Part000.set_partners m' (Part000.set_queue q' s) ∧
          find_outcome id (Part000.queue s) (Part000.partners s) q' m'
            (Part000.step s (Find id)).2 ∧
          in_exactly_one id q' m')) ∧
  (∀ s id,
     ServerJs.isAgreed s id = true →
     (is_Some (ServerJs.partners s !! id) ∨ id ∈ ServerJs.queue s →
        ServerJs.step s (Find id) = ServerJs.Done s []) ∧
     (ServerJs.partners s !! id = None → id ∉ ServerJs.queue s →
        ∃ q' m' out,
          ServerJs.step s (Find id)
            = ServerJs.Done (ServerJs.set_partners m' (ServerJs.set_queue q' s)) out ∧
          find_outcome id (ServerJs.queue s) (ServerJs.partners s) q' m' out ∧
          in_exactly_one id q' m')).
Proof.
  split.
  - intros s id Hag Hq. simpl. rewrite (Part000Facts.isAgreed_has _ _ Hag). split.
    + by apply Part000Facts.find_handler_noop.
    + by apply Part000Facts.find_handler_spec.
  - intros s id Hag. simpl. unfold ServerJs.listening, ServerJs.finish.
    rewrite (ServerJsFacts.sj_isAgreed_has _ _ Hag). split.
    + intros Hin. by rewrite ServerJsFacts.sj_find_handler_noop.
    + intros Hp Hnq.
      destruct (ServerJsFacts.sj_find_handler_spec id s Hag Hp Hnq)
        as (q' & m' & H1 & H2 & H3).
      exists q', m', (ServerJs.find_handler id s).2. by rewrite H1.
Qed.

Lemma find_pairs_first_waiting_witness :
  (∃ q' m',
     (Part000.step Scenario.waiting (Find Scenario.B)).1
       = Part000.set_partners m' (Part000.set_queue q' Scenario.waiting) ∧
     find_outcome Scenario.B (Part000.queue Scenario.waiting)
       (Part000.partners Scenario.waiting) q' m'
       (Part000.step Scenario.waiting (Find Scenario.B)).2 ∧
     in_exactly_one Scenario.B q' m') ∧
  ServerJs.step Scenario.met_js (Find Scenario.A) = ServerJs.Done Scenario.met_js [].
Proof.
  split.
  - apply (proj1 find_pairs_first_waiting Scenario.waiting Scenario.B).
    + vm_compute. reflexivity.
    + vm_compute. repeat constructor.
    + vm_compute. reflexivity.
    + apply (bool_decide_unpack (Scenario.B ∉ Part000.queue Scenario.waiting)).
      vm_compute. exact I.
  - apply (proj2 find_pairs_first_waiting Scenario.met_js Scenario.A).
    + vm_compute. reflexivity.
    + left. vm_compute. eexists. reflexivity.
Defined.

(** C8. In both servers, for a consenting sender in any reachable state, the
    message handler changes no state; it emits nothing for a payload that is
    not a string or is empty once trimmed, and otherwise emits the trimmed
    text to the sender's partner and to nobody else, or nothing when the
    sender has no partner ([relayed]). *)
Theorem message_goes_to_partner_only :
  (∀ s id msg,
     Part000.reachable s → Part000.isAgreed s id = true →
     Part000.step s (Message id msg) = (s, relayed (Part000.partners s) id msg)) ∧
  (∀ s id msg,
     ServerJs.reachable s → ServerJs.isAgreed s id = true →
     ServerJs.step s (Message id msg)
       = ServerJs.Done s (relayed (ServerJs.partners s) id msg)).
Proof.
  split.
  - intros s id msg Hs Hag. simpl. rewrite (Part000Facts.isAgreed_has _ _ Hag).
    apply Part000Facts.message_handler_spec; [|done].
    by apply Part000Facts.reachable_state_ok.
  - intros s id msg Hs Hag. simpl. unfold ServerJs.listening, ServerJs.finish.
    rewrite (ServerJsFacts.sj_isAgreed_has _ _ Hag).
    rewrite ServerJsFacts.sj_message_handler_spec; [done| |done].
    by apply ServerJsFacts.sj_reachable_state_ok.
Qed.

Lemma message_goes_to_partner_only_witness :
  Part000.step Scenario.met (Message Scenario.A (VStr (js "  hi  ")))
    = (Scenario.met, [RoomEmit Scenario.B message (Some (DStr (js "hi")))]) ∧
  ServerJs.step Scenario.met_js (Message Scenario.A (VStr (js "   ")))
    = ServerJs.Done Scenario.met_js [].
Proof.
  split.
  - apply (proj1 message_goes_to_partner_only Scenario.met Scenario.A (VStr (js "  hi  "))).
    + apply Part000Facts.reachable_run; [constructor | vm_compute; reflexivity].
    + vm_compute. reflexivity.
  - apply (proj2 message_goes_to_partner_only Scenario.met_js Scenario.A (VStr (js "   "))).
    + eapply (ServerJsFacts.sj_reachable_run ServerJs.init Scenario.meet);
        [constructor | vm_compute; reflexivity | vm_compute; reflexivity].
    + vm_compute. reflexivity.
Defined.

(** C9. src/server.js at the failing input: [A] and [B] are matched and [A]
    sends next.  The handler tears the pairing down, tells [B], and emits
    "searching" and "find" to [A]'s own client; it does not run the find
    logic, so [A] ends up neither queued nor paired. *)
Theorem next_leaves_caller_unmatched :
  ServerJs.isAgreed Scenario.met_js Scenario.A = true ∧
  ServerJs.partners Scenario.met_js !! Scenario.A = Some Scenario.B ∧
  ∃ s',
    ServerJs.step Scenario.met_js (Next Scenario.A)
      = ServerJs.Done s'
          [RoomEmit Scenario.B partner_left None;
           SocketEmit Scenario.A searching None; SocketEmit Scenario.A find None] ∧
    ServerJs.partners s' = ∅ ∧
    ServerJs.queue s' = [] ∧
    ¬ in_exactly_one Scenario.A (ServerJs.queue s') (ServerJs.partners s').
Proof.
  split; [vm_compute; reflexivity|]. split; [vm_compute; reflexivity|].
  eexists. split; [vm_compute; reflexivity|]. simpl.
  split; [done|]. split; [done|].
  intros [[[x Hx] _]|[_ Hin]].
  - vm_compute in Hx. discriminate Hx.
  - by apply elem_of_nil in Hin.
Qed.

(** C3. src/server.js at the failing input: [A] and [B] are matched and [A]
    reports [B], again and again.  In the file as it stands the handler
    reads [reportCounts], which is declared nowhere, and the first report
    dies with a ReferenceError: nothing is tallied and no ban is set.  With
    the two maps declared, the handler counts reports, not reporters: nine
    reports by the one reporter make a count of nine, and its tenth report
    gets the target banned. *)
Theorem report_counts_reports_on_server_js :
  ServerJs.events_ok ServerJs.init (Scenario.meet ++ [Report Scenario.A 2000]) = true ∧
  ServerJs.run ServerJs.init (Scenario.meet ++ [Report Scenario.A 2000])
    = ServerJs.Uncaught (ServerJs.ReferenceError "reportCounts") ∧
  ServerJs.ledger
    (ServerJs.final
       (ServerJs.run ServerJs.init_declared
          (Scenario.meet ++ replicate 9 (Report Scenario.A 2000))))
    = Some {| ServerJs.reportCounts := {[makeIdent (Scenario.hs "10.0.0.2") := 9%nat]};
              ServerJs.tempBans := ∅ |} ∧
  ServerJs.ledger
    (ServerJs.final
       (ServerJs.run ServerJs.init_declared
          (Scenario.meet ++ replicate 10 (Report Scenario.A 2000))))
    = Some {| ServerJs.reportCounts := ∅;
              ServerJs.tempBans :=
                {[makeIdent (Scenario.hs "10.0.0.2") := 2000 + 24 * 60 * 60 * 1000]} |}.
Proof. repeat split; vm_compute; reflexivity. Qed.

(** C4. src/server.js at the failing input: [A] and [B] are matched and [A]
    reports [B].  In the file as it stands the report raises before the
    pairing is touched.  With the two maps declared, the report returns
    with the pairing in place and nobody notified: the teardown is in the
    branch taken at the tenth report only. *)
Theorem report_keeps_pairing_on_server_js :
  ServerJs.partners Scenario.met_js !! Scenario.A = Some Scenario.B ∧
  (∀ now : Z,
     ServerJs.step Scenario.met_js (Report Scenario.A now)
       = ServerJs.Uncaught (ServerJs.ReferenceError "reportCounts")) ∧
  (∀ now : Z, ∃ s',
     ServerJs.step Scenario.met_js_declared (Report Scenario.A now)
       = ServerJs.Done s' [] ∧
     ServerJs.partners s' !! Scenario.A = Some Scenario.B ∧
     ServerJs.partners s' !! Scenario.B = Some Scenario.A).
Proof.
  split; [vm_compute; reflexivity|]. split.
  - intros now. vm_compute. reflexivity.
  - intros now. eexists. split; [vm_compute; reflexivity|].
    split; vm_compute; reflexivity.
Qed.

(** C5, as stated, fails: once ten reporters have had the target banned, a
    new socket with the target's address and user agent gets "banned" and is
    closed, but its identity mapping has been registered by then. *)
Lemma ban_check_comes_first_fails :
  ¬ ban_check_comes_first Scenario.target_banned (js "sockT2") Scenario.hsT 5000.
Proof.
  intros H. destruct H as (_ & _ & Hid); [vm_compute; reflexivity|].
  apply (f_equal (λ m : gmap jsstr jsstr, m !! js "sockT2")) in Hid.
  vm_compute in Hid. discriminate Hid.
Qed.

(** C5, amended.  On connect the identity mapping of the new socket is
    registered first, and the ban check runs next, before consent is reset.
    In src/unnamed/part_000: with an unexpired ban on the derived identity
    the socket gets "banned" and is closed, no consent flag is set up for it
    and nothing else changes; with a ban entry that has expired the entry is
    purged on that check and the connection proceeds (consent reset,
    "need_agree").  In src/server.js, which keeps a set of banned
    identities with no expiry: an identity in the set gets "banned" and is
    closed in the same way. *)
Theorem connect_registers_identity_then_checks_ban :
  (∀ s id hs now until,
     Part000.reachable s →
     Part000.event_ok s (Connection id hs now) = true →
     Part000.tempBans s !! makeIdent hs = Some until →
     (now < until →
        Part000.step s (Connection id hs now)
          = (Part000.set_identBySocket
               (<[id := makeIdent hs]> (Part000.identBySocket s)) s,
             [SocketEmit id banned None; ForceClose id])) ∧
     (until ≤ now →
        Part000.step s (Connection id hs now)
          = (Part000.set_sockets (<[id := false]> (Part000.sockets s))
               (Part000.set_tempBans (delete (makeIdent hs) (Part000.tempBans s))
                  (Part000.set_identBySocket
                     (<[id := makeIdent hs]> (Part000.identBySocket s)) s)),
             [SocketEmit id need_agree None]))) ∧
  (∀ s id hs now,
     ServerJs.event_ok s (Connection id hs now) = true →
     makeIdent hs ∈ ServerJs.bannedIdents s →
     ServerJs.step s (Connection id hs now)
       = ServerJs.Done
           (ServerJs.set_identBySocket
              (<[id := makeIdent hs]> (ServerJs.identBySocket s)) s)
           [SocketEmit id banned None; ForceClose id]).
Proof.
  split.
  - intros s id hs now until Hs He Hban. simpl in *.
    apply andb_prop in He as [[_ Hfresh]%andb_prop _].
    apply negb_true_iff, has_false in Hfresh.
    pose proof (Part000.ok_bans _ (Part000Facts.reachable_state_ok _ Hs) _ _ Hban) as Hpos.
    split; intros Hnow.
    + by apply Part000Facts.connection_banned with until.
    + apply Part000Facts.connection_expired with until; [done|done|lia].
  - intros s id hs now He Hban. simpl in *.
    apply andb_prop in He as [_ Hfresh].
    apply negb_true_iff, has_false in Hfresh.
    unfold ServerJs.finish. by rewrite ServerJsFacts.sj_connection_banned.
Qed.

Lemma connect_registers_identity_then_checks_ban_witness :
  Part000.step Scenario.target_banned (Connection (js "sockT2") Scenario.hsT 5000)
    = (Part000.set_identBySocket
         (<[js "sockT2" := makeIdent Scenario.hsT]>
            (Part000.identBySocket Scenario.target_banned)) Scenario.target_banned,
       [SocketEmit (js "sockT2") banned None; ForceClose (js "sockT2")]) ∧
  Part000.tempBans
    (Part000.step Scenario.target_banned
       (Connection (js "sockT2") Scenario.hsT 90000000)).1 = ∅ ∧
  ServerJs.step Scenario.blocklisted (Connection (js "sockT2") Scenario.hsT 5000)
    = ServerJs.Done
        (ServerJs.set_identBySocket
           (<[js "sockT2" := makeIdent Scenario.hsT]>
              (ServerJs.identBySocket Scenario.blocklisted)) Scenario.blocklisted)
        [SocketEmit (js "sockT2") banned None; ForceClose (js "sockT2")].
Proof.
  split; [|split].
  - apply (proj1 connect_registers_identity_then_checks_ban
             Scenario.target_banned (js "sockT2") Scenario.hsT 5000 86402009).
    + apply Part000Facts.reachable_run; [constructor | vm_compute; reflexivity].
    + vm_compute. reflexivity.
    + vm_compute. reflexivity.
    + lia.
  - rewrite (proj2 (proj1 connect_registers_identity_then_checks_ban
             Scenario.target_banned (js "sockT2") Scenario.hsT 90000000 86402009
             ltac:(apply Part000Facts.reachable_run; [constructor | vm_compute; reflexivity])
             ltac:(vm_compute; reflexivity) ltac:(vm_compute; reflexivity))
             ltac:(lia)).
    vm_compute. reflexivity.
  - apply (proj2 connect_registers_identity_then_checks_ban
             Scenario.blocklisted (js "sockT2") Scenario.hsT 5000).
    + vm_compute. reflexivity.
    + apply (bool_decide_unpack
               (makeIdent Scenario.hsT ∈ ServerJs.bannedIdents Scenario.blocklisted)).
      vm_compute. exact I.
Defined.

(** C6, as stated, fails: [A] offers [B] a photo, then [B] stops; the offer
    is still pending for [B]. *)
Lemma stop_clears_offers_fails :
  ¬ stop_clears_offers Scenario.offered Scenario.B.
Proof.
  intros H. destruct H as (_ & _ & Hphoto & _); [vm_compute; reflexivity|].
  vm_compute in Hphoto. discriminate Hphoto.
Qed.

(** C6, amended.  In any reachable state of src/unnamed/part_000: after
    stop by a consenting id, and after disconnect of a connected id, the id
    is in neither the queue nor the registry, its former partner (if any) is
    out of the registry too and is sent "partner_left" exactly once;
    disconnect also removes the media offers pending for the id, whereas
    stop leaves every pending offer in place; and a second stop, or a second
    run of the disconnect teardown, finds nothing to do and notifies no
    partner. *)
Theorem teardown_on_stop_and_disconnect :
  ∀ s id,
    Part000.reachable s →
    (Part000.isAgreed s id = true →
       (id ∉ Part000.queue (Part000.step s (Stop id)).1) ∧
       Part000.partners (Part000.step s (Stop id)).1 !! id = None ∧
       (∀ p, Part000.partners s !! id = Some p →
          Part000.partners (Part000.step s (Stop id)).1 !! p = None) ∧
       ((Part000.step s (Stop id)).2 =
          match Part000.partners s !! id with
          | Some p => [RoomEmit p partner_left None; SocketEmit id stopped None]
          | None => [SocketEmit id stopped None]
          end) ∧
       Part000.pendingPhotos (Part000.step s (Stop id)).1 = Part000.pendingPhotos s ∧
       Part000.pendingVideos (Part000.step s (Stop id)).1 = Part000.pendingVideos s ∧
       Part000.step (Part000.step s (Stop id)).1 (Stop id)
         = ((Part000.step s (Stop id)).1, [SocketEmit id stopped None])) ∧
    (is_Some (Part000.sockets s !! id) →
       (id ∉ Part000.queue (Part000.step s (Disconnect id)).1) ∧
       Part000.partners (Part000.step s (Disconnect id)).1 !! id = None ∧
       (∀ p, Part000.partners s !! id = Some p →
          Part000.partners (Part000.step s (Disconnect id)).1 !! p = None) ∧
       ((Part000.step s (Disconnect id)).2 =
          match Part000.partners s !! id with
          | Some p => [RoomEmit p partner_left None]
          | None => []
          end) ∧
       Part000.pendingPhotos (Part000.step s (Disconnect id)).1 !! id = None ∧
       Part000.pendingVideos (Part000.step s (Disconnect id)).1 !! id = None ∧
       Part000.step (Part000.step s (Disconnect id)).1 (Disconnect id)
         = ((Part000.step s (Disconnect id)).1, []) ∧
       Part000.disconnect id (Part000.step s (Disconnect id)).1
         = ((Part000.step s (Disconnect id)).1, [])).
Proof.
  intros s id Hs. pose proof (Part000Facts.reachable_state_ok _ Hs) as Hok. split.
  - intros Hag. simpl. rewrite (Part000Facts.isAgreed_has _ _ Hag).
    destruct (Part000Facts.stop_spec id s Hok Hag) as (H1 & H2 & H3 & H4 & H5 & H6 & H7).
    split_and!; try done.
    assert (has (Part000.sockets (Part000.stop id s).1) id = true) as ->; [|done].
    rewrite (Part000Facts.stop_unfold _ _ Hag). simpl.
    destruct (Part000Facts.leave_rest id s) as (-> & _).
    by apply Part000Facts.isAgreed_has.
  - intros Hlive. simpl. rewrite (proj2 (has_true _ _) Hlive).
    destruct (Part000Facts.disconnect_spec id s Hok)
      as (H1 & H2 & H3 & H4 & H5 & H6 & H7 & H8 & H9).
    split_and!; try done.
    by rewrite (proj2 (has_false _ _) H8).
Qed.

Lemma teardown_on_stop_and_disconnect_witness :
  (Part000.step Scenario.offered (Stop Scenario.B)).2
    = [RoomEmit Scenario.A partner_left None; SocketEmit Scenario.B stopped None] ∧
  Part000.pendingPhotos (Part000.step Scenario.offered (Disconnect Scenario.B)).1
    !! Scenario.B = None.
Proof.
  pose proof (teardown_on_stop_and_disconnect Scenario.offered Scenario.B
    ltac:(apply Part000Facts.reachable_run; [constructor | vm_compute; reflexivity]))
    as [Hstop Hdisc].
  split.
  - destruct Hstop as (_ & _ & _ & Hout & _); [vm_compute; reflexivity|].
    rewrite Hout. vm_compute. reflexivity.
  - destruct Hdisc as (_ & _ & _ & _ & Hphoto & _); [|exact Hphoto].
    vm_compute. eexists. reflexivity.
Defined.

(** C7. In any reachable state of src/unnamed/part_000, for photo and for
    video alike: when a consenting sender paired with [r] makes an offer and
    then a second one before the first is resolved, the second replaces the
    first as the one offer pending for [r], with the notices of any offer
    and nothing else; the receiver's accept then removes the stored offer
    and delivers the payload of the second offer (and tells the sender). *)
Theorem second_offer_replaces_first :
  ∀ k s a r d1 d2,
    Part000.reachable s →
    Part000.isAgreed s a = true →
    Part000.partners s !! a = Some r →
    startsWith (media_prefix k) d1 = true →
    startsWith (media_prefix k) d2 = true →
    let s1 := (Part000.step s (MediaOffer k a (VStr d1))).1 in
    let s2 := (Part000.step s1 (MediaOffer k a (VStr d2))).1 in
    Part000.pending k s1 !! r = Some (Offer a d1) ∧
    (Part000.step s1 (MediaOffer k a (VStr d2))).2
      = [RoomEmit r (media_request k) None; SocketEmit a (media_sent k) None] ∧
    Part000.pending k s2 !! r = Some (Offer a d2) ∧
    Part000.step s2 (MediaAccept k r)
      = (Part000.set_pending k (delete r (Part000.pending k s2)) s2,
         [SocketEmit r (media_deliver k) (Some (DDataUrl d2));
          RoomEmit a message (Some (DStr (Part000.accepted_text k)))]) ∧
    Part000.pending k (Part000.step s2 (MediaAccept k r)).1 !! r = None.
Proof.
  intros k s a r d1 d2 Hs Hag Hp Hd1 Hd2.
  pose proof (Part000Facts.reachable_state_ok _ Hs) as Hok.
  pose proof (Part000Facts.isAgreed_has _ _ Hag) as Hlive.
  destruct (Part000Facts.state_ok_partner_truthy _ _ _ Hok Hp) as [Ta Tr].
  assert (Part000.isAgreed s r = true) as Hagr.
  { eapply Part000.ok_partners_agreed; [done|].
    by apply (registry_sym _ _ (Part000.ok_registry _ Hok)). }
  simpl. rewrite Hlive.
  rewrite (Part000Facts.media_offer_spec k a r d1 s Hok Hag Hp Hd1). simpl.
  set (s1 := Part000.set_pending k _ s).
  destruct (Part000Facts.set_pending_rest k
              (<[r := Offer a d1]> (Part000.pending k s)) s)
    as (_ & Hp1 & Hso1 & _).
  fold s1 in Hp1, Hso1.
  assert (Part000.state_ok s1) as Hok1 by (by apply Part000Facts.state_ok_set_pending).
  assert (Part000.isAgreed s1 a = true) as Hag1
    by (by rewrite (Part000Facts.isAgreed_eq _ _ _ Hso1)).
  rewrite Hso1, Hlive.
  rewrite (Part000Facts.media_offer_spec k a r d2 s1 Hok1 Hag1); [|by rewrite Hp1|done].
  simpl. set (s2 := Part000.set_pending k _ s1).
  destruct (Part000Facts.set_pending_rest k
              (<[r := Offer a d2]> (Part000.pending k s1)) s1)
    as (_ & _ & Hso2 & _).
  fold s2 in Hso2.
  assert (Part000.isAgreed s2 r = true) as Hag2.
  { by rewrite (Part000Facts.isAgreed_eq _ _ _ Hso2),
               (Part000Facts.isAgreed_eq _ _ _ Hso1). }
  assert (Part000.pending k s2 !! r = Some (Offer a d2)) as Hpend2.
  { unfold s2. by rewrite Part000Facts.pending_set_pending, lookup_insert_eq. }
  rewrite (Part000Facts.isAgreed_has _ _ Hag2).
  rewrite (Part000Facts.media_accept_spec k r _ s2 Hag2 Hpend2). simpl.
  rewrite (Part000Facts.emitTo_truthy a) by done.
  split_and!; try done.
  - unfold s1. by rewrite Part000Facts.pending_set_pending, lookup_insert_eq.
  - by rewrite Part000Facts.pending_set_pending, lookup_delete_eq.
Qed.

Lemma second_offer_replaces_first_witness :
  Part000.step
    (Part000.step (Part000.step Scenario.met (MediaOffer Photo Scenario.A (VStr Scenario.photo1))).1
       (MediaOffer Photo Scenario.A (VStr Scenario.photo2))).1
    (MediaAccept Photo Scenario.B)
  = (Part000.set_pending Photo ∅ Scenario.met,
     [SocketEmit Scenario.B (media_deliver Photo) (Some (DDataUrl Scenario.photo2));
      RoomEmit Scenario.A message (Some (DStr (Part000.accepted_text Photo)))]).
Proof.
  destruct (second_offer_replaces_first Photo Scenario.met Scenario.A Scenario.B
              Scenario.photo1 Scenario.photo2) as (_ & _ & _ & Hacc & _).
  - apply Part000Facts.reachable_run; [constructor | vm_compute; reflexivity].
  - vm_compute. reflexivity.
  - vm_compute. reflexivity.
  - vm_compute. reflexivity.
  - vm_compute. reflexivity.
  - rewrite Hacc. vm_compute. reflexivity.
Defined.


(** * Further properties *)

(** ** Identities, pairing and the ban check *)

Lemma or_else_Some_nil (ua : jsstr) : or_else (Some ua) [] = ua.
Proof. unfold or_else. by destruct ua. Qed.

(** X1. [makeIdent] only looks at the first 160 code units of the user
    agent: two handshakes with the same address whose user agents agree on
    these get the same identity. *)
Theorem makeIdent_truncates (a : option jsstr) (ua1 ua2 : jsstr) :
  take 160 ua1 = take 160 ua2 →
  makeIdent (Handshake a (Some ua1)) = makeIdent (Handshake a (Some ua2)).
Proof.
  intros H. unfold makeIdent. cbn [user_agent].
  rewrite !or_else_Some_nil. by rewrite H.
Qed.

Lemma makeIdent_truncates_witness :
  makeIdent (Handshake (Some (js "10.0.0.1")) (Some (replicate 160 65%N ++ js "x")))
  = makeIdent (Handshake (Some (js "10.0.0.1")) (Some (replicate 160 65%N ++ js "yz"))).
Proof. apply makeIdent_truncates. vm_compute. reflexivity. Defined.

(** X2. The identity is the address (or "unknown" when the address is
    missing or empty), then "::", then the first 160 code units at most of
    the user agent (none when the header is missing); it is never empty. *)
Theorem makeIdent_shape (hs : handshake) :
  ∃ ua,
    makeIdent hs = getIP hs ++ js "::" ++ ua ∧
    (length ua ≤ 160)%nat ∧
    ua `prefix_of` default [] (user_agent hs) ∧
    getIP hs = match address hs with
               | Some (c :: a) => c :: a
               | Some [] | None => js "unknown"
               end ∧
    (length (makeIdent hs) ≤ length (getIP hs) + 162)%nat.
Proof.
  exists (take 160 (or_else (user_agent hs) [])). split_and!.
  - done.
  - rewrite length_take. lia.
  - destruct (user_agent hs) as [ua|].
    + rewrite or_else_Some_nil. apply prefix_take.
    + done.
  - unfold getIP, or_else. by destruct (address hs) as [[|c a]|].
  - unfold makeIdent. rewrite !length_app, length_take.
    change (length (js "::")) with 2%nat. lia.
Qed.

(** X3. [unpair] undoes [pair] from either side: pairing two ids that are
    not in the registry and unpairing either of them gives the registry back. *)
Theorem unpair_pair (m : gmap jsstr jsstr) (a b : jsstr) :
  m !! a = None → m !! b = None → truthy a = true → truthy b = true →
  unpair a (pair a b m) = m ∧ unpair b (pair a b m) = m.
Proof.
  intros Ha Hb Ta Tb. unfold pair.
  destruct (decide (a = b)) as [->|Hab].
  - rewrite insert_insert_eq.
    assert (get_truthy (<[b:=b]> m) b = Some b) as Hg.
    { apply get_truthy_Some. by rewrite lookup_insert_eq. }
    rewrite (unpair_paired _ _ _ Hg), delete_delete_eq.
    split; by apply delete_insert_id.
  - split.
    + assert (get_truthy (<[b:=a]> (<[a:=b]> m)) a = Some b) as Hg.
      { apply get_truthy_Some. rewrite lookup_insert_ne by done.
        by rewrite lookup_insert_eq. }
      rewrite (unpair_paired _ _ _ Hg).
      rewrite delete_insert_id by (by rewrite lookup_insert_ne).
      by apply delete_insert_id.
    + assert (get_truthy (<[b:=a]> (<[a:=b]> m)) b = Some a) as Hg.
      { apply get_truthy_Some. by rewrite lookup_insert_eq. }
      rewrite (unpair_paired _ _ _ Hg).
      rewrite (insert_insert_ne m) by done.
      rewrite delete_insert_id by (by rewrite lookup_insert_ne).
      by apply delete_insert_id.
Qed.

Lemma unpair_pair_witness :
  unpair Scenario.A (pair Scenario.A Scenario.B ∅) = ∅ ∧
  unpair Scenario.B (pair Scenario.A Scenario.B ∅) = ∅.
Proof. apply unpair_pair; reflexivity. Defined.

(** X4. The ban check at a time [now] that is not negative answers "banned"
    exactly when an expiry later than [now] is stored for the identity; it
    then leaves the table as it is; it never touches the entry of another
    identity; when it answers "not banned" the table afterwards is the old
    one without the identity's entry, unless the stored expiry is 0; and a
    stored expiry of 0 is answered "not banned" and left in the table. *)
Theorem ban_check_reads_and_purges (now : Z) (ident : jsstr) (bans : gmap jsstr Z) :
  0 ≤ now →
  let r := Part000.isTemporarilyBanned now ident bans in
  (r.1 = true ↔ ∃ until, bans !! ident = Some until ∧ now < until) ∧
  (r.1 = true → r.2 = bans) ∧
  (∀ other, other ≠ ident → r.2 !! other = bans !! other) ∧
  (r.1 = false → bans !! ident ≠ Some 0 → r.2 = delete ident bans) ∧
  (bans !! ident = Some 0 → r = (false, bans)).
Proof.
  intros Hnow. unfold Part000.isTemporarilyBanned.
  destruct (bans !! ident) as [until|] eqn:E; simpl.
  - destruct (Z.ltb_spec now until) as [Hlt|Hge]; simpl.
    + split_and!; try done.
      * split; [by eauto|done].
      * intros [= ->]. lia.
    + destruct (Z.eqb_spec until 0) as [->|Hnz]; simpl.
      * split_and!; try done.
        split; [done|]. intros (u & [= <-] & ?). lia.
      * split_and!; try done.
        -- split; [done|]. intros (u & [= <-] & ?). lia.
        -- intros other Hne. by rewrite lookup_delete_ne.
        -- by intros [= ->].
  - destruct (Z.ltb_spec now 0) as [Hlt|Hge]; [lia|]. simpl.
    split_and!; try done.
    + split; [done|]. by intros (u & ? & ?).
    + intros _ _. by rewrite delete_id.
Qed.

Lemma ban_check_reads_and_purges_witness :
  (Part000.isTemporarilyBanned 5000 (js "i") {[js "i" := 9000; js "j" := 1]}).1 = true ∧
  (Part000.isTemporarilyBanned 9000 (js "i") {[js "i" := 9000; js "j" := 1]}).2
    = delete (js "i") {[js "i" := 9000; js "j" := 1]}.
Proof.
  split.
  - apply (ban_check_reads_and_purges 5000 (js "i") {[js "i" := 9000; js "j" := 1]});
      [lia|]. exists 9000. split; [vm_compute; reflexivity | lia].
  - destruct (ban_check_reads_and_purges 9000 (js "i") {[js "i" := 9000; js "j" := 1]})
      as (_ & _ & _ & Hpurge & _); [lia|].
    apply Hpurge; [vm_compute; reflexivity|vm_compute; discriminate].
Defined.

(** ** src/unnamed/part_000: consent *)

Module Part000More.
Import Part000 Part000Facts.

(** X5. While a connected socket has not consented, each of its find, stop,
    message, report and media events changes nothing and is answered with
    "need_agree" alone. *)
Theorem unconsented_event_refused s e id :
  gated e = Some id → sockets s !! id = Some false →
  step s e = (s, [SocketEmit id need_agree None]).
Proof.
  intros He Hs.
  assert (has (sockets s) id = true) as Hlive by (apply has_true; by eauto).
  assert (isAgreed s id = false) as Hag by (unfold isAgreed; by rewrite Hs).
  destruct e; simpl in He; try done; injection He as ->; simpl; rewrite Hlive.
  - unfold find_handler. by rewrite Hag.
  - unfold stop. by rewrite Hag.
  - unfold message_handler. by rewrite Hag.
  - unfold report. by rewrite Hag.
  - unfold media_offer. by rewrite Hag.
  - unfold media_accept. by rewrite Hag.
  - unfold media_decline. by rewrite Hag.
Qed.

Lemma unconsented_event_refused_witness :
  step Scenario2.connected (Find Scenario.A)
    = (Scenario2.connected, [SocketEmit Scenario.A need_agree None]).
Proof.
  apply unconsented_event_refused; [reflexivity | vm_compute; reflexivity].
Defined.

Lemma find_handler_sockets id s : sockets (find_handler id s).1 = sockets s.
Proof. unfold find_handler. repeat case_match; done. Qed.

Lemma stop_sockets id s : sockets (stop id s).1 = sockets s.
Proof.
  unfold stop. destruct (negb (isAgreed s id)); [done|].
  pose proof (leave_rest id s) as (H & _). by destruct (leave id s).
Qed.

Lemma message_handler_state id msg s : (message_handler id msg s).1 = s.
Proof. unfold message_handler. repeat case_match; done. Qed.

Lemma media_offer_sockets k id v s : sockets (media_offer k id v s).1 = sockets s.
Proof. unfold media_offer. repeat case_match; try done; by destruct k. Qed.

Lemma media_accept_sockets k id s : sockets (media_accept k id s).1 = sockets s.
Proof. unfold media_accept. repeat case_match; try done; by destruct k. Qed.

Lemma media_decline_sockets k id s : sockets (media_decline k id s).1 = sockets s.
Proof. unfold media_decline. repeat case_match; try done; by destruct k. Qed.

(** A report closes at most one socket: the reporter's partner. *)
Lemma report_sockets id now s :
  sockets (report id now s).1 = sockets s ∨
  ∃ p, get_truthy (partners s) id = Some p ∧ is_Some (sockets s !! p) ∧
       sockets (report id now s).1 = delete p (sockets s).
Proof.
  unfold report.
  destruct (negb (isAgreed s id)); [by left|].
  destruct (get_truthy (partners s) id) as [p|]; [|by left].
  destruct (get_truthy (identBySocket s) p) as [t|]; [|by left].
  destruct (get_truthy (identBySocket s) id) as [i|]; [|by left].
  case_bool_decide; [|by left].
  destruct (has _ p) eqn:Hlive; [|by left].
  match goal with
  | |- context [disconnect p ?s4] =>
      pose proof (disconnect_sockets p s4) as Hso;
      destruct (disconnect p s4) as [s5 o5]
  end.
  right. exists p. split; [done|]. split; [by apply has_true in Hlive|done].
Qed.

(** What one event can do to the entry of a socket in [sockets]. *)
Lemma step_sockets s e x :
  sockets (step s e).1 !! x = sockets s !! x ∨
  (is_Some (sockets s !! x) ∧ sockets (step s e).1 !! x = None) ∨
  (e = Agree x ∧ sockets (step s e).1 !! x = Some true) ∨
  (∃ hs now, e = Connection x hs now ∧
     (sockets (step s e).1 !! x = Some false ∨ sockets (step s e).1 !! x = None)).
Proof.
  destruct e as [id hs now|id|id|id|id|id msg|id now|k id v|k id|k id|id];
    simpl; try (destruct (has (sockets s) id) eqn:Hlive; [|by left]).
  - destruct (decide (x = id)) as [->|Hne].
    + right; right; right. exists hs, now. split; [done|].
      unfold connection. repeat case_match; simpl.
      * right. apply lookup_delete_eq.
      * left. apply lookup_insert_eq.
    + left. unfold connection. repeat case_match; simpl.
      * by rewrite lookup_delete_ne.
      * by rewrite lookup_insert_ne.
  - destruct (decide (x = id)) as [->|Hne].
    + right; right; left. split; [done|]. simpl. apply lookup_insert_eq.
    + left. simpl. by rewrite lookup_insert_ne.
  - left. by rewrite find_handler_sockets.
  - by left.
  - left. by rewrite stop_sockets.
  - left. by rewrite message_handler_state.
  - destruct (report_sockets id now s) as [->|(p & _ & Hp & ->)]; [by left|].
    destruct (decide (x = p)) as [->|Hne].
    + right; left. split; [done|apply lookup_delete_eq].
    + left. by rewrite lookup_delete_ne.
  - left. by rewrite media_offer_sockets.
  - left. by rewrite media_accept_sockets.
  - left. by rewrite media_decline_sockets.
  - rewrite disconnect_sockets. destruct (decide (x = id)) as [->|Hne].
    + right; left. split; [by apply has_true|apply lookup_delete_eq].
    + left. by rewrite lookup_delete_ne.
Qed.

(** X6. Consent is granted by the socket's own agree event and by nothing
    else: if a socket has not consented before an event and has consented
    after it, the event is that socket's agree. *)
Theorem consent_granted_only_by_agree s e x :
  isAgreed s x = false → isAgreed (step s e).1 x = true → e = Agree x.
Proof.
  intros Hbefore Hafter. unfold isAgreed in *.
  destruct (step_sockets s e x) as [H|[[_ H]|[[-> _]|(hs & now & _ & [H|H])]]];
    try done; rewrite H in Hafter; try done.
  by rewrite Hbefore in Hafter.
Qed.

Lemma consent_granted_only_by_agree_witness :
  isAgreed Scenario2.connected Scenario.A = false ∧
  isAgreed (step Scenario2.connected (Agree Scenario.A)).1 Scenario.A = true ∧
  Agree Scenario.A = Agree Scenario.A.
Proof.
  split; [vm_compute; reflexivity|]. split; [vm_compute; reflexivity|].
  apply (consent_granted_only_by_agree Scenario2.connected (Agree Scenario.A) Scenario.A);
    vm_compute; reflexivity.
Defined.

Lemma step_isAgreed_kept s e x :
  event_ok s e = true → isAgreed s x = true →
  isAgreed (step s e).1 x = true ∨ sockets (step s e).1 !! x = None.
Proof.
  intros He Hag. pose proof (isAgreed_live _ _ Hag) as Hlive.
  destruct (step_sockets s e x) as [H|[[_ H]|[[-> H]|(hs & now & -> & _)]]].
  - left. unfold isAgreed in *. by rewrite H.
  - by right.
  - left. unfold isAgreed. by rewrite H.
  - simpl in He. apply andb_prop in He as [[_ Hfresh]%andb_prop _].
    apply negb_true_iff, has_false in Hfresh. rewrite Hfresh in Hlive.
    by destruct Hlive.
Qed.

(** X7. Consent, once given, lasts for the life of the connection: after any
    event the transport can deliver, a socket that had consented has still
    consented, or is no longer connected. *)
Theorem consent_lasts_while_connected s e x :
  event_ok s e = true → isAgreed s x = true →
  isAgreed (step s e).1 x = true ∨ sockets (step s e).1 !! x = None.
Proof. apply step_isAgreed_kept. Qed.

Lemma consent_lasts_while_connected_witness :
  isAgreed (step Scenario.met (Stop Scenario.B)).1 Scenario.A = true ∨
  sockets (step Scenario.met (Stop Scenario.B)).1 !! Scenario.A = None.
Proof.
  apply consent_lasts_while_connected; vm_compute; reflexivity.
Defined.

(** ** src/unnamed/part_000: the queue in reachable states *)

Lemma state_ok_queue_truthy s x : state_ok s → x ∈ queue s → truthy x = true.
Proof.
  intros Hok Hx. by eapply ok_socket_ids, isAgreed_live, ok_queue_agreed.
Qed.

(** In a state the server can be in, the entry at the head of the queue is
    never passed over: find takes it. *)
Lemma find_handler_reachable id s :
  state_ok s → isAgreed s id = true →
  partners s !! id = None → id ∉ queue s →
  find_handler id s =
    match queue s with
    | [] => (set_queue [id] s, [SocketEmit id searching None])
    | x :: rest =>
        (set_partners (pair id x (partners s)) (set_queue rest s),
         [SocketEmit id matched None; RoomEmit x matched None])
    end.
Proof.
  intros Hok Hag Hp Hnq. unfold find_handler. rewrite Hag. simpl.
  rewrite (proj2 (has_false _ _) Hp), bool_decide_eq_false_2 by done.
  destruct (queue s) as [|x rest] eqn:Hq; [done|]. simpl.
  assert (x ∈ queue s) as Hx by (rewrite Hq; by apply elem_of_cons; left).
  rewrite (state_ok_queue_truthy _ _ Hok Hx). simpl.
  destruct (decide (x = id)) as [->|Hne].
  { exfalso. apply Hnq. by apply elem_of_cons; left. }
  rewrite (proj2 (has_false _ _) (registry_queue_unpaired _ _ (ok_registry _ Hok) _ Hx)).
  by rewrite (emitTo_truthy x) by (by eapply state_ok_queue_truthy).
Qed.

Lemma leave_queue_length id s : (length (queue (leave id s).1) ≤ length (queue s))%nat.
Proof. rewrite leave_queue. apply length_filter. Qed.

Lemma report_queue id now s :
  queue (report id now s).1 = queue s ∨
  ∃ p, queue (report id now s).1 = filter (λ x, x ≠ p) (queue s).
Proof.
  unfold report.
  destruct (negb (isAgreed s id)); [by left|].
  destruct (get_truthy (partners s) id) as [p|]; [|by left].
  destruct (get_truthy (identBySocket s) p) as [t|]; [|by left].
  destruct (get_truthy (identBySocket s) id) as [i|]; [|by left].
  case_bool_decide; [|by left].
  destruct (has _ p) eqn:Hlive; [|by left].
  match goal with
  | |- context [disconnect p ?s4] =>
      pose proof (disconnect_queue p s4) as Hq;
      pose proof (leave_queue p s4) as Hq';
      destruct (disconnect p s4) as [s5 o5]
  end.
  right. exists p. simpl in *. by rewrite Hq, Hq'.
Qed.

Lemma find_queue_short id s :
  state_ok s → (length (queue s) ≤ 1)%nat →
  (length (queue (find_handler id s).1) ≤ 1)%nat.
Proof.
  intros Hok Hlen.
  destruct (isAgreed s id) eqn:Hag; [|unfold find_handler; by rewrite Hag].
  destruct (partners s !! id) as [p|] eqn:Hp.
  { rewrite find_handler_noop; [done..|]. left. by eauto. }
  destruct (decide (id ∈ queue s)) as [Hin|Hnin].
  { rewrite find_handler_noop; [done..|]. by right. }
  rewrite (find_handler_reachable id s Hok Hag Hp Hnin).
  destruct (queue s) as [|x rest]; simpl in *; [done|lia].
Qed.

Lemma step_queue_short s e :
  state_ok s → (length (queue s) ≤ 1)%nat → (length (queue (step s e).1) ≤ 1)%nat.
Proof.
  intros Hok Hlen.
  destruct e as [id hs now|id|id|id|id|id msg|id now|k id v|k id|k id|id];
    simpl; try done; try (destruct (has (sockets s) id) eqn:Hlive; [|done]).
  - unfold connection. repeat case_match; done.
  - done.
  - by apply find_queue_short.
  - unfold stop. destruct (negb (isAgreed s id)); [done|].
    pose proof (leave_queue_length id s). destruct (leave id s). simpl in *. lia.
  - by rewrite message_handler_state.
  - destruct (report_queue id now s) as [->|[p ->]]; [done|].
    pose proof (length_filter (λ x, x ≠ p) (queue s)). lia.
  - unfold media_offer. repeat case_match; try done; by destruct k.
  - unfold media_accept. repeat case_match; try done; by destruct k.
  - unfold media_decline. repeat case_match; try done; by destruct k.
  - rewrite disconnect_queue. pose proof (leave_queue_length id s). lia.
Qed.

Lemma reachable_queue_short s : reachable s → (length (queue s) ≤ 1)%nat.
Proof.
  induction 1 as [|s e Hs IH He]; [simpl; lia|].
  apply step_queue_short; [|done]. by apply reachable_state_ok.
Qed.

(** X8. In every reachable state at most one visitor is waiting, and the
    next find by anyone else takes that visitor: a consenting caller that is
    neither paired nor queued is queued alone when the queue is empty, and
    otherwise is matched with the one waiting visitor, leaving the queue
    empty. *)
Theorem waiting_visitor_is_matched_next s id :
  reachable s → isAgreed s id = true →
  partners s !! id = None → id ∉ queue s →
  (queue s = [] ∧
   step s (Find id) = (set_queue [id] s, [SocketEmit id searching None])) ∨
  (∃ x, queue s = [x] ∧ x ≠ id ∧
     step s (Find id)
       = (set_partners (<[x := id]> (<[id := x]> (partners s))) (set_queue [] s),
          [SocketEmit id matched None; RoomEmit x matched None])).
Proof.
  intros Hs Hag Hp Hnq. pose proof (reachable_state_ok _ Hs) as Hok.
  pose proof (reachable_queue_short _ Hs) as Hlen.
  simpl. rewrite (isAgreed_has _ _ Hag).
  rewrite (find_handler_reachable id s Hok Hag Hp Hnq).
  destruct (queue s) as [|x [|y rest]] eqn:Hq; simpl in Hlen; [by left| |lia].
  right. exists x. split; [done|]. split; [|done].
  intros ->. apply Hnq. by apply elem_of_cons; left.
Qed.

Lemma waiting_visitor_is_matched_next_witness :
  (queue Scenario.waiting = [] ∧
   step Scenario.waiting (Find Scenario.B)
     = (set_queue [Scenario.B] Scenario.waiting, [SocketEmit Scenario.B searching None])) ∨
  (∃ x, queue Scenario.waiting = [x] ∧ x ≠ Scenario.B ∧
     step Scenario.waiting (Find Scenario.B)
       = (set_partners (<[x := Scenario.B]> (<[Scenario.B := x]> (partners Scenario.waiting)))
            (set_queue [] Scenario.waiting),
          [SocketEmit Scenario.B matched None; RoomEmit x matched None])).
Proof.
  apply waiting_visitor_is_matched_next.
  - apply reachable_run; [constructor | vm_compute; reflexivity].
  - vm_compute. reflexivity.
  - vm_compute. reflexivity.
  - apply (bool_decide_unpack (Scenario.B ∉ queue Scenario.waiting)).
    vm_compute. exact I.
Defined.

(** X9. Find is idempotent: for a consenting socket in a reachable state, a
    second find right after the first changes nothing and emits nothing. *)
Theorem find_twice_is_find_once s id :
  reachable s → isAgreed s id = true →
  step (step s (Find id)).1 (Find id) = ((step s (Find id)).1, []).
Proof.
  intros Hs Hag. pose proof (reachable_state_ok _ Hs) as Hok.
  set (s1 := (step s (Find id)).1).
  assert (isAgreed s1 id = true) as Hag1.
  { unfold s1. simpl. rewrite (isAgreed_has _ _ Hag).
    by rewrite (isAgreed_eq _ _ _ (find_handler_sockets id s)). }
  assert (is_Some (partners s1 !! id) ∨ id ∈ queue s1) as Hin.
  { unfold s1. simpl. rewrite (isAgreed_has _ _ Hag).
    destruct (partners s !! id) as [p|] eqn:Hp.
    { rewrite find_handler_noop; [|done|left; by eauto]. left. simpl. by eauto. }
    destruct (decide (id ∈ queue s)) as [Hq|Hq].
    { rewrite find_handler_noop; [|done|by right]. by right. }
    rewrite (find_handler_reachable id s Hok Hag Hp Hq).
    destruct (queue s) as [|x rest]; simpl.
    - right. by apply list_elem_of_singleton.
    - left. unfold pair. destruct (decide (x = id)) as [->|Hne].
      + rewrite lookup_insert_eq. by eauto.
      + rewrite lookup_insert_ne by done. rewrite lookup_insert_eq. by eauto. }
  simpl. rewrite (isAgreed_has _ _ Hag1). by apply find_handler_noop.
Qed.

Lemma find_twice_is_find_once_witness :
  step (step Scenario.waiting (Find Scenario.B)).1 (Find Scenario.B)
    = ((step Scenario.waiting (Find Scenario.B)).1, []).
Proof.
  apply find_twice_is_find_once.
  - apply reachable_run; [constructor | vm_compute; reflexivity].
  - vm_compute. reflexivity.
Defined.

(** ** src/unnamed/part_000: media offers *)

Lemma startsWith_app (p s : jsstr) : startsWith p s = true → ∃ t, s = p ++ t.
Proof.
  revert s. induction p as [|a p IH]; intros s; simpl.
  - intros _. by exists s.
  - destruct s as [|b s]; [done|].
    destruct (decide (a = b)) as [->|]; [|done].
    intros [t ->]%IH. by exists t.
Qed.

Lemma media_tags_exclusive k k' (d : jsstr) :
  startsWith (media_prefix k) d = true → k' ≠ k →
  startsWith (media_prefix k') d = false.
Proof.
  intros [t ->]%startsWith_app Hk. destruct k, k'; try done; vm_compute; reflexivity.
Qed.

(** X10. A media offer by a consenting socket is taken only if the sender has
    a partner and the payload is a string that starts with the type tag of
    the flow; every other offer changes nothing and emits nothing.  A
    payload taken as a photo is therefore dropped as a video, and the other
    way round. *)
Theorem offer_taken_only_with_its_tag s k id v :
  isAgreed s id = true →
  step s (MediaOffer k id v) ≠ (s, []) →
  ∃ r d,
    partners s !! id = Some r ∧ v = VStr d ∧
    startsWith (media_prefix k) d = true ∧
    pending k (step s (MediaOffer k id v)).1 !! r = Some (Offer id d) ∧
    ∀ k', k' ≠ k → step s (MediaOffer k' id v) = (s, []).
Proof.
  intros Hag. simpl. rewrite (isAgreed_has _ _ Hag).
  unfold media_offer at 1 2. rewrite Hag. simpl.
  destruct (get_truthy (partners s) id) as [r|] eqn:Hr; [|done].
  destruct v as [d|]; [|done].
  destruct (startsWith (media_prefix k) d) eqn:Hd; [|done]. simpl. intros _.
  apply get_truthy_Some in Hr as [Hr _].
  exists r, d. split_and!; try done.
  - by rewrite pending_set_pending, lookup_insert_eq.
  - intros k' Hk. unfold media_offer. rewrite Hag. simpl.
    destruct (get_truthy (partners s) id); [|done].
    by rewrite (media_tags_exclusive k k' d Hd Hk).
Qed.

Lemma offer_taken_only_with_its_tag_witness :
  ∃ r d,
    partners Scenario.met !! Scenario.A = Some r ∧ VStr Scenario.photo1 = VStr d ∧
    startsWith (media_prefix Photo) d = true ∧
    pending Photo (step Scenario.met (MediaOffer Photo Scenario.A (VStr Scenario.photo1))).1 !! r
      = Some (Offer Scenario.A d) ∧
    ∀ k', k' ≠ Photo →
      step Scenario.met (MediaOffer k' Scenario.A (VStr Scenario.photo1)) = (Scenario.met, []).
Proof.
  apply offer_taken_only_with_its_tag.
  - vm_compute. reflexivity.
  - vm_compute. discriminate.
Defined.

(** What a report does to the maps keyed by connection id: nothing, or the
    removal of the partner from all of them. *)
Lemma report_maps id now s :
  (sockets (report id now s).1 = sockets s ∧
   identBySocket (report id now s).1 = identBySocket s ∧
   ∀ k, pending k (report id now s).1 = pending k s) ∨
  (∃ p, is_Some (sockets s !! p) ∧
     sockets (report id now s).1 = delete p (sockets s) ∧
     identBySocket (report id now s).1 = delete p (identBySocket s) ∧
     ∀ k, pending k (report id now s).1 = delete p (pending k s)).
Proof.
  unfold report.
  destruct (negb (isAgreed s id)); [by left|].
  destruct (get_truthy (partners s) id) as [p|]; [|by left].
  destruct (get_truthy (identBySocket s) p) as [t|]; [|by left].
  destruct (get_truthy (identBySocket s) id) as [i|]; [|by left].
  case_bool_decide; [|left; split_and!; try done; by intros []].
  destruct (has _ p) eqn:Hlive; [|left; split_and!; try done; by intros []].
  right. exists p. rewrite disconnect_unfold. unfold leave. simpl.
  split; [by apply has_true in Hlive|].
  destruct (get_truthy _ p); simpl; split_and!; try done; by intros [].
Qed.

(** Where an offer pending after an event comes from: it was pending
    before, or the event is the offer that stores it. *)
Lemma step_pending_origin s e k r o :
  pending k (step s e).1 !! r = Some o →
  pending k s !! r = Some o ∨
  (∃ id d, e = MediaOffer k id (VStr d) ∧ isAgreed s id = true ∧
     get_truthy (partners s) id = Some r ∧ o = Offer id d).
Proof.
  destruct e as [id hs now|id|id|id|id|id msg|id now|k' id v|k' id|k' id|id];
    simpl; try (destruct (has (sockets s) id) eqn:Hlive; [|by left]).
  - unfold connection. repeat case_match; destruct k; simpl; by left.
  - unfold agree. destruct k; simpl; by left.
  - unfold find_handler. repeat case_match; destruct k; simpl; by left.
  - by left.
  - unfold stop. destruct (negb (isAgreed s id)); [by left|].
    pose proof (leave_pending k id s). destruct (leave id s). simpl in *.
    left. congruence.
  - rewrite message_handler_state. by left.
  - destruct (report_maps id now s) as [(_ & _ & H)|(p & _ & _ & _ & H)]; rewrite H.
    + by left.
    + intros [_ ?]%lookup_delete_Some. by left.
  - unfold media_offer. destruct (isAgreed s id) eqn:Hag; simpl; [|by left].
    destruct (get_truthy (partners s) id) as [r'|] eqn:Hr; [|by left].
    destruct v as [d|]; [|by left].
    destruct (startsWith (media_prefix k') d); simpl; [|by left].
    destruct (decide (k = k')) as [->|Hk]; [|rewrite pending_set_pending_ne by done; by left].
    rewrite pending_set_pending. destruct (decide (r = r')) as [->|Hne].
    + rewrite lookup_insert_eq. intros [= <-]. right. by exists id, d.
    + rewrite lookup_insert_ne by done. by left.
  - unfold media_accept. repeat case_match; simpl; try (by left).
    destruct (decide (k = k')) as [->|Hk]; [|rewrite pending_set_pending_ne by done; by left].
    rewrite pending_set_pending. intros [_ ?]%lookup_delete_Some. by left.
  - unfold media_decline. repeat case_match; simpl; try (by left).
    destruct (decide (k = k')) as [->|Hk]; [|rewrite pending_set_pending_ne by done; by left].
    rewrite pending_set_pending. intros [_ ?]%lookup_delete_Some. by left.
  - rewrite disconnect_pending. intros [_ ?]%lookup_delete_Some. by left.
Qed.

(** An event that takes a connected socket out of [sockets] also deletes
    what is pending for it. *)
Lemma step_gone_pending s e k r :
  event_ok s e = true → is_Some (sockets s !! r) →
  sockets (step s e).1 !! r = None → pending k (step s e).1 !! r = None.
Proof.
  intros He [v Hr].
  destruct e as [id hs now|id|id|id|id|id msg|id now|k' id v'|k' id|k' id|id];
    simpl in *; try (destruct (has (sockets s) id) eqn:Hlive; [|simpl; congruence]).
  - apply andb_prop in He as [[_ Hfresh]%andb_prop _].
    apply negb_true_iff, has_false in Hfresh.
    unfold connection. repeat case_match; simpl.
    + rewrite lookup_delete_None. intros [->|?]; congruence.
    + rewrite lookup_insert_None. intros [? ?]; congruence.
  - unfold agree. simpl. rewrite lookup_insert_None. intros [? ?]; congruence.
  - rewrite find_handler_sockets. congruence.
  - congruence.
  - rewrite stop_sockets. congruence.
  - rewrite message_handler_state. congruence.
  - destruct (report_maps id now s) as [(-> & _ & _)|(p & _ & -> & _ & ->)];
      [congruence|].
    rewrite !lookup_delete_None. intros [->|?]; [by left|congruence].
  - rewrite media_offer_sockets. congruence.
  - rewrite media_accept_sockets. congruence.
  - rewrite media_decline_sockets. congruence.
  - rewrite disconnect_sockets, disconnect_pending.
    rewrite !lookup_delete_None. intros [->|?]; [by left|congruence].
Qed.

Lemma step_pending_ok s e :
  state_ok s → event_ok s e = true → pending_ok s → pending_ok (step s e).1.
Proof.
  intros Hok He Hpo k r o Ho.
  destruct (step_pending_origin s e k r o Ho) as [Hold|(id & d & -> & Hag & Hg & ->)].
  - destruct (Hpo k r o Hold) as [Hagr Hne]. split; [|done].
    destruct (step_isAgreed_kept s e r He Hagr) as [|Hgone]; [done|].
    rewrite (step_gone_pending s e k r He (isAgreed_live _ _ Hagr) Hgone) in Ho.
    done.
  - apply get_truthy_Some in Hg as [Hp _]. simpl in *.
    rewrite (isAgreed_has _ _ Hag). split.
    + rewrite (isAgreed_eq _ _ _ (media_offer_sockets k id (VStr d) s)).
      eapply ok_partners_agreed; [done|].
      by apply (registry_sym _ _ (ok_registry _ Hok)).
    + intros ->. by apply (registry_irrefl _ _ (ok_registry _ Hok) r).
Qed.

Lemma reachable_pending_ok s : reachable s → pending_ok s.
Proof.
  induction 1 as [|s e Hs IH He].
  - intros k r o. destruct k; simpl; by rewrite lookup_empty.
  - apply step_pending_ok; [by apply reachable_state_ok|done..].
Qed.

(** X11. In every reachable state a media offer is pending only for a receiver
    that is connected and has consented, and it never comes from the
    receiver itself: the disconnect handler leaves no offer behind for a
    socket that is gone. *)
Theorem pending_offers_have_live_receivers s k r o :
  reachable s → pending k s !! r = Some o →
  sockets s !! r = Some true ∧ fromSocketId o ≠ r.
Proof.
  intros Hs Ho. destruct (reachable_pending_ok s Hs k r o Ho) as [Hag Hne].
  split; [|done]. by apply isAgreed_lookup.
Qed.

Lemma pending_offers_have_live_receivers_witness :
  sockets Scenario.offered !! Scenario.B = Some true ∧
  fromSocketId (Offer Scenario.A Scenario.photo1) ≠ Scenario.B.
Proof.
  apply (pending_offers_have_live_receivers Scenario.offered Photo).
  - apply reachable_run; [constructor | vm_compute; reflexivity].
  - vm_compute. reflexivity.
Defined.

(** ** src/unnamed/part_000: identities, bans and teardown *)

Lemma step_identBySocket s e x :
  event_ok s e = true →
  is_Some (sockets s !! x) → is_Some (sockets (step s e).1 !! x) →
  identBySocket (step s e).1 !! x = identBySocket s !! x.
Proof.
  intros He Hx.
  destruct e as [id hs now|id|id|id|id|id msg|id now|k' id v'|k' id|k' id|id];
    simpl in *; try (destruct (has (sockets s) id) eqn:Hlive; [|done]).
  - apply andb_prop in He as [[_ Hfresh]%andb_prop _].
    apply negb_true_iff, has_false in Hfresh.
    assert (x ≠ id) as Hne by (intros ->; rewrite Hfresh in Hx; by destruct Hx).
    intros _. unfold connection. repeat case_match; simpl; by rewrite lookup_insert_ne.
  - done.
  - intros _. unfold find_handler. repeat case_match; done.
  - done.
  - intros _. unfold stop. destruct (negb (isAgreed s id)); [done|].
    pose proof (leave_rest id s) as (_ & H & _). destruct (leave id s). simpl in *.
    by rewrite H.
  - by rewrite message_handler_state.
  - destruct (report_maps id now s) as [(_ & -> & _)|(p & _ & -> & -> & _)]; [done|].
    intros [? [? _]%lookup_delete_Some]. by rewrite lookup_delete_ne.
  - intros _. unfold media_offer. repeat case_match; try done; by destruct k'.
  - intros _. unfold media_accept. repeat case_match; try done; by destruct k'.
  - intros _. unfold media_decline. repeat case_match; try done; by destruct k'.
  - rewrite disconnect_sockets, disconnect_unfold. simpl.
    pose proof (leave_rest id s) as (_ & -> & _).
    intros [? [? _]%lookup_delete_Some]. by rewrite lookup_delete_ne.
Qed.

(** X12. The identity of a connection is fixed when it connects and does not
    change while it stays connected: connecting registers [makeIdent] of the
    handshake, and no event the transport can deliver changes the identity
    of a socket that is connected before and after it. *)
Theorem identity_fixed_for_connection s :
  reachable s →
  (∀ id hs now,
     identBySocket (step s (Connection id hs now)).1 !! id = Some (makeIdent hs)) ∧
  (∀ e x, event_ok s e = true →
     is_Some (sockets s !! x) → is_Some (sockets (step s e).1 !! x) →
     ∃ i, identBySocket s !! x = Some i ∧ identBySocket (step s e).1 !! x = Some i).
Proof.
  intros Hs. split.
  - intros id hs now. simpl. unfold connection. repeat case_match; simpl;
      apply lookup_insert_eq.
  - intros e x He Hx Hx'.
    destruct (ok_idents _ (reachable_state_ok _ Hs) x Hx) as (i & Hi & _).
    exists i. split; [done|]. by rewrite step_identBySocket.
Qed.

Lemma identity_fixed_for_connection_witness :
  ∃ i, identBySocket Scenario.met !! Scenario.A = Some i ∧
       identBySocket (step Scenario.met (Report Scenario.A 5000)).1 !! Scenario.A = Some i.
Proof.
  apply (proj2 (identity_fixed_for_connection Scenario.met
           ltac:(apply reachable_run; [constructor | vm_compute; reflexivity]))).
  - vm_compute. reflexivity.
  - vm_compute. eexists. reflexivity.
  - vm_compute. eexists. reflexivity.
Defined.

Lemma run_cons s e es : (run s (e :: es)).1 = (run (step s e).1 es).1.
Proof.
  cbn [run]. destruct (step s e) as [s1 o1]. cbn [fst]. by destruct (run s1 es).
Qed.

Lemma disconnect_tempBans id s : tempBans (disconnect id s).1 = tempBans s.
Proof.
  rewrite disconnect_unfold. simpl.
  by pose proof (leave_rest id s) as (_ & _ & _ & -> & _).
Qed.

Lemma connection_tempBans id hs now s :
  tempBans (connection id hs now s).1
  = (isTemporarilyBanned now (makeIdent hs) (tempBans s)).2.
Proof.
  unfold connection. simpl.
  destruct (isTemporarilyBanned now (makeIdent hs) (tempBans s)) as [[|] bans]; done.
Qed.

Lemma report_tempBans id now s :
  tempBans (report id now s).1 = tempBans s ∨
  ∃ t, tempBans (report id now s).1 = <[t := now + BAN_MS]> (tempBans s).
Proof.
  unfold report.
  destruct (negb (isAgreed s id)); [by left|].
  destruct (get_truthy (partners s) id) as [p|]; [|by left].
  destruct (get_truthy (identBySocket s) p) as [t|]; [|by left].
  destruct (get_truthy (identBySocket s) id) as [i|]; [|by left].
  case_bool_decide; [|by left].
  right. exists t.
  match goal with
  | |- context [has (sockets ?s4) p] =>
      destruct (has (sockets s4) p); [|done];
      pose proof (disconnect_tempBans p s4) as Hd;
      destruct (disconnect p s4) as [s5 o5]
  end.
  simpl in *. by rewrite Hd.
Qed.

Lemma step_tempBans_quiet s e :
  clock e = None → tempBans (step s e).1 = tempBans s.
Proof.
  destruct e as [id hs now|id|id|id|id|id msg|id now|k id v|k id|k id|id];
    simpl; try done; intros _;
    try (destruct (has (sockets s) id) eqn:Hlive; [|done]).
  - unfold agree. by destruct (sockets s !! id).
  - unfold find_handler. repeat case_match; done.
  - unfold stop. destruct (negb (isAgreed s id)); [done|].
    pose proof (leave_rest id s) as (_ & _ & _ & H & _).
    destruct (leave id s). simpl in *. done.
  - by rewrite message_handler_state.
  - unfold media_offer. repeat case_match; try done; by destruct k.
  - unfold media_accept. repeat case_match; try done; by destruct k.
  - unfold media_decline. repeat case_match; try done; by destruct k.
  - apply disconnect_tempBans.
Qed.

(** A ban that ends at [lo] or later is still there, ending at [lo] or
    later, after an event whose clock reads less than [lo] and, for a
    report, at least [lo] - 24 h; only a report can have moved its end. *)
Lemma step_ban_kept t lo s e u :
  tempBans s !! t = Some u → lo ≤ u →
  clocks_within (lo - BAN_MS) lo [e] = true →
  ∃ u', tempBans (step s e).1 !! t = Some u' ∧ lo ≤ u' ∧
        (is_report e = false → u' = u).
Proof.
  intros Hu Hle Hc. unfold clocks_within in Hc. simpl in Hc.
  destruct (clock e) as [n|] eqn:Hclock.
  - apply andb_prop in Hc as [[Hlo Hhi]%andb_prop _].
    apply Z.leb_le in Hlo. apply Z.ltb_lt in Hhi.
    destruct e as [id hs now|id|id|id|id|id msg|id now|k id v|k id|k id|id];
      simpl in Hclock; try done; injection Hclock as ->.
    + change (step s (Connection id hs n)) with (connection id hs n s).
      rewrite connection_tempBans. unfold isTemporarilyBanned.
      destruct (decide (makeIdent hs = t)) as [->|Hne].
      * rewrite Hu. simpl. rewrite (proj2 (Z.ltb_lt n u)) by lia.
        by exists u.
      * exists u. split; [|done].
        destruct (n <? _); [done|]. destruct (_ =? 0); [done|].
        simpl. by rewrite lookup_delete_ne.
    + simpl. destruct (has (sockets s) id); [|by exists u].
      destruct (report_tempBans id n s) as [->|[t' ->]]; [by exists u|].
      destruct (decide (t' = t)) as [->|Hne].
      * rewrite lookup_insert_eq. exists (n + BAN_MS). split; [done|].
        split; [lia|done].
      * rewrite lookup_insert_ne by done. by exists u.
  - rewrite (step_tempBans_quiet s e Hclock). exists u. split; [done|].
    split; [done|]. done.
Qed.

Lemma run_ban_kept t lo es s u :
  tempBans s !! t = Some u → lo ≤ u →
  clocks_within (lo - BAN_MS) lo es = true →
  ∃ u', tempBans (run s es).1 !! t = Some u' ∧ lo ≤ u' ∧
        (forallb (λ e, negb (is_report e)) es = true → u' = u).
Proof.
  revert s u. induction es as [|e es IH]; intros s u Hu Hle Hc.
  - by exists u.
  - rewrite run_cons.
    assert (clocks_within (lo - BAN_MS) lo [e] = true ∧
            clocks_within (lo - BAN_MS) lo es = true) as [Hc1 Hc2].
    { unfold clocks_within in *. simpl in *.
      apply andb_prop in Hc as [-> ->]. done. }
    destruct (step_ban_kept t lo s e u Hu Hle Hc1) as (u1 & Hu1 & Hle1 & Hsame1).
    destruct (IH _ _ Hu1 Hle1 Hc2) as (u2 & Hu2 & Hle2 & Hsame2).
    exists u2. split; [done|]. split; [done|].
    simpl. intros [Hr Hrs]%andb_prop. apply negb_true_iff in Hr.
    rewrite (Hsame2 Hrs). by apply Hsame1.
Qed.

(** X13. Once the tenth distinct reporter has reported a target at time
    [now], the target's identity stays banned for 24 hours at least:
    after any events whose clocks read from [now] up to [now] + 24 h, a ban
    is stored for the identity that ends at [now] + 24 h or later, and at
    [now] + 24 h exactly if there was no further report; a new connection
    with the identity is refused whenever it comes before the stored end,
    and is let in, the ban entry purged, when it comes at the stored end or
    later. *)
Theorem banned_identity_refused_until_expiry s id now p t r es :
  reachable s → 0 < now →
  isAgreed s id = true → partners s !! id = Some p →
  identBySocket s !! p = Some t → identBySocket s !! id = Some r →
  r ∉ default ∅ (reportVotes s !! t) →
  size (default ∅ (reportVotes s !! t)) = 9%nat →
  clocks_within now (now + BAN_MS) es = true →
  let s' := (run (step s (Report id now)).1 es).1 in
  ∃ until,
    tempBans s' !! t = Some until ∧
    now + BAN_MS ≤ until ∧
    (forallb (λ e, negb (is_report e)) es = true → until = now + BAN_MS) ∧
    ∀ id' hs now',
      makeIdent hs = t → event_ok s' (Connection id' hs now') = true →
      (now' < until →
         step s' (Connection id' hs now')
           = (set_identBySocket (<[id' := t]> (identBySocket s')) s',
              [SocketEmit id' banned None; ForceClose id'])) ∧
      (until ≤ now' →
         (step s' (Connection id' hs now')).2 = [SocketEmit id' need_agree None] ∧
         sockets (step s' (Connection id' hs now')).1 !! id' = Some false ∧
         tempBans (step s' (Connection id' hs now')).1 !! t = None).
Proof.
  intros Hs Hnow Hag Hp Ht Hr Hnew Hnine Hc s'.
  destruct (part000_report_contract s id now p Hs Hag Hp)
    as (t0 & r0 & Ht0 & Hr0 & _ & _ & _ & _ & _ & Hban).
  rewrite Ht in Ht0. rewrite Hr in Hr0. injection Ht0 as <-. injection Hr0 as <-.
  destruct (Hban Hnew Hnine) as (_ & Hbans & _).
  assert (tempBans (step s (Report id now)).1 !! t = Some (now + BAN_MS)) as Hentry.
  { rewrite Hbans. apply lookup_insert_eq. }
  destruct (run_ban_kept t (now + BAN_MS) es _ _ Hentry ltac:(lia)) as
    (until & Hu & Hle & Hsame).
  { by replace (now + BAN_MS - BAN_MS) with now by lia. }
  fold s' in Hu. exists until. split_and!; try done.
  intros id' hs now' Hident He.
  simpl in He. apply andb_prop in He as [[_ Hfresh]%andb_prop _].
  apply negb_true_iff, has_false in Hfresh. rewrite <- Hident in Hu.
  split; intros Hwhen.
  - change (step s' (Connection id' hs now')) with (connection id' hs now' s').
    rewrite (connection_banned id' hs now' _ s' Hfresh Hu Hwhen). by rewrite Hident.
  - change (step s' (Connection id' hs now')) with (connection id' hs now' s').
    rewrite (connection_expired id' hs now' _ s' Hu Hwhen)
      by (unfold BAN_MS in *; lia).
    simpl. split; [done|]. split; [apply lookup_insert_eq|].
    rewrite Hident. apply lookup_delete_eq.
Qed.

Lemma banned_identity_refused_until_expiry_witness :
  let s' := (run (step Scenario2.before_ban (Report (Scenario.reporter 9) 2009)).1
               [Connection (js "sockT2") Scenario.hsT 5000; Find (Scenario.reporter 9)]).1 in
  ∃ until,
    tempBans s' !! makeIdent Scenario.hsT = Some until ∧
    2009 + BAN_MS ≤ until ∧
    (forallb (λ e, negb (is_report e))
       [Connection (js "sockT2") Scenario.hsT 5000; Find (Scenario.reporter 9)] = true →
     until = 2009 + BAN_MS) ∧
    ∀ id' hs now',
      makeIdent hs = makeIdent Scenario.hsT →
      event_ok s' (Connection id' hs now') = true →
      (now' < until →
         step s' (Connection id' hs now')
           = (set_identBySocket (<[id' := makeIdent Scenario.hsT]> (identBySocket s')) s',
              [SocketEmit id' banned None; ForceClose id'])) ∧
      (until ≤ now' →
         (step s' (Connection id' hs now')).2 = [SocketEmit id' need_agree None] ∧
         sockets (step s' (Connection id' hs now')).1 !! id' = Some false ∧
         tempBans (step s' (Connection id' hs now')).1 !! makeIdent Scenario.hsT = None).
Proof.
  apply (banned_identity_refused_until_expiry Scenario2.before_ban
           (Scenario.reporter 9) 2009 Scenario.T (makeIdent Scenario.hsT)
           (makeIdent (Scenario.hsR 9))).
  - apply reachable_run; [constructor | vm_compute; reflexivity].
  - lia.
  - vm_compute. reflexivity.
  - vm_compute. reflexivity.
  - vm_compute. reflexivity.
  - vm_compute. reflexivity.
  - apply (bool_decide_unpack
             (makeIdent (Scenario.hsR 9)
                ∉ default ∅ (reportVotes Scenario2.before_ban !! makeIdent Scenario.hsT))).
    vm_compute. exact I.
  - vm_compute. reflexivity.
  - vm_compute. reflexivity.
Defined.

Lemma filter_ne_absent (id : jsstr) (q : list jsstr) :
  id ∉ q → filter (λ x, x ≠ id) q = q.
Proof.
  induction q as [|x q IH]; [done|].
  intros [Hx Hq]%not_elem_of_cons. rewrite filter_cons.
  destruct (decide (x ≠ id)) as [_|Hn]; [by rewrite IH|].
  exfalso. apply Hn. by intros ->.
Qed.

(** X14. A connection that is let in and then disconnects without doing
    anything leaves no trace: when the identity has no ban entry and the id
    has no stale identity mapping, connect followed by disconnect gives back
    the state it started from, with "need_agree" as the only effect. *)
Theorem connect_then_disconnect_restores s id hs now :
  reachable s → event_ok s (Connection id hs now) = true →
  tempBans s !! makeIdent hs = None → identBySocket s !! id = None →
  run s [Connection id hs now; Disconnect id] = (s, [SocketEmit id need_agree None]).
Proof.
  intros Hs He Hnoban Hnoident.
  pose proof (reachable_state_ok _ Hs) as Hok.
  pose proof (reachable_pending_ok _ Hs) as Hpo.
  simpl in He. apply andb_prop in He as [[_ Hfresh]%andb_prop Hnow].
  apply negb_true_iff, has_false in Hfresh. apply bool_decide_eq_true in Hnow.
  assert (isAgreed s id = false) as Hnag by (unfold isAgreed; by rewrite Hfresh).
  assert (partners s !! id = None) as Hunp.
  { destruct (partners s !! id) eqn:E; [|done].
    rewrite (ok_partners_agreed _ Hok _ _ E) in Hnag. done. }
  assert (id ∉ queue s) as Hunq.
  { intros Hin. rewrite (ok_queue_agreed _ Hok _ Hin) in Hnag. done. }
  assert (∀ k, pending k s !! id = None) as Hnopend.
  { intros k. destruct (pending k s !! id) eqn:E; [|done].
    destruct (Hpo _ _ _ E) as [Hag' _]. congruence. }
  unfold run. change (step s (Connection id hs now)) with (connection id hs now s).
  rewrite (connection_not_banned id hs now s Hnoban) by lia.
  cbn [step fst snd]. unfold has at 1. cbn [sockets set_sockets set_identBySocket].
  rewrite lookup_insert_eq. cbn [bool_decide decide_rel is_Some_dec].
  rewrite disconnect_unfold. unfold leave. simpl.
  rewrite (get_truthy_None _ _ Hunp). simpl.
  rewrite (filter_ne_absent _ _ Hunq).
  rewrite !delete_insert_id by done.
  pose proof (Hnopend Photo) as HP. pose proof (Hnopend Video) as HV. simpl in HP, HV.
  rewrite !delete_id by done.
  by destruct s.
Qed.

Lemma connect_then_disconnect_restores_witness :
  run Scenario.met [Connection (js "sockC") (Scenario.hs "10.0.0.3") 3000;
                    Disconnect (js "sockC")]
  = (Scenario.met, [SocketEmit (js "sockC") need_agree None]).
Proof.
  apply connect_then_disconnect_restores.
  - apply reachable_run; [constructor | vm_compute; reflexivity].
  - vm_compute. reflexivity.
  - vm_compute. reflexivity.
  - vm_compute. reflexivity.
Defined.

(** X15. The one who is left is not put back in the queue: after stop or
    disconnect of a paired socket in a reachable state, its former partner
    is still connected and consenting, and is neither paired nor queued
    until it sends find itself. *)
Theorem partner_left_idle s id p e :
  reachable s → partners s !! id = Some p →
  e = Stop id ∨ e = Disconnect id →
  partners (step s e).1 !! p = None ∧
  (p ∉ queue (step s e).1) ∧
  isAgreed (step s e).1 p = true.
Proof.
  intros Hs Hp He. pose proof (reachable_state_ok _ Hs) as Hok.
  pose proof (ok_partners_agreed _ Hok _ _ Hp) as Hag.
  pose proof (registry_sym _ _ (ok_registry _ Hok) _ _ Hp) as Hpid.
  pose proof (ok_partners_agreed _ Hok _ _ Hpid) as Hagp.
  assert (p ≠ id) as Hne.
  { intros ->. by apply (registry_irrefl _ _ (ok_registry _ Hok) id). }
  assert (p ∉ queue s) as Hnq.
  { intros Hin. rewrite (registry_queue_unpaired _ _ (ok_registry _ Hok) _ Hin) in Hpid.
    done. }
  destruct He as [-> | ->]; simpl; rewrite (isAgreed_has _ _ Hag).
  - destruct (stop_spec id s Hok Hag) as (_ & _ & H3 & _).
    split; [by apply H3|]. split.
    + rewrite (stop_unfold _ _ Hag). simpl. rewrite leave_queue.
      intros [_ ?]%list_elem_of_filter. done.
    + by rewrite (isAgreed_eq _ _ _ (stop_sockets id s)).
  - destruct (disconnect_spec id s Hok) as (_ & _ & H3 & _).
    split; [by apply H3|]. split.
    + rewrite disconnect_queue, leave_queue.
      intros [_ ?]%list_elem_of_filter. done.
    + apply isAgreed_lookup. rewrite disconnect_sockets.
      rewrite lookup_delete_ne by done. by apply isAgreed_lookup.
Qed.

Lemma partner_left_idle_witness :
  partners (step Scenario.met (Disconnect Scenario.A)).1 !! Scenario.B = None ∧
  (Scenario.B ∉ queue (step Scenario.met (Disconnect Scenario.A)).1) ∧
  isAgreed (step Scenario.met (Disconnect Scenario.A)).1 Scenario.B = true.
Proof.
  apply (partner_left_idle Scenario.met Scenario.A Scenario.B).
  - apply reachable_run; [constructor | vm_compute; reflexivity].
  - vm_compute. reflexivity.
  - by right.
Defined.

(** ** src/unnamed/part_000: the report tally *)

(** X16. In src/unnamed/part_000 a report by a consenting, paired socket
    ends the chat whatever the tally, and votes are counted by reporter
    identity: a reporter whose identity is in the target's set already
    changes neither tally nor bans; a new one is added while fewer than ten
    are reached; the tenth clears the tally, bans the target's identity for
    24 hours from the report and closes the target's socket. *)
Theorem report_tallies_distinct_identities s id now p :
  reachable s → isAgreed s id = true → partners s !! id = Some p →
  ∃ t r,
    identBySocket s !! p = Some t ∧
    identBySocket s !! id = Some r ∧
    partners (step s (Report id now)).1 !! id = None ∧
    partners (step s (Report id now)).1 !! p = None ∧
    [SocketEmit id report_received None; RoomEmit p partner_left None;
     SocketEmit id partner_left None] `prefix_of` (step s (Report id now)).2 ∧
    let old := default ∅ (reportVotes s !! t) in
    (r ∈ old →
       reportVotes (step s (Report id now)).1 !! t = Some old ∧
       tempBans (step s (Report id now)).1 = tempBans s) ∧
    (r ∉ old → (size old < 9)%nat →
       reportVotes (step s (Report id now)).1 !! t = Some (old ∪ {[r]}) ∧
       tempBans (step s (Report id now)).1 = tempBans s) ∧
    (r ∉ old → size old = 9%nat →
       reportVotes (step s (Report id now)).1 !! t = None ∧
       tempBans (step s (Report id now)).1
         = <[t := now + 24 * 60 * 60 * 1000]> (tempBans s) ∧
       sockets (step s (Report id now)).1 !! p = None).
Proof. apply part000_report_contract. Qed.

Lemma report_tallies_distinct_identities_witness :
  ∃ t r,
    identBySocket Scenario2.before_ban !! Scenario.T = Some t ∧
    identBySocket Scenario2.before_ban !! Scenario.reporter 9 = Some r ∧
    partners (step Scenario2.before_ban (Report (Scenario.reporter 9) 2009)).1
      !! Scenario.reporter 9 = None ∧
    partners (step Scenario2.before_ban (Report (Scenario.reporter 9) 2009)).1
      !! Scenario.T = None ∧
    [SocketEmit (Scenario.reporter 9) report_received None;
     RoomEmit Scenario.T partner_left None;
     SocketEmit (Scenario.reporter 9) partner_left None]
      `prefix_of` (step Scenario2.before_ban (Report (Scenario.reporter 9) 2009)).2 ∧
    let old := default ∅ (reportVotes Scenario2.before_ban !! t) in
    (r ∈ old →
       reportVotes (step Scenario2.before_ban (Report (Scenario.reporter 9) 2009)).1 !! t
         = Some old ∧
       tempBans (step Scenario2.before_ban (Report (Scenario.reporter 9) 2009)).1
         = tempBans Scenario2.before_ban) ∧
    (r ∉ old → (size old < 9)%nat →
       reportVotes (step Scenario2.before_ban (Report (Scenario.reporter 9) 2009)).1 !! t
         = Some (old ∪ {[r]}) ∧
       tempBans (step Scenario2.before_ban (Report (Scenario.reporter 9) 2009)).1
         = tempBans Scenario2.before_ban) ∧
    (r ∉ old → size old = 9%nat →
       reportVotes (step Scenario2.before_ban (Report (Scenario.reporter 9) 2009)).1 !! t
         = None ∧
       tempBans (step Scenario2.before_ban (Report (Scenario.reporter 9) 2009)).1
         = <[t := 2009 + 24 * 60 * 60 * 1000]> (tempBans Scenario2.before_ban) ∧
       sockets (step Scenario2.before_ban (Report (Scenario.reporter 9) 2009)).1
         !! Scenario.T = None).
Proof.
  apply (report_tallies_distinct_identities Scenario2.before_ban
           (Scenario.reporter 9) 2009 Scenario.T).
  - apply reachable_run; [constructor | vm_compute; reflexivity].
  - vm_compute. reflexivity.
  - vm_compute. reflexivity.
Defined.

(** X17. Whatever has happened, a stored tally holds fewer than ten
    reporters, and every stored ban ends at a positive time, so the ban
    check's special case for an expiry of 0 never applies to a stored ban. *)
Theorem tallies_below_threshold_bans_positive s :
  reachable s →
  (∀ t V, reportVotes s !! t = Some V → (size V < 10)%nat) ∧
  (∀ i until, tempBans s !! i = Some until → 0 < until).
Proof.
  intros Hs. pose proof (reachable_state_ok _ Hs) as Hok. split.
  - intros t V. apply (ok_votes _ Hok).
  - intros i u. apply (ok_bans _ Hok).
Qed.

Lemma tallies_below_threshold_bans_positive_witness :
  (∀ t V, reportVotes Scenario2.before_ban !! t = Some V → (size V < 10)%nat) ∧
  (∀ i until, tempBans Scenario2.before_ban !! i = Some until → 0 < until).
Proof.
  apply tallies_below_threshold_bans_positive.
  apply reachable_run; [constructor | vm_compute; reflexivity].
Defined.

End Part000More.

(** ** src/server.js: consent, connections and the media maps *)

Module ServerJsMore.
Import ServerJs ServerJsFacts.

(** X18. In src/server.js an event whose handler asks for consent, coming
    from a connected socket that has not consented, changes nothing and is
    answered with one "need_agree" per listener installed for the event:
    two for each of the three video events, one for the others.  A report
    stops at the consent check and so does not reach the undeclared names. *)
Theorem sj_unconsented_event_answered_per_listener s e id n c :
  sockets s !! id = Some c → agreed c = false →
  gated_listeners e = Some (id, n) →
  step s e = Done s (replicate n (SocketEmit id need_agree None)).
Proof.
  intros Hc Hag He.
  assert (has (sockets s) id = true) as Hlive by (apply has_true; by rewrite Hc).
  assert (isAgreed s id = false) as Hna by (unfold isAgreed; by rewrite Hc).
  destruct e as [id' hs now|id'|id'|id'|id'|id' msg|id' now|k id' v|k id'|k id'|id'];
    try destruct k; simpl in He; try done; injection He as -> <-;
    simpl; unfold listening, finish; rewrite Hlive;
    unfold find_handler, next, stop, message_handler, report, both,
      media_offer, media_accept, media_decline, video_accept_2, video_decline_2;
    rewrite ?Hna, ?Hc, ?Hag; simpl; rewrite ?Hc, ?Hag; done.
Qed.

Lemma sj_unconsented_event_answered_per_listener_witness :
  step Scenario2.connected_js (MediaOffer Video Scenario.A (VStr Scenario2.video1))
  = Done Scenario2.connected_js
      [SocketEmit Scenario.A need_agree None; SocketEmit Scenario.A need_agree None].
Proof.
  apply (sj_unconsented_event_answered_per_listener Scenario2.connected_js _ _ 2 fresh_conn).
  - vm_compute. reflexivity.
  - reflexivity.
  - reflexivity.
Defined.

(** X19. While src/server.js runs, no connection is refused: the set of
    banned identities is never added to, and the ban the report handler
    stores (with the two maps declared) is read by nothing, so every new
    socket is registered with consent reset and gets "need_agree". *)
Theorem sj_connection_never_refused s id hs now :
  reachable s →
  step s (Connection id hs now)
  = Done (set_conn id fresh_conn
            (set_identBySocket (<[id := makeIdent hs]> (identBySocket s)) s))
         [SocketEmit id need_agree None].
Proof.
  intros Hs. simpl. unfold finish, connection. simpl.
  rewrite (sj_reachable_never_bans _ Hs).
  rewrite bool_decide_eq_false_2 by apply not_elem_of_empty. done.
Qed.

Lemma sj_connection_never_refused_witness :
  (∃ t until, ledger Scenario2.after_ten_js = Some t ∧
     tempBans t !! makeIdent (Scenario.hs "10.0.0.2") = Some until ∧ 3000 < until) ∧
  step Scenario2.after_ten_js (Connection (js "sockB2") (Scenario.hs "10.0.0.2") 3000)
  = Done (set_conn (js "sockB2") fresh_conn
            (set_identBySocket
               (<[js "sockB2" := makeIdent (Scenario.hs "10.0.0.2")]>
                  (identBySocket Scenario2.after_ten_js)) Scenario2.after_ten_js))
         [SocketEmit (js "sockB2") need_agree None].
Proof.
  split.
  - eexists _, _. split; [vm_compute; reflexivity|].
    split; [vm_compute; reflexivity|]. lia.
  - apply sj_connection_never_refused.
    apply (sj_reachable_run init_declared Scenario2.ten_by_one _
             (match run init_declared Scenario2.ten_by_one with
              | Done _ out => out | Uncaught _ => [] end)).
    + constructor.
    + vm_compute. reflexivity.
    + vm_compute. reflexivity.
Defined.

Lemma own_offers_sockets s s' :
  sockets s' = sockets s → own_offers_absent s → own_offers_absent s'.
Proof. intros E H k id c. rewrite E. apply H. Qed.

Lemma own_offers_set_conn id c s :
  (∀ k, pending k c !! id = None) →
  own_offers_absent s → own_offers_absent (set_conn id c s).
Proof.
  intros Hc H k x c'. simpl.
  destruct (decide (x = id)) as [->|Hne].
  - rewrite lookup_insert_eq. intros [= <-]. apply Hc.
  - rewrite lookup_insert_ne by done. apply H.
Qed.

Lemma own_offers_delete id s :
  own_offers_absent s → own_offers_absent (set_sockets (delete id (sockets s)) s).
Proof.
  intros H k x c'. simpl. intros [_ Hx]%lookup_delete_Some. by apply H.
Qed.

Lemma pending_set_pending_cases k k' m c :
  pending k (set_pending k' m c) = if decide (k = k') then m else pending k c.
Proof. by destruct k, k', c. Qed.

Lemma own_offers_leave id s :
  own_offers_absent s → own_offers_absent (leave id s).1.
Proof. apply own_offers_sockets, sj_leave_sockets. Qed.

Lemma own_offers_disconnect id s :
  own_offers_absent s → own_offers_absent (disconnect id s).1.
Proof.
  intros H. unfold disconnect.
  pose proof (own_offers_leave id s H) as Hl. destruct (leave id s) as [s1 o1].
  simpl in *. by apply (own_offers_delete id (set_identBySocket _ s1)).
Qed.

Lemma own_offers_media_offer k id v s :
  state_ok s → own_offers_absent s → own_offers_absent (media_offer k id v s).1.
Proof.
  intros Hok H. unfold media_offer.
  destruct (sockets s !! id) as [c|] eqn:Hc; [|done].
  destruct (negb (agreed c)); [done|].
  destruct (get_truthy (partners s) id) as [p|] eqn:Hp; [|done].
  destruct v as [d|]; [|done].
  destruct (negb (startsWith (media_prefix k) d)); [done|]. simpl.
  apply own_offers_set_conn; [|done].
  apply get_truthy_Some in Hp as [Hp _].
  assert (p ≠ id) as Hne.
  { intros ->. by apply (registry_irrefl _ _ (ok_registry _ Hok) id). }
  intros k'. rewrite pending_set_pending_cases.
  destruct (decide (k' = k)) as [->|_]; [|by apply (H k' id c)].
  rewrite lookup_insert_ne by done. by apply (H k id c).
Qed.

Lemma media_accept_idle k id s :
  own_offers_absent s →
  media_accept k id s = (s, []) ∨ media_accept k id s = refuse s id.
Proof.
  intros H. unfold media_accept.
  destruct (sockets s !! id) as [c|] eqn:Hc; [|by left].
  destruct (negb (agreed c)); [by right|].
  rewrite (H k id c Hc). by left.
Qed.

Lemma video_accept_2_idle id s :
  own_offers_absent s →
  video_accept_2 id s = (s, []) ∨ video_accept_2 id s = refuse s id.
Proof.
  intros H. unfold video_accept_2.
  destruct (sockets s !! id) as [c|] eqn:Hc; [|by left].
  destruct (negb (agreed c)); [by right|].
  pose proof (H Video id c Hc) as Hn. simpl in Hn. rewrite Hn. by left.
Qed.

Lemma media_decline_idle k id s :
  own_offers_absent s →
  media_decline k id s = (s, []) ∨ media_decline k id s = refuse s id.
Proof.
  intros H. unfold media_decline.
  destruct (sockets s !! id) as [c|] eqn:Hc; [|by left].
  destruct (negb (agreed c)); [by right|].
  rewrite (H k id c Hc). by left.
Qed.

Lemma video_decline_2_idle id s :
  own_offers_absent s →
  video_decline_2 id s = (s, []) ∨ video_decline_2 id s = refuse s id.
Proof.
  intros H. unfold video_decline_2.
  destruct (sockets s !! id) as [c|] eqn:Hc; [|by left].
  destruct (negb (agreed c)); [by right|].
  pose proof (H Video id c Hc) as Hn. simpl in Hn. left. f_equal.
  unfold set_conn. rewrite delete_id by done.
  replace (set_pending Video (pendingVideos c) c) with c by (by destruct c).
  rewrite insert_id by done. by destruct s.
Qed.

Lemma own_offers_both h1 h2 s :
  (∀ s, state_ok s → own_offers_absent s → state_ok (h1 s).1 ∧ own_offers_absent (h1 s).1) →
  (∀ s, state_ok s → own_offers_absent s → own_offers_absent (h2 s).1) →
  state_ok s → own_offers_absent s → own_offers_absent (both h1 h2 s).1.
Proof.
  intros H1 H2 Hok H. unfold both.
  destruct (H1 s Hok H) as [Hok1 Ho1]. destruct (h1 s) as [s1 o1].
  specialize (H2 s1 Hok1 Ho1). destruct (h2 s1) as [s2 o2]. done.
Qed.

Lemma own_offers_idle (h : state → state * list effect) s id :
  (h s = (s, []) ∨ h s = refuse s id) → (h s).1 = s.
Proof. by intros [-> | ->]. Qed.

Lemma own_offers_report id now s s' out :
  own_offers_absent s → report id now s = Done s' out → own_offers_absent s'.
Proof.
  intros H. unfold report.
  destruct (negb (isAgreed s id)); [by intros [= <- <-]|].
  destruct (get_truthy (partners s) id) as [p|]; [|by intros [= <- <-]].
  destruct (get_truthy (identBySocket s) p) as [t|]; [|by intros [= <- <-]].
  destruct (ledger s) as [tb|]; [|done].
  case_bool_decide.
  - match goal with
    | |- context [has (sockets ?s1) p] =>
        assert (own_offers_absent s1) as H1 by (by apply (own_offers_sockets s));
        destruct (has (sockets s1) p); [|by intros [= <- <-]];
        pose proof (own_offers_disconnect p s1 H1) as Hd;
        destruct (disconnect p s1) as [s2 o2]
    end.
    by intros [= <- <-].
  - intros [= <- <-]. by apply (own_offers_sockets s).
Qed.

Lemma own_offers_step s e s' out :
  state_ok s → own_offers_absent s → step s e = Done s' out → own_offers_absent s'.
Proof.
  intros Hok H.
  destruct e as [id hs now|id|id|id|id|id msg|id now|k id v|k id|k id|id];
    try destruct k; simpl; unfold listening, finish;
    try (destruct (has (sockets s) id) eqn:Hlive; [|by intros [= <- <-]]).
  - intros [= <- <-]. unfold connection. case_bool_decide.
    + cbn [fst]. apply (own_offers_delete id (set_identBySocket _ s)).
      by apply (own_offers_sockets s).
    + cbn [fst]. apply (own_offers_set_conn id _ (set_identBySocket _ s)).
      * intros k. by destruct k.
      * by apply (own_offers_sockets s).
  - intros [= <- <-]. unfold agree. destruct (sockets s !! id) as [c|] eqn:Hc; [|done].
    simpl. apply own_offers_set_conn; [|done]. intros k. specialize (H k id c Hc).
    by destruct k.
  - intros [= <- <-]. apply (own_offers_sockets s); [|done].
    unfold find_handler. repeat case_match; done.
  - intros [= <- <-]. apply (own_offers_sockets s); [|done].
    unfold next. destruct (negb (isAgreed s id)); [done|].
    pose proof (sj_leave_sockets id s). by destruct (leave id s).
  - intros [= <- <-]. apply (own_offers_sockets s); [|done].
    unfold stop. destruct (negb (isAgreed s id)); [done|].
    pose proof (sj_leave_sockets id s). by destruct (leave id s).
  - intros [= <- <-]. apply (own_offers_sockets s); [|done].
    unfold message_handler. repeat case_match; done.
  - by apply own_offers_report.
  - intros [= <- <-]. by apply own_offers_media_offer.
  - intros [= <- <-]. apply own_offers_both; try done.
    + intros s0 Hok0 H0. split; [by apply sj_media_offer_state_ok|].
      by apply own_offers_media_offer.
    + intros s0 Hok0 H0. by apply own_offers_media_offer.
  - intros [= <- <-]. by rewrite (own_offers_idle _ s id (media_accept_idle Photo id s H)).
  - intros [= <- <-]. unfold both.
    pose proof (own_offers_idle _ s id (media_accept_idle Video id s H)) as E1.
    destruct (media_accept Video id s) as [s1 o1]. simpl in E1. subst s1.
    pose proof (own_offers_idle _ s id (video_accept_2_idle id s H)) as E2.
    destruct (video_accept_2 id s) as [s2 o2]. simpl in E2. by subst s2.
  - intros [= <- <-]. by rewrite (own_offers_idle _ s id (media_decline_idle Photo id s H)).
  - intros [= <- <-]. unfold both.
    pose proof (own_offers_idle _ s id (media_decline_idle Video id s H)) as E1.
    destruct (media_decline Video id s) as [s1 o1]. simpl in E1. subst s1.
    pose proof (own_offers_idle _ s id (video_decline_2_idle id s H)) as E2.
    destruct (video_decline_2 id s) as [s2 o2]. simpl in E2. by subst s2.
  - intros [= <- <-]. by apply own_offers_disconnect.
Qed.

Lemma sj_reachable_own_offers s : reachable s → own_offers_absent s.
Proof.
  induction 1 as [| |s e s' out Hs IH He Hstep].
  - intros k id c Hc. done.
  - intros k id c Hc. done.
  - eapply own_offers_step; [|done..]. by apply sj_reachable_state_ok.
Qed.

(** X20. In src/server.js an offer is stored in the sender's own map under
    the partner's id, and accept and decline look in the caller's own map
    under the caller's id.  So while the server runs, accept and decline
    from a consenting socket find nothing: the state is unchanged and
    nothing is emitted, also right after the partner has made an offer. *)
Theorem sj_accept_and_decline_find_nothing s k id :
  reachable s → isAgreed s id = true →
  step s (MediaAccept k id) = Done s [] ∧ step s (MediaDecline k id) = Done s [].
Proof.
  intros Hs Hag. pose proof (sj_reachable_own_offers _ Hs) as H.
  pose proof (sj_isAgreed_has _ _ Hag) as Hlive.
  assert (media_accept k id s = (s, [])) as Ea.
  { unfold media_accept, isAgreed in *. destruct (sockets s !! id) as [c|] eqn:Hc; [|done].
    rewrite Hag. simpl. by rewrite (H k id c Hc). }
  assert (media_decline k id s = (s, [])) as Ed.
  { unfold media_decline, isAgreed in *. destruct (sockets s !! id) as [c|] eqn:Hc; [|done].
    rewrite Hag. simpl. by rewrite (H k id c Hc). }
  assert (video_accept_2 id s = (s, [])) as Ea2.
  { destruct (video_accept_2_idle id s H) as [E|E]; [done|].
    exfalso. revert E. unfold video_accept_2, isAgreed, refuse in *.
    destruct (sockets s !! id) as [c|] eqn:Hc; [|done]. rewrite Hag. simpl.
    pose proof (H Video id c Hc) as Hn. simpl in Hn. by rewrite Hn. }
  assert (video_decline_2 id s = (s, [])) as Ed2.
  { destruct (video_decline_2_idle id s H) as [E|E]; [done|].
    exfalso. revert E. unfold video_decline_2, isAgreed, refuse in *.
    destruct (sockets s !! id) as [c|] eqn:Hc; [|done]. rewrite Hag. simpl. done. }
  destruct k; simpl; unfold listening, finish, both; rewrite Hlive.
  - by rewrite Ea, Ed.
  - by rewrite Ea, Ea2, Ed, Ed2.
Qed.

Lemma sj_accept_and_decline_find_nothing_witness :
  ∃ s1 out1,
    step Scenario.met_js (MediaOffer Photo Scenario.A (VStr Scenario.photo1)) = Done s1 out1 ∧
    out1 = [RoomEmit Scenario.B (media_request Photo) None;
            SocketEmit Scenario.A (media_sent Photo) None] ∧
    step s1 (MediaAccept Photo Scenario.B) = Done s1 [] ∧
    step s1 (MediaDecline Photo Scenario.B) = Done s1 [].
Proof.
  eexists _, _. split; [vm_compute; reflexivity|]. split; [reflexivity|].
  apply sj_accept_and_decline_find_nothing.
  - eapply (sj_reachable_run init
              (Scenario.meet ++ [MediaOffer Photo Scenario.A (VStr Scenario.photo1)])).
    + constructor.
    + vm_compute. reflexivity.
    + vm_compute. reflexivity.
  - vm_compute. reflexivity.
Defined.

Lemma no_delivery_app (l1 l2 : list effect) :
  forallb (λ eff, negb (delivers_media eff)) l1 = true →
  forallb (λ eff, negb (delivers_media eff)) l2 = true →
  forallb (λ eff, negb (delivers_media eff)) (l1 ++ l2) = true.
Proof. intros H1 H2. rewrite forallb_app. by rewrite H1, H2. Qed.

Lemma no_delivery_leave id s :
  forallb (λ eff, negb (delivers_media eff)) (leave id s).2 = true.
Proof. unfold leave. by destruct (get_truthy (partners s) id). Qed.

Lemma no_delivery_disconnect id s :
  forallb (λ eff, negb (delivers_media eff)) (disconnect id s).2 = true.
Proof.
  unfold disconnect. pose proof (no_delivery_leave id s).
  by destruct (leave id s).
Qed.

Lemma no_delivery_media_offer k id v s :
  forallb (λ eff, negb (delivers_media eff)) (media_offer k id v s).2 = true.
Proof. unfold media_offer. repeat case_match; done. Qed.

Lemma no_delivery_idle (h : state → state * list effect) s id :
  (h s = (s, []) ∨ h s = refuse s id) →
  forallb (λ eff, negb (delivers_media eff)) (h s).2 = true.
Proof. by intros [-> | ->]. Qed.

(** X21. The server of src/server.js never hands a media payload to
    anyone: whatever event comes in while the server runs, none of the
    effects it produces is a "photo_deliver", a "video_deliver" or a
    "video_receive". *)
Theorem sj_media_never_delivered s e s' out :
  reachable s → step s e = Done s' out →
  forallb (λ eff, negb (delivers_media eff)) out = true.
Proof.
  intros Hs. pose proof (sj_reachable_own_offers _ Hs) as H.
  pose proof (sj_reachable_state_ok _ Hs) as Hok.
  destruct e as [id hs now|id|id|id|id|id msg|id now|k id v|k id|k id|id];
    try destruct k; simpl; unfold listening, finish;
    try (destruct (has (sockets s) id) eqn:Hlive; [|by intros [= <- <-]]).
  - intros [= <- <-]. unfold connection. by case_bool_decide.
  - intros [= <- <-]. unfold agree. by destruct (sockets s !! id).
  - intros [= <- <-]. unfold find_handler. repeat case_match; done.
  - intros [= <- <-]. unfold next. destruct (negb (isAgreed s id)); [done|].
    pose proof (no_delivery_leave id s). destruct (leave id s). simpl in *.
    by apply no_delivery_app.
  - intros [= <- <-]. unfold stop. destruct (negb (isAgreed s id)); [done|].
    pose proof (no_delivery_leave id s). destruct (leave id s). simpl in *.
    by apply no_delivery_app.
  - intros [= <- <-]. unfold message_handler. repeat case_match; done.
  - unfold report.
    destruct (negb (isAgreed s id)); [by intros [= <- <-]|].
    destruct (get_truthy (partners s) id) as [p|]; [|by intros [= <- <-]].
    destruct (get_truthy (identBySocket s) p) as [t|]; [|by intros [= <- <-]].
    destruct (ledger s) as [tb|]; [|done].
    case_bool_decide; [|by intros [= <- <-]].
    match goal with
    | |- context [has (sockets ?s1) p] =>
        destruct (has (sockets s1) p); [|by intros [= <- <-]];
        pose proof (no_delivery_disconnect p s1) as Hd;
        destruct (disconnect p s1) as [s2 o2]
    end.
    intros [= <- <-]. done.
  - intros [= <- <-]. apply no_delivery_media_offer.
  - intros [= <- <-]. unfold both.
    pose proof (no_delivery_media_offer Video id v s) as H1.
    destruct (media_offer Video id v s) as [s1 o1].
    pose proof (no_delivery_media_offer Video id v s1) as H2.
    destruct (media_offer Video id v s1) as [s2 o2]. simpl in *.
    by apply no_delivery_app.
  - intros [= <- <-]. apply (no_delivery_idle _ s id), media_accept_idle, H.
  - intros [= <- <-]. unfold both.
    pose proof (own_offers_idle _ s id (media_accept_idle Video id s H)) as E1.
    pose proof (no_delivery_idle _ s id (media_accept_idle Video id s H)) as H1.
    destruct (media_accept Video id s) as [s1 o1]. simpl in E1, H1. subst s1.
    pose proof (no_delivery_idle _ s id (video_accept_2_idle id s H)) as H2.
    destruct (video_accept_2 id s) as [s2 o2]. simpl in *.
    by apply no_delivery_app.
  - intros [= <- <-]. apply (no_delivery_idle _ s id), media_decline_idle, H.
  - intros [= <- <-]. unfold both.
    pose proof (own_offers_idle _ s id (media_decline_idle Video id s H)) as E1.
    pose proof (no_delivery_idle _ s id (media_decline_idle Video id s H)) as H1.
    destruct (media_decline Video id s) as [s1 o1]. simpl in E1, H1. subst s1.
    pose proof (no_delivery_idle _ s id (video_decline_2_idle id s H)) as H2.
    destruct (video_decline_2 id s) as [s2 o2]. simpl in *.
    by apply no_delivery_app.
  - intros [= <- <-]. apply no_delivery_disconnect.
Qed.

Lemma sj_media_never_delivered_witness :
  forallb (λ eff, negb (delivers_media eff))
    [RoomEmit Scenario.B (media_request Video) None;
     SocketEmit Scenario.A (media_sent Video) None;
     RoomEmit Scenario.B (media_request Video) None;
     SocketEmit Scenario.A (media_sent Video) None] = true.
Proof.
  eapply (sj_media_never_delivered Scenario.met_js
            (MediaOffer Video Scenario.A (VStr Scenario2.video1))).
  - apply (sj_reachable_run init Scenario.meet _
             (match run init Scenario.meet with Done _ out => out | Uncaught _ => [] end)).
    + constructor.
    + vm_compute. reflexivity.
    + vm_compute. reflexivity.
  - vm_compute. reflexivity.
Defined.

Lemma sj_leave_ledger id s : ledger (leave id s).1 = ledger s.
Proof. unfold leave. by destruct (get_truthy (partners s) id). Qed.

Lemma sj_disconnect_ledger id s : ledger (disconnect id s).1 = ledger s.
Proof.
  unfold disconnect. pose proof (sj_leave_ledger id s).
  by destruct (leave id s).
Qed.

Lemma sj_media_offer_ledger k id v s : ledger (media_offer k id v s).1 = ledger s.
Proof. unfold media_offer. repeat case_match; done. Qed.

Lemma sj_media_accept_ledger k id s : ledger (media_accept k id s).1 = ledger s.
Proof. unfold media_accept. repeat case_match; done. Qed.

Lemma sj_media_decline_ledger k id s : ledger (media_decline k id s).1 = ledger s.
Proof. unfold media_decline. repeat case_match; done. Qed.

Lemma sj_video_accept_2_ledger id s : ledger (video_accept_2 id s).1 = ledger s.
Proof. unfold video_accept_2. repeat case_match; done. Qed.

Lemma sj_video_decline_2_ledger id s : ledger (video_decline_2 id s).1 = ledger s.
Proof. unfold video_decline_2. repeat case_match; done. Qed.

Lemma sj_step_ledger_none s e s' out :
  ledger s = None → step s e = Done s' out → ledger s' = None.
Proof.
  intros Hl.
  destruct e as [id hs now|id|id|id|id|id msg|id now|k id v|k id|k id|id];
    try destruct k; simpl; unfold listening, finish;
    try (destruct (has (sockets s) id) eqn:Hlive; [|by intros [= <- <-]]).
  - intros [= <- <-]. unfold connection. by case_bool_decide.
  - intros [= <- <-]. unfold agree. by destruct (sockets s !! id).
  - intros [= <- <-]. unfold find_handler. repeat case_match; done.
  - intros [= <- <-]. unfold next. destruct (negb (isAgreed s id)); [done|].
    pose proof (sj_leave_ledger id s). destruct (leave id s). simpl in *. congruence.
  - intros [= <- <-]. unfold stop. destruct (negb (isAgreed s id)); [done|].
    pose proof (sj_leave_ledger id s). destruct (leave id s). simpl in *. congruence.
  - intros [= <- <-]. unfold message_handler. repeat case_match; done.
  - unfold report. rewrite Hl. repeat case_match; by intros [= <- <-].
  - intros [= <- <-]. by rewrite sj_media_offer_ledger.
  - intros [= <- <-]. rewrite (sj_both_keeps ledger); [done|..];
      intros; apply sj_media_offer_ledger.
  - intros [= <- <-]. by rewrite sj_media_accept_ledger.
  - intros [= <- <-]. rewrite (sj_both_keeps ledger); [done|..]; intros;
      [apply sj_media_accept_ledger|apply sj_video_accept_2_ledger].
  - intros [= <- <-]. by rewrite sj_media_decline_ledger.
  - intros [= <- <-]. rewrite (sj_both_keeps ledger); [done|..]; intros;
      [apply sj_media_decline_ledger|apply sj_video_decline_2_ledger].
  - intros [= <- <-]. by rewrite sj_disconnect_ledger.
Qed.

Lemma sj_run_ledger_none s es s' out :
  ledger s = None → run s es = Done s' out → ledger s' = None.
Proof.
  revert s out. induction es as [|e es IH]; intros s out Hl; simpl.
  - by intros [= <- <-].
  - destruct (step s e) as [s1 o1|err] eqn:Hstep; [|done].
    destruct (run s1 es) as [s2 o2|err] eqn:Hrun; [|done].
    intros [= <- <-]. eapply IH; [|done]. by eapply sj_step_ledger_none.
Qed.

(** X22. In src/server.js as it stands, whatever the server has been
    through without dying, a report by a consenting socket that has a
    partner raises the ReferenceError on [reportCounts]: the partner of a
    socket always has an identity registered, so the handler always gets
    as far as reading the undeclared name.  A report by a consenting socket
    without a partner returns at once and changes nothing. *)
Theorem sj_report_by_paired_socket_raises es s out id now :
  events_ok init es = true → run init es = Done s out →
  isAgreed s id = true →
  (is_Some (partners s !! id) →
     step s (Report id now) = Uncaught (ReferenceError "reportCounts")) ∧
  (partners s !! id = None → step s (Report id now) = Done s []).
Proof.
  intros Hes Hrun Hag.
  pose proof (sj_reachable_run init es s out reachable_init Hes Hrun) as Hs.
  pose proof (sj_reachable_state_ok _ Hs) as Hok.
  pose proof (sj_run_ledger_none init es s out eq_refl Hrun) as Hl.
  simpl. unfold listening. rewrite (sj_isAgreed_has _ _ Hag). split.
  - intros Hp. by apply sj_report_throws.
  - intros Hp. unfold report. rewrite Hag. simpl.
    by rewrite (get_truthy_None _ _ Hp).
Qed.

Lemma sj_report_by_paired_socket_raises_witness :
  (is_Some (partners Scenario.met_js !! Scenario.B) →
     step Scenario.met_js (Report Scenario.B 2000)
       = Uncaught (ReferenceError "reportCounts")) ∧
  (partners Scenario.met_js !! Scenario.B = None →
     step Scenario.met_js (Report Scenario.B 2000) = Done Scenario.met_js []).
Proof.
  apply (sj_report_by_paired_socket_raises Scenario.meet Scenario.met_js
           (match run init Scenario.meet with Done _ out => out | Uncaught _ => [] end)).
  - vm_compute. reflexivity.
  - vm_compute. reflexivity.
  - vm_compute. reflexivity.
Defined.

End ServerJsMore.

(** * The life of a pending media offer *)

(** C10. In src/unnamed/part_000 an offer pending for a receiver [r]
    outlives the pairing it was made in: stop by anyone, next by anyone
    (the file installs no next listener, so the event does nothing), and
    the disconnect of any other socket (the sender's included), leave it in
    place; a consenting [r] can accept it, receiving the stored payload, or
    decline it, whether or not [r] is still paired and whether or not the
    sender is still connected, and either removes it; the disconnect of
    [r]'s own socket removes whatever is pending for [r], photo and video,
    and while the server runs the receiver of a pending offer is always
    connected, so that its disconnect handler does run; and the only
    events after which nothing is pending for [r] any more are [r]'s own
    accept, [r]'s own decline, and those in which [r]'s socket is
    disconnected. *)
Theorem pending_offer_outlives_pairing :
  ∀ k s r o,
    Part000.pending k s !! r = Some o →
    (∀ x, Part000.pending k (Part000.step s (Stop x)).1 !! r = Some o) ∧
    (∀ x, Part000.pending k (Part000.step s (Next x)).1 !! r = Some o) ∧
    (∀ x, x ≠ r → Part000.pending k (Part000.step s (Disconnect x)).1 !! r = Some o) ∧
    (Part000.isAgreed s r = true →
       Part000.step s (MediaAccept k r)
         = (Part000.set_pending k (delete r (Part000.pending k s)) s,
            SocketEmit r (media_deliver k) (Some (DDataUrl (dataUrl o)))
              :: Part000.emitTo (fromSocketId o) message
                   (Some (DStr (Part000.accepted_text k)))) ∧
       Part000.step s (MediaDecline k r)
         = (Part000.set_pending k (delete r (Part000.pending k s)) s,
            Part000.emitTo (fromSocketId o) message
              (Some (DStr (Part000.declined_text k)))) ∧
       Part000.pending k (Part000.step s (MediaAccept k r)).1 !! r = None ∧
       Part000.pending k (Part000.step s (MediaDecline k r)).1 !! r = None) ∧
    (is_Some (Part000.sockets s !! r) →
       ∀ k', Part000.pending k' (Part000.step s (Disconnect r)).1 !! r = None) ∧
    (Part000.reachable s →
       Part000.isAgreed s r = true ∧
       ∀ k', Part000.pending k' (Part000.step s (Disconnect r)).1 !! r = None) ∧
    (∀ e, Part000.pending k (Part000.step s e).1 !! r = None →
       e = MediaAccept k r ∨ e = MediaDecline k r ∨
       (is_Some (Part000.sockets s !! r) ∧
        Part000.sockets (Part000.step s e).1 !! r = None)).
Proof.
  intros k s r o Ho.
  assert (is_Some (Part000.sockets s !! r) →
          ∀ k', Part000.pending k' (Part000.step s (Disconnect r)).1 !! r = None)
    as Hown.
  { intros Hlive%has_true k'. simpl. rewrite Hlive.
    rewrite Part000Facts.disconnect_pending. apply lookup_delete_eq. }
  split_and!.
  - intros x. simpl. destruct (has (Part000.sockets s) x); [|done].
    unfold Part000.stop. destruct (negb (Part000.isAgreed s x)); [done|].
    pose proof (Part000Facts.leave_pending k x s) as Hl.
    destruct (Part000.leave x s) as [s1 o1]. simpl in *. by rewrite Hl.
  - done.
  - intros x Hx. simpl. destruct (has (Part000.sockets s) x); [|done].
    rewrite Part000Facts.disconnect_pending. by rewrite lookup_delete_ne.
  - intros Hag. simpl. rewrite (Part000Facts.isAgreed_has _ _ Hag).
    rewrite (Part000Facts.media_accept_spec k r o s Hag Ho).
    rewrite (Part000Facts.media_decline_spec k r o s Hag Ho).
    split_and!; try done; simpl;
      by rewrite Part000Facts.pending_set_pending, lookup_delete_eq.
  - done.
  - intros Hs.
    destruct (Part000More.reachable_pending_ok s Hs k r o Ho) as [Hag _].
    split; [done|]. apply Hown. by apply Part000Facts.isAgreed_live.
  - intros e. by apply (Part000Facts.pending_removed_by s e k r o).
Qed.

Lemma pending_offer_outlives_pairing_witness :
  Part000.step (Part000.step Scenario.offered (Disconnect Scenario.A)).1
    (MediaAccept Photo Scenario.B)
  = (Part000.set_pending Photo ∅ (Part000.step Scenario.offered (Disconnect Scenario.A)).1,
     [SocketEmit Scenario.B (media_deliver Photo) (Some (DDataUrl Scenario.photo1));
      RoomEmit Scenario.A message (Some (DStr (Part000.accepted_text Photo)))]) ∧
  Part000.pending Photo (Part000.step Scenario.offered (Disconnect Scenario.B)).1
    !! Scenario.B = None.
Proof.
  pose proof (pending_offer_outlives_pairing Photo Scenario.offered Scenario.B
                (Offer Scenario.A Scenario.photo1) ltac:(vm_compute; reflexivity))
    as (_ & _ & Hdisc & _ & Hown & _).
  split.
  - specialize (Hdisc Scenario.A ltac:(discriminate)).
    destruct (pending_offer_outlives_pairing Photo
                (Part000.step Scenario.offered (Disconnect Scenario.A)).1 Scenario.B
                (Offer Scenario.A Scenario.photo1) Hdisc) as (_ & _ & _ & Hacc & _).
    destruct Hacc as [Hacc _]; [vm_compute; reflexivity|].
    rewrite Hacc. vm_compute. reflexivity.
  - apply Hown. vm_compute. eexists. reflexivity.
Defined.
